(** * Pi Messenger: file-backed coordination store (src/store.ts) and
      review verdict parsing (src/crew/utils/verdict.ts)

    A shallow embedding of the swarm-claim operations, the swarm lock, the
    inbox processing pass, the registry rename and name probing, and the
    verdict parser, with the properties the specification states of them;
    and of registration, the active-agents cache, reservation conflicts
    and the inbox watcher, with further properties read off the code.

    Conventions of the embedding.
    - A JS object used as a dictionary is a [gmap string _]; the order in
      which [Object.entries] enumerates it is the order of [map_to_list],
      and no statement below depends on that order.
    - A JSON file holds the value [JSON.parse] returns for it, or is
      malformed; what an operation writes is read back as written.
    - [process.pid], the clock, the session id, the random suffixes and the
      functions imported from lib.js ([isProcessAlive],
      [isValidAgentName]) are inputs.
    - Faults of the file system are inputs where the code handles them:
      a write of a shared file that fails, an inbox file that cannot be
      read or unlinked, a lock that cannot be opened, a registration that
      cannot be written. Peers act between the calls, and where the code
      re-reads what it wrote.
    - Strings are sequences of code units below 256.
    - A property read on a JS object also finds the members of
      [Object.prototype], and an assignment under the key ["__proto__"]
      sets the prototype instead of storing an entry. [filterStaleClaims]
      is modelled with that; the statements about the keyed reads and
      writes of the claim operations take spec paths and task ids that
      are not names of such members ([ordinaryKey]), in a process whose
      [Object.prototype] holds its standard members only.
    - Paths are POSIX paths. A name joined into a path stands for the
      directory [path.join] resolves it to; the statements about inboxes
      keyed by a raw name take names that are one path component
      ([plainName]), and [resolveTarget] follows the others.
    - A number read from a file is taken as the integer its digits
      denote; the statements about the PID of a lock file take numbers
      that a JS number holds exactly ([exactPid]). *)

From Stdlib Require Import ZArith Ascii.
From stdpp Require Import gmap strings list fin_maps sorting pretty.

Local Open Scope Z_scope.

(** ** Outcomes of fallible calls *)

(** A call either returns a value or throws (for an [async] function:
    the promise resolves or rejects). *)
Inductive Outcome (A : Type) : Type :=
  | Returned (a : A)
  | Threw (msg : string).
Arguments Returned {A} a.
Arguments Threw {A} msg.

(** A JSON file on disk: absent, present but not parsable to an object, or
    holding a parsed value. *)
Inductive JsonFile (A : Type) : Type :=
  | Absent
  | Malformed
  | Json (a : A).
Arguments Absent {A}.
Arguments Malformed {A}.
Arguments Json {A} a.

(** ** State passing with exceptions

    Code that reads and writes the shared files and may throw: a
    transformer of the state [S] whose [Threw] outcome skips the rest. *)
Definition M (S A : Type) : Type := S → S * Outcome A.

Definition ret {S A} (a : A) : M S A := λ s, (s, Returned a).

Definition bind {S A B} (m : M S A) (f : A → M S B) : M S B :=
  λ s, match m s with
       | (s', Returned a) => f a s'
       | (s', Threw err) => (s', Threw err)
       end.

Definition get {S} : M S S := λ s, (s, Returned s).

Definition when {S} (b : bool) (m : M S unit) : M S unit :=
  if b then m else ret tt.

Notation "x ←' m ; k" := (bind m (λ x, k))
  (at level 100, m at next level, right associativity,
   format "'[v' x  ←'  m ; '/' k ']'").
Notation "m ;;' k" := (bind m (λ _, k))
  (at level 100, right associativity,
   format "'[v' m  ;;' '/' k ']'").

(** ** Strings as the store uses them *)

(** The code units [String.prototype.trim] strips and [\s] matches:
    TAB, LF, VT, FF, CR, SPACE and NBSP. *)
Definition isWhite (c : ascii) : bool :=
  let n := nat_of_ascii c in
  ((9 <=? n) && (n <=? 13) || (n =? 32) || (n =? 160))%nat.

Fixpoint trimStart (s : string) : string :=
  match s with
  | String c rest => if isWhite c then trimStart rest else s
  | EmptyString => EmptyString
  end.

Fixpoint trimEnd (s : string) : string :=
  match s with
  | String c rest =>
      match trimEnd rest with
      | EmptyString => if isWhite c then EmptyString else String c EmptyString
      | rest' => String c rest'
      end
  | EmptyString => EmptyString
  end.

(** [s.trim()] *)
Definition trim (s : string) : string := trimEnd (trimStart s).

Definition digitValue (c : ascii) : option Z :=
  let n := nat_of_ascii c in
  if ((48 <=? n) && (n <=? 57))%nat then Some (Z.of_nat n - 48) else None.

(** The longest prefix of decimal digits, as a number; [None] when the
    string does not start with a digit. *)
Fixpoint parseDigits (acc : option Z) (s : string) : option Z :=
  match s with
  | String c rest =>
      match digitValue c with
      | Some d => parseDigits (Some (10 * default 0 acc + d)) rest
      | None => acc
      end
  | EmptyString => acc
  end.

(** [parseInt(s, 10)]; [None] is NaN. The value is the integer the
    digits denote, which is what JS yields up to 2^53 in magnitude; it
    rounds beyond. Process ids are far below that, and the statements
    about the number of a lock file take it within that range. *)
Definition parseInt10 (s : string) : option Z :=
  match trimStart s with
  | String "-" rest => Z.opp <$> parseDigits None rest
  | String "+" rest => parseDigits None rest
  | s' => parseDigits None s'
  end.

(** [s.startsWith(p)] *)
Fixpoint startsWith (p s : string) : bool :=
  match p, s with
  | EmptyString, _ => true
  | String a p', String b s' => Ascii.eqb a b && startsWith p' s'
  | String _ _, EmptyString => false
  end.

(** [s.endsWith(p)] *)
Definition endsWith (p s : string) : bool :=
  startsWith (String.rev p) (String.rev s).

(** ** The swarm lock *)

Definition LOCK_STALE_MS : Z := 10000.
Definition maxRetries : nat := 50.
Definition retryDelay : Z := 100.

(** [swarm.lock] as [statSync] and [readFileSync] see it; a content of
    [None] means that reading it throws. *)
Record LockFile : Type := mkLock {
  lock_mtimeMs : Z;
  lock_content : option string
}.

(** What one iteration of the acquisition loop observes: the clock; the
    lock file left there by other processes ([None]: no such file);
    whether the [unlinkSync] of the inner [try] of the stale check
    returns, and whether the lock is gone after the [unlinkSync] of its
    [catch] block; the lock another process creates between the stale
    check and the open attempt, if one does; and whether [openSync] fails
    for a reason other than [EEXIST]. *)
Record LockObs : Type := mkObs {
  obs_now : Z;
  obs_lock : option LockFile;
  obs_unlinkOk : bool;
  obs_unlinkAgainOk : bool;
  obs_racer : option LockFile;
  obs_openError : option string
}.

Inductive LockEvent : Type :=
  | EvRemoveStale (ok : bool)
      (* unlinkSync of a stale lock; [ok]: the file is gone after it *)
  | EvOpen (ok : bool)     (* openSync with O_CREAT | O_EXCL *)
  | EvSleep (ms : Z)       (* setTimeout(resolve, retryDelay) *)
  | EvRelease.             (* unlinkSync in the finally block *)

Global Instance LockEvent_eq_dec : EqDecision LockEvent.
Proof. solve_decision. Defined.

(** The PID a lock file stores, if it stores a number. *)
Definition storedPid (l : LockFile) : option Z :=
  match lock_content l with
  | Some s => parseInt10 (trim s)
  | None => None
  end.

(** The stored number is one a JS number holds exactly, so that
    [parseInt] yields it unrounded. *)
Definition exactPid (l : LockFile) : Prop :=
  ∀ pid, storedPid l = Some pid → Z.abs pid ≤ 2 ^ 53.

(** The [unlinkSync] calls of the stale check on a lock it takes for
    stale, each with whether the file is gone after it: the one of the
    inner [try], reached when the content was read, and the one of its
    [catch], reached when the read or the first unlink throws. What the
    last one throws is ignored. *)
Definition unlinkAttempts (o : LockObs) (l : LockFile) : list bool :=
  match lock_content l with
  | Some _ => if obs_unlinkOk o then [true] else [false; obs_unlinkAgainOk o]
  | None => [obs_unlinkAgainOk o]
  end.

Section Lock.

Variable isProcessAlive : Z → bool.

(** The first [try] block of the loop body: does this iteration take
    the lock it found for stale, and try to unlink it? *)
Definition removesLock (now : Z) (l : LockFile) : bool :=
  if now - lock_mtimeMs l >? LOCK_STALE_MS then
    match lock_content l with
    | Some s =>
        match parseInt10 (trim s) with
        | Some pid => (pid =? 0) || negb (isProcessAlive pid)
        | None => true
        end
    | None => true
    end
  else false.

(** What the stale check of one iteration leaves of the lock it found:
    a stale lock is gone when one of the unlink calls went through, and
    stays otherwise. *)
Definition keptLock (o : LockObs) : option LockFile :=
  match obs_lock o with
  | Some l =>
      if removesLock (obs_now o) l && existsb id (unlinkAttempts o l)
      then None else Some l
  | None => None
  end.

(** The lock file the open attempt of the iteration meets: the one the
    stale check left, or else the one another process has created in
    between. *)
Definition afterStaleCheck (o : LockObs) : option LockFile :=
  match keptLock o with
  | Some l => Some l
  | None => obs_racer o
  end.

Definition staleEvents (o : LockObs) : list LockEvent :=
  match obs_lock o with
  | Some l =>
      if removesLock (obs_now o) l
      then EvRemoveStale <$> unlinkAttempts o l
      else []
  | None => []
  end.

(** The acquisition loop [for (let i = 0; i < maxRetries; i++)], run
    from iteration [i] with [remaining] iterations to go. *)
Fixpoint acquireLoop (obs : nat → LockObs) (i remaining : nat)
  : list LockEvent * Outcome unit :=
  match remaining with
  | O => ([], Returned tt)
  | S remaining' =>
      let o := obs i in
      match afterStaleCheck o with
      | Some _ =>
          if decide (i = maxRetries - 1)%nat
          then (staleEvents o ++ [EvOpen false],
                Threw "Failed to acquire swarm lock")
          else
            let r := acquireLoop obs (S i) remaining' in
            (staleEvents o ++ [EvOpen false; EvSleep retryDelay] ++ r.1, r.2)
      | None =>
          match obs_openError o with
          | Some err => (staleEvents o ++ [EvOpen false], Threw err)
          | None => (staleEvents o ++ [EvOpen true], Returned tt)
          end
      end
  end.

(** [withSwarmLock(baseDir, fn)], with [fn] a transformer of the state
    [S] it works on. *)
Definition withSwarmLock {S T : Type} (obs : nat → LockObs)
    (fn : S → S * Outcome T) (s : S) : S * Outcome T * list LockEvent :=
  let a := acquireLoop obs 0 maxRetries in
  match a.2 with
  | Returned _ => let r := fn s in (r.1, r.2, a.1 ++ [EvRelease])
  | Threw err => (s, Threw err, a.1)
  end.

End Lock.

(** The lock is free at the first attempt. *)
Definition lockFree : nat → LockObs :=
  λ _, mkObs 0 None true true None None.

(** ** Registry records *)

(** [session]: the cumulative counters of an agent. *)
Record Session : Type := mkSession {
  toolCalls : Z;
  tokens : Z;
  filesModified : list string
}.

(** [AgentRegistration], as the store writes and reads it. *)
Record AgentRegistration : Type := mkReg {
  reg_name : string;
  reg_pid : Z;
  reg_sessionId : string;
  reg_cwd : string;
  reg_model : string;
  reg_startedAt : string;
  reg_reservations : list (string * string);
  reg_gitBranch : option string;
  reg_spec : option string;
  reg_isHuman : bool;
  reg_session : Session;
  reg_lastActivityAt : string;
  reg_statusMessage : option string
}.

(** [registry/<name>.json]: a file that exists either parses to a
    registration or makes [JSON.parse] throw. *)
Inductive RegFile : Type :=
  | RegMalformed
  | RegOk (r : AgentRegistration).

Abbreviation Registry := (gmap string RegFile).

(** ** Swarm claims and completions *)

Record ClaimEntry : Type := mkClaim {
  c_agent : string;
  c_sessionId : string;
  c_pid : Z;
  c_claimedAt : string;
  c_reason : option string
}.

Record CompletionEntry : Type := mkCompletion {
  k_completedBy : string;
  k_completedAt : string;
  k_notes : option string
}.

Abbreviation SpecClaims := (gmap string ClaimEntry).
Abbreviation AllClaims := (gmap string (gmap string ClaimEntry)).
Abbreviation SpecCompletions := (gmap string CompletionEntry).
Abbreviation AllCompletions := (gmap string (gmap string CompletionEntry)).

Global Instance ClaimEntry_eq_dec : EqDecision ClaimEntry.
Proof. solve_decision. Defined.
Global Instance CompletionEntry_eq_dec : EqDecision CompletionEntry.
Proof. solve_decision. Defined.

(** The names under which a property read on a plain object finds a
    member of [Object.prototype] when the object has no own property of
    that name. *)
Definition objectPrototypeMembers : list string :=
  [ "__proto__"; "constructor"; "hasOwnProperty"; "isPrototypeOf";
    "propertyIsEnumerable"; "toLocaleString"; "toString"; "valueOf";
    "__defineGetter__"; "__defineSetter__"; "__lookupGetter__";
    "__lookupSetter__" ].

(** A key under which a read finds own properties only, and an
    assignment creates one. *)
Definition ordinaryKey (key : string) : bool :=
  bool_decide (key ∉ objectPrototypeMembers).

(** [obj[key] = value] on an object literal that is being filled: under
    the key ["__proto__"] the assignment sets the prototype of the
    object and adds no entry to it. *)
Definition assignKey {A} (key : string) (value : A) (obj : gmap string A)
  : gmap string A :=
  if decide (key = "__proto__") then obj else <[key := value]> obj.

(** What [Object.entries] and [JSON.stringify] see of a claims object
    has no ["__proto__"] key, at either level. *)
Definition plainKeys {A} (m : gmap string (gmap string A)) : Prop :=
  m !! "__proto__" = None
  ∧ map_Forall (λ _ (tasks : gmap string A), tasks !! "__proto__" = None) m.

Global Instance plainKeys_dec {A} (m : gmap string (gmap string A)) :
  Decision (plainKeys m).
Proof. unfold plainKeys. apply _. Defined.

(** [claims[specPath]?.[taskId]], for a spec path and a task id that are
    own keys or [ordinaryKey]s; under another name the read finds a
    member of [Object.prototype]. *)
Definition lookup2 {A} (m : gmap string (gmap string A)) (spec taskId : string)
  : option A :=
  match m !! spec with
  | Some tasks => tasks !! taskId
  | None => None
  end.

(** The two shared files, [claims.json] and [completions.json]. *)
Record Disk : Type := mkDisk {
  claimsFile : JsonFile AllClaims;
  completionsFile : JsonFile AllCompletions
}.

(** [readClaimsSync]: a missing or malformed file reads as [{}]. *)
Definition readClaimsSync (d : Disk) : AllClaims :=
  match claimsFile d with
  | Json c => c
  | _ => ∅
  end.

(** [readCompletionsSync] *)
Definition readCompletionsSync (d : Disk) : AllCompletions :=
  match completionsFile d with
  | Json c => c
  | _ => ∅
  end.

(** Which of the two temp-file-then-rename writes of an operation go
    through; a write that fails throws and leaves the target as it was. *)
Record IoFaults : Type := mkIo {
  claimsWriteOk : bool;
  completionsWriteOk : bool
}.

Definition noFaults : IoFaults := mkIo true true.

Section Swarm.

(** [isProcessAlive] of lib.js, and the registry directory as it stands
    while the operation runs. *)
Variable isProcessAlive : Z → bool.
Variable registry : Registry.

(** [isClaimStale(claim, dirs)] *)
Definition isClaimStale (claim : ClaimEntry) : bool :=
  if negb (isProcessAlive (c_pid claim)) then true
  else match registry !! c_agent claim with
       | None => true
       | Some RegMalformed => true
       | Some (RegOk reg) =>
           if negb (isProcessAlive (reg_pid reg)) then true
           else if negb (String.eqb (reg_sessionId reg) (c_sessionId claim))
                then true
                else false
       end.

(** The inner loop of [cleanupStaleClaims] over one spec bucket: the
    entries are enumerated from a snapshot while the bucket itself is
    updated in place. *)
Definition cleanupSpec (tasks : SpecClaims) : SpecClaims * nat :=
  map_fold
    (λ taskId claim (acc : SpecClaims * nat),
       if isClaimStale claim
       then (delete taskId acc.1, S acc.2)
       else acc)
    (tasks, 0%nat) tasks.

(** [cleanupStaleClaims(claims, dirs)]: the updated object and the
    number of entries removed. *)
Definition cleanupStaleClaims (claims : AllClaims) : AllClaims * nat :=
  map_fold
    (λ spec tasks (acc : AllClaims * nat),
       let r := cleanupSpec tasks in
       let claims1 := <[spec := r.1]> acc.1 in
       let claims2 :=
         if decide (size r.1 = 0%nat) then delete spec claims1 else claims1 in
       (claims2, (acc.2 + r.2)%nat))
    (claims, 0%nat) claims.

(** The inner loop of [filterStaleClaims], which fills a new object
    with [filteredTasks[taskId] = claim]. *)
Definition filterSpec (tasks : SpecClaims) : SpecClaims :=
  map_fold
    (λ taskId claim (acc : SpecClaims),
       if negb (isClaimStale claim) then assignKey taskId claim acc else acc)
    ∅ tasks.

(** [filterStaleClaims(claims, dirs)]: the entries of the object it
    returns, filled with [filtered[spec] = filteredTasks]. *)
Definition filterStaleClaims (claims : AllClaims) : AllClaims :=
  map_fold
    (λ spec tasks (acc : AllClaims),
       let filteredTasks := filterSpec tasks in
       if decide (0 < size filteredTasks)%nat
       then assignKey spec filteredTasks acc
       else acc)
    ∅ claims.

(** [findAgentClaim(claims, agent)]: the first entry of the agent in
    enumeration order. *)
Definition findInSpec (agent : string) (tasks : SpecClaims) : option string :=
  fst <$> (snd <$> list_find (λ kv : string * ClaimEntry,
                                c_agent kv.2 = agent) (map_to_list tasks)).

Fixpoint findInSpecs (agent : string) (l : list (string * SpecClaims))
  : option (string * string) :=
  match l with
  | [] => None
  | (spec, tasks) :: rest =>
      match findInSpec agent tasks with
      | Some taskId => Some (spec, taskId)
      | None => findInSpecs agent rest
      end
  end.

Definition findAgentClaim (claims : AllClaims) (agent : string)
  : option (string * string) :=
  findInSpecs agent (map_to_list claims).

End Swarm.

(** ** Swarm operations *)

Inductive ClaimResult : Type :=
  | ClaimSuccess (claimedAt : string)
  | ClaimAlreadyClaimed (conflict : ClaimEntry)
  | ClaimAlreadyHaveClaim (existing : string * string).

Inductive UnclaimResult : Type :=
  | UnclaimSuccess
  | UnclaimNotClaimed
  | UnclaimNotYourClaim (claimedBy : string).

Inductive CompleteResult : Type :=
  | CompleteSuccess (completedAt : string)
  | CompleteNotClaimed
  | CompleteNotYourClaim (claimedBy : string)
  | CompleteAlreadyCompleted (completion : CompletionEntry).

(** [isClaimSuccess] and its siblings *)
Definition isClaimSuccess (r : ClaimResult) : bool :=
  match r with ClaimSuccess _ => true | _ => false end.
Definition isClaimAlreadyClaimed (r : ClaimResult) : bool :=
  match r with ClaimAlreadyClaimed _ => true | _ => false end.
Definition isClaimAlreadyHaveClaim (r : ClaimResult) : bool :=
  match r with ClaimAlreadyHaveClaim _ => true | _ => false end.
Definition isCompleteSuccess (r : CompleteResult) : bool :=
  match r with CompleteSuccess _ => true | _ => false end.
Definition isCompleteAlreadyCompleted (r : CompleteResult) : bool :=
  match r with CompleteAlreadyCompleted _ => true | _ => false end.

(** [writeClaimsSync]: the rename either installs the whole new file or,
    on failure, throws with the old one in place. *)
Definition writeClaimsSync (io : IoFaults) (claims : AllClaims) : M Disk unit :=
  λ d, if claimsWriteOk io
       then (mkDisk (Json claims) (completionsFile d), Returned tt)
       else (d, Threw "writeClaimsSync failed").

(** [writeCompletionsSync] *)
Definition writeCompletionsSync (io : IoFaults) (completions : AllCompletions)
  : M Disk unit :=
  λ d, if completionsWriteOk io
       then (mkDisk (claimsFile d) (Json completions), Returned tt)
       else (d, Threw "writeCompletionsSync failed").

(** [if (!m[spec]) m[spec] = {}; m[spec][taskId] = v], for a spec path
    and a task id that are [ordinaryKey]s. *)
Definition setEntry {A} (m : gmap string (gmap string A))
    (spec taskId : string) (v : A) : gmap string (gmap string A) :=
  <[spec := <[taskId := v]> (default ∅ (m !! spec))]> m.

(** [delete m[spec][taskId]; if (Object.keys(m[spec]).length === 0)
    delete m[spec]] *)
Definition deleteEntry {A} (m : gmap string (gmap string A))
    (spec taskId : string) : gmap string (gmap string A) :=
  match m !! spec with
  | Some tasks =>
      let tasks' := delete taskId tasks in
      if decide (size tasks' = 0%nat) then delete spec m
      else <[spec := tasks']> m
  | None => m
  end.

Section SwarmOps.

Variable isProcessAlive : Z → bool.
Variable registry : Registry.

Let cleanup := cleanupStaleClaims isProcessAlive registry.

(** The function [claimTask] runs under the lock. *)
Definition claimTaskLocked (io : IoFaults) (now : string)
    (specPath taskId agent sessionId : string) (pid : Z)
    (reason : option string) : M Disk ClaimResult :=
  d ←' get;
  let cleaned := cleanup (readClaimsSync d) in
  let claims := cleaned.1 in
  let removed := cleaned.2 in
  match findAgentClaim claims agent with
  | Some existing =>
      when (0 <? removed)%nat (writeClaimsSync io claims) ;;'
      ret (ClaimAlreadyHaveClaim existing)
  | None =>
      match lookup2 claims specPath taskId with
      | Some existingClaim =>
          when (0 <? removed)%nat (writeClaimsSync io claims) ;;'
          ret (ClaimAlreadyClaimed existingClaim)
      | None =>
          let newClaim := mkClaim agent sessionId pid now reason in
          writeClaimsSync io (setEntry claims specPath taskId newClaim) ;;'
          ret (ClaimSuccess (c_claimedAt newClaim))
      end
  end.

(** [claimTask(dirs, specPath, taskId, agent, sessionId, pid, reason)] *)
Definition claimTask (obs : nat → LockObs) (io : IoFaults) (now : string)
    (specPath taskId agent sessionId : string) (pid : Z)
    (reason : option string) (d : Disk) : Disk * Outcome ClaimResult :=
  (withSwarmLock isProcessAlive obs
     (claimTaskLocked io now specPath taskId agent sessionId pid reason) d).1.

(** The function [unclaimTask] runs under the lock. *)
Definition unclaimTaskLocked (io : IoFaults)
    (specPath taskId agent : string) : M Disk UnclaimResult :=
  d ←' get;
  let cleaned := cleanup (readClaimsSync d) in
  let claims := cleaned.1 in
  let removed := cleaned.2 in
  match lookup2 claims specPath taskId with
  | None =>
      when (0 <? removed)%nat (writeClaimsSync io claims) ;;'
      ret UnclaimNotClaimed
  | Some claim =>
      if negb (String.eqb (c_agent claim) agent) then
        when (0 <? removed)%nat (writeClaimsSync io claims) ;;'
        ret (UnclaimNotYourClaim (c_agent claim))
      else
        writeClaimsSync io (deleteEntry claims specPath taskId) ;;'
        ret UnclaimSuccess
  end.

(** [unclaimTask(dirs, specPath, taskId, agent)] *)
Definition unclaimTask (obs : nat → LockObs) (io : IoFaults)
    (specPath taskId agent : string) (d : Disk)
  : Disk * Outcome UnclaimResult :=
  (withSwarmLock isProcessAlive obs
     (unclaimTaskLocked io specPath taskId agent) d).1.

(** The function [completeTask] runs under the lock. *)
Definition completeTaskLocked (io : IoFaults) (now : string)
    (specPath taskId agent : string) (notes : option string)
  : M Disk CompleteResult :=
  d ←' get;
  let cleaned := cleanup (readClaimsSync d) in
  let claims := cleaned.1 in
  let removed := cleaned.2 in
  let completions := readCompletionsSync d in
  match lookup2 completions specPath taskId with
  | Some existingCompletion =>
      when (0 <? removed)%nat (writeClaimsSync io claims) ;;'
      ret (CompleteAlreadyCompleted existingCompletion)
  | None =>
      match lookup2 claims specPath taskId with
      | None =>
          when (0 <? removed)%nat (writeClaimsSync io claims) ;;'
          ret CompleteNotClaimed
      | Some claim =>
          if negb (String.eqb (c_agent claim) agent) then
            when (0 <? removed)%nat (writeClaimsSync io claims) ;;'
            ret (CompleteNotYourClaim (c_agent claim))
          else
            let claims' := deleteEntry claims specPath taskId in
            let completion := mkCompletion agent now notes in
            let completions' :=
              setEntry completions specPath taskId completion in
            writeCompletionsSync io completions' ;;'
            writeClaimsSync io claims' ;;'
            ret (CompleteSuccess (k_completedAt completion))
      end
  end.

(** [completeTask(dirs, specPath, taskId, agent, notes)] *)
Definition completeTask (obs : nat → LockObs) (io : IoFaults) (now : string)
    (specPath taskId agent : string) (notes : option string) (d : Disk)
  : Disk * Outcome CompleteResult :=
  (withSwarmLock isProcessAlive obs
     (completeTaskLocked io now specPath taskId agent notes) d).1.

(** [getClaims(dirs)] *)
Definition getClaims (d : Disk) : AllClaims :=
  filterStaleClaims isProcessAlive registry (readClaimsSync d).

(** [getCompletions(dirs)] *)
Definition getCompletions (d : Disk) : AllCompletions :=
  readCompletionsSync d.

(** One call of the swarm interface, with the lock observations, the
    write faults and the clock it runs under. *)
Inductive SwarmOp : Type :=
  | OpClaim (specPath taskId agent sessionId : string) (pid : Z)
            (reason : option string)
  | OpUnclaim (specPath taskId agent : string)
  | OpComplete (specPath taskId agent : string) (notes : option string).

Record SwarmCall : Type := mkCall {
  call_op : SwarmOp;
  call_lock : nat → LockObs;
  call_io : IoFaults;
  call_now : string
}.

(** The disk after one call, whatever it returned or threw. *)
Definition runCall (c : SwarmCall) (d : Disk) : Disk :=
  match call_op c with
  | OpClaim s t a sid pid reason =>
      (claimTask (call_lock c) (call_io c) (call_now c) s t a sid pid reason d).1
  | OpUnclaim s t a =>
      (unclaimTask (call_lock c) (call_io c) s t a d).1
  | OpComplete s t a notes =>
      (completeTask (call_lock c) (call_io c) (call_now c) s t a notes d).1
  end.

(** The disk after a sequence of calls. *)
Definition runCalls (cs : list SwarmCall) (d : Disk) : Disk :=
  foldl (λ d c, runCall c d) d cs.

End SwarmOps.

(** ** Inboxes, the registry and the in-memory state *)

Record AgentMailMessage : Type := mkMsg {
  msg_id : string;
  msg_from : string;
  msg_to : string;
  msg_text : string;
  msg_timestamp : string;
  msg_replyTo : option string
}.

(** A file of [inbox/<name>/]: one that cannot be read, one whose content
    is not JSON, or a message. *)
Inductive InboxFile : Type :=
  | FileUnreadable
  | FileMalformed
  | FileMessage (m : AgentMailMessage).

Abbreviation InboxDir := (gmap string InboxFile).

(** The directories [dirs.registry] and [dirs.inbox]; registry files are
    keyed by agent name, [registry/<name>.json]. *)
Record FS : Type := mkFS {
  fs_registry : Registry;
  fs_inbox : gmap string (gmap string InboxFile)
}.

(** The fields of [MessengerState] the store touches. *)
Record MessengerState : Type := mkState {
  agentName : string;
  registered : bool;
  reservations : list (string * string);
  spec : option string;
  isHuman : bool;
  session : Session;
  lastActivityAt : string;
  statusMessage : option string;
  model : string;
  gitBranch : option string;
  sessionStartedAt : string
}.

(** The delivery callback: [true] when it returns, [false] when it
    throws. What it does with the message is outside the store. *)
Definition DeliverFn : Type := AgentMailMessage → bool.

(** The module-level variables of store.ts. [pendingProcessArgs] keeps
    the callback of the pending call; its [state] and [dirs] are the
    process's own objects, shared by reference. *)
Record ModuleState : Type := mkModule {
  isProcessingMessages : bool;
  pendingProcessArgs : option DeliverFn;
  agentsCacheValid : bool
}.

(** [process.pid], [process.cwd()], the session id, [ctx.model?.id],
    [getGitBranch(process.cwd())] and [new Date().toISOString()]. *)
Record Ctx : Type := mkCtx {
  ctx_pid : Z;
  ctx_cwd : string;
  ctx_sessionId : string;
  ctx_modelId : option string;
  ctx_gitBranch : option string;
  ctx_now : string
}.

Inductive StoreEvent : Type :=
  | EvRead (inbox file : string)
  | EvDeliver (file : string) (m : AgentMailMessage) (returned : bool)
  | EvUnlink (inbox file : string) (ok : bool)
  | EvRegWrite (name : string) (ok : bool)
  | EvRegUnlink (name : string)
  | EvInboxCreate (name : string)
  | EvInboxRemove (name : string) (ok : bool).

(** ** Processing the inbox *)

(** [fs.readdirSync(inbox).filter(f => f.endsWith(".json")).sort()] *)
Definition listJson (dir : InboxDir) : list string :=
  merge_sort String.le
    (filter (λ f, endsWith ".json" f = true) (map_to_list dir).*1).

(** [fs.unlinkSync(join(inbox, file))], errors ignored; [unlinkOk] tells
    for which files the unlink goes through. *)
Definition unlinkIn (unlinkOk : string → bool) (file : string)
    (dir : InboxDir) : InboxDir :=
  if unlinkOk file then delete file dir else dir.

(** The body of the loop over the listed files, for one file. *)
Definition processFile (unlinkOk : string → bool) (deliverFn : DeliverFn)
    (inbox file : string) (dir : InboxDir) : InboxDir * list StoreEvent :=
  let ok := unlinkOk file in
  match dir !! file with
  | Some (FileMessage m) =>
      if deliverFn m then
        (* delivered: unlink; if that throws, the catch block tries again *)
        (unlinkIn unlinkOk file dir,
         [EvRead inbox file; EvDeliver file m true; EvUnlink inbox file ok]
         ++ (if ok then [] else [EvUnlink inbox file ok]))
      else
        (unlinkIn unlinkOk file dir,
         [EvRead inbox file; EvDeliver file m false; EvUnlink inbox file ok])
  | _ =>
      (* readFileSync or JSON.parse threw *)
      (unlinkIn unlinkOk file dir, [EvRead inbox file; EvUnlink inbox file ok])
  end.

Fixpoint processFiles (unlinkOk : string → bool) (deliverFn : DeliverFn)
    (inbox : string) (files : list string) (dir : InboxDir)
  : InboxDir * list StoreEvent :=
  match files with
  | [] => (dir, [])
  | file :: rest =>
      let r1 := processFile unlinkOk deliverFn inbox file dir in
      let r2 := processFiles unlinkOk deliverFn inbox rest r1.1 in
      (r2.1, r1.2 ++ r2.2)
  end.

(** The [try] block of [processAllPendingMessages]: one pass over the
    inbox of the state's agent. *)
Definition processingPass (unlinkOk : string → bool) (deliverFn : DeliverFn)
    (st : MessengerState) (fs : FS) : FS * list StoreEvent :=
  match fs_inbox fs !! agentName st with
  | None => (fs, [])
  | Some dir =>
      let r := processFiles unlinkOk deliverFn (agentName st)
                 (listJson dir) dir in
      (mkFS (fs_registry fs) (<[agentName st := r.1]> (fs_inbox fs)), r.2)
  end.

(** [processAllPendingMessages(state, dirs, deliverFn)]. The callback does
    not call back into the store, so nothing sets [pendingProcessArgs]
    while a pass runs and the re-run in the [finally] block runs once. *)
Definition processAllPendingMessages (unlinkOk : string → bool)
    (deliverFn : DeliverFn) (st : MessengerState)
    (md : ModuleState) (fs : FS) : ModuleState * FS * list StoreEvent :=
  if negb (registered st) then (md, fs, [])
  else if isProcessingMessages md then
    (mkModule true (Some deliverFn) (agentsCacheValid md), fs, [])
  else
    let r1 := processingPass unlinkOk deliverFn st fs in
    let idle := mkModule false None (agentsCacheValid md) in
    match pendingProcessArgs md with
    | Some deliverFn' =>
        let r2 := processingPass unlinkOk deliverFn' st r1.1 in
        (idle, r2.1, r1.2 ++ r2.2)
    | None => (idle, r1.1, r1.2)
    end.

(** ** Sending *)


Inductive TargetValidation : Type :=
  | TargetValid
  | TargetInvalidName
  | TargetNotFound
  | TargetNotActive
  | TargetInvalidRegistration.

Section Registry.

(** [isProcessAlive] and [isValidAgentName] of lib.js. *)
Variable isProcessAlive : Z → bool.
Variable isValidAgentName : string → bool.

(** [validateTargetAgent(to, dirs)] *)
Definition validateTargetAgent (to : string) (fs : FS)
  : FS * TargetValidation :=
  if negb (isValidAgentName to) then (fs, TargetInvalidName)
  else match fs_registry fs !! to with
       | None => (fs, TargetNotFound)
       | Some RegMalformed => (fs, TargetInvalidRegistration)
       | Some (RegOk reg) =>
           if negb (isProcessAlive (reg_pid reg))
           then (mkFS (delete to (fs_registry fs)) (fs_inbox fs),
                 TargetNotActive)
           else (fs, TargetValid)
       end.

(** The loop [for (let i = 2; i <= 99; i++)] of [findAvailableName], from
    [i] with [remaining] iterations to go. *)
Fixpoint probeAlternatives (registry : Registry) (baseName : string)
    (i remaining : nat) : option string :=
  match remaining with
  | O => None
  | S remaining' =>
      let altName := baseName +:+ pretty i in
      match registry !! altName with
      | None => Some altName
      | Some RegMalformed => Some altName
      | Some (RegOk altReg) =>
          if negb (isProcessAlive (reg_pid altReg)) then Some altName
          else probeAlternatives registry baseName (S i) remaining'
      end
  end.

(** [findAvailableName(baseName, dirs)], run by process [ownPid]. *)
Definition findAvailableName (ownPid : Z) (baseName : string)
    (registry : Registry) : option string :=
  match registry !! baseName with
  | None => Some baseName
  | Some RegMalformed => Some baseName
  | Some (RegOk existing) =>
      if negb (isProcessAlive (reg_pid existing))
         || (reg_pid existing =? ownPid)
      then Some baseName
      else probeAlternatives registry baseName 2 98
  end.

End Registry.

(** ** Renaming *)

Inductive RenameError : Type :=
  | RenameNotRegistered
  | RenameInvalidName
  | RenameNameTaken
  | RenameSameName
  | RenameRaceLost.

Inductive RenameResult : Type :=
  | RenameSuccess (oldName newName : string)
  | RenameFailure (error : RenameError).

(** What the file system and the other processes do during a rename:
    whether the write of the new record goes through, what peers do to
    the registry between that write and the read-back, and between the
    read-back and the clean-up read, whether the unlink of the clean-up
    and the unlink of the old record go through, which inbox files can
    be unlinked, whether the new inbox can be listed, and whether the
    [rmdirSync] of an empty old inbox goes through. The code ignores
    each of these unlink, listing and rmdir failures. *)
Record RenameEnv : Type := mkRenameEnv {
  regWriteOk : bool;
  peersBeforeVerify : Registry → Registry;
  peersBeforeCleanup : Registry → Registry;
  cleanupUnlinkOk : bool;
  oldRegUnlinkOk : bool;
  unlinkOk : string → bool;
  readdirOk : bool;
  rmdirOk : bool
}.

(** Nothing fails and no peer interferes. *)
Definition quietEnv : RenameEnv :=
  mkRenameEnv true (λ r, r) (λ r, r) true true (λ _, true) true true.

(** The process: module variables, in-memory state, and the directories. *)
Record World : Type := mkWorld {
  w_module : ModuleState;
  w_state : MessengerState;
  w_fs : FS
}.

(** The stale files [renameAgent] deletes from an existing new inbox, in
    directory order. *)
Definition staleFiles (dir : InboxDir) : list string :=
  filter (λ f, endsWith ".json" f = true) (map_to_list dir).*1.

Definition removeStaleFiles (unlinkOk : string → bool) (dir : InboxDir)
  : InboxDir :=
  foldr (unlinkIn unlinkOk) dir (staleFiles dir).

(** [fs.rmdirSync(dir)], errors ignored: only an existing empty directory
    goes away, and only when the call goes through ([ok]). *)
Definition rmdirSync (ok : bool) (name : string)
    (inboxes : gmap string InboxDir) : gmap string InboxDir * bool :=
  match inboxes !! name with
  | Some dir => if decide (dir = ∅) then
                  if ok then (delete name inboxes, true) else (inboxes, false)
                else (inboxes, false)
  | None => (inboxes, false)
  end.

Section Rename.

Variable isProcessAlive : Z → bool.
Variable isValidAgentName : string → bool.

(** The record at the new name belongs to a live process other than the
    caller. *)
Definition liveCollision (ctx : Ctx) (registry : Registry) (newName : string)
  : bool :=
  match registry !! newName with
  | Some (RegOk existing) =>
      isProcessAlive (reg_pid existing) && negb (reg_pid existing =? ctx_pid ctx)
  | _ => false
  end.

(** The registration [renameAgent] writes. *)
Definition renamedRegistration (ctx : Ctx) (st : MessengerState)
    (newName : string) : AgentRegistration :=
  mkReg newName (ctx_pid ctx) (ctx_sessionId ctx) (ctx_cwd ctx)
        (default "unknown" (ctx_modelId ctx)) (ctx_now ctx)
        (reservations st) (ctx_gitBranch ctx) (spec st) (isHuman st)
        (session st) (ctx_now ctx) (statusMessage st).

(** The read-back of the new record: [verified], [verifyError]. *)
Definition readBack (ctx : Ctx) (registry : Registry) (newName : string)
  : bool * bool :=
  match registry !! newName with
  | Some (RegOk written) => (reg_pid written =? ctx_pid ctx, false)
  | _ => (false, true)
  end.

(** The clean-up after a read-back that threw: unlink the record if it
    still carries the caller's PID; [ok] tells whether that unlink goes
    through. *)
Definition cleanupOwnRecord (ok : bool) (ctx : Ctx) (registry : Registry)
    (newName : string) : Registry * list StoreEvent :=
  match registry !! newName with
  | Some (RegOk checkReg) =>
      if reg_pid checkReg =? ctx_pid ctx
      then (if ok then delete newName registry else registry,
            [EvRegUnlink newName])
      else (registry, [])
  | _ => (registry, [])
  end.

(** The inbox migration of a successful rename: the .json files of an
    existing new inbox are unlinked (none when the listing throws), the
    new inbox is created if absent, and the old one is removed if
    empty. *)
Definition migrateInbox (env : RenameEnv) (oldName newName : string)
    (inboxes : gmap string InboxDir)
  : gmap string InboxDir * list StoreEvent :=
  let cleared :=
    match inboxes !! newName with
    | Some dir =>
        if readdirOk env then
          (<[newName := removeStaleFiles (unlinkOk env) dir]> inboxes,
           (λ f, EvUnlink newName f (unlinkOk env f)) <$> staleFiles dir)
        else (inboxes, [])
    | None => (<[newName := ∅]> inboxes, [EvInboxCreate newName])
    end in
  let removed := rmdirSync (rmdirOk env) oldName cleared.1 in
  (removed.1, cleared.2 ++ [EvInboxRemove oldName removed.2]).

(** [renameAgent(state, dirs, ctx, newName, deliverFn)] *)
Definition renameAgent (env : RenameEnv) (ctx : Ctx) (newName : string)
    (deliverFn : DeliverFn) (w : World)
  : World * RenameResult * list StoreEvent :=
  let st := w_state w in
  if negb (registered st) then (w, RenameFailure RenameNotRegistered, [])
  else if negb (isValidAgentName newName)
  then (w, RenameFailure RenameInvalidName, [])
  else if String.eqb newName (agentName st)
  then (w, RenameFailure RenameSameName, [])
  else if liveCollision ctx (fs_registry (w_fs w)) newName
  then (w, RenameFailure RenameNameTaken, [])
  else
    let oldName := agentName st in
    let drained := processAllPendingMessages (unlinkOk env) deliverFn st
                     (w_module w) (w_fs w) in
    let md := drained.1.1 in
    let fs := drained.1.2 in
    let registration := renamedRegistration ctx st newName in
    if negb (regWriteOk env) then
      (mkWorld md st fs, RenameFailure RenameInvalidName,
       drained.2 ++ [EvRegWrite newName false])
    else
      let written :=
        peersBeforeVerify env (<[newName := RegOk registration]> (fs_registry fs)) in
      let check := readBack ctx written newName in
      if negb check.1 then
        let cleaned :=
          if check.2
          then cleanupOwnRecord (cleanupUnlinkOk env) ctx
                 (peersBeforeCleanup env written) newName
          else (written, []) in
        (mkWorld md st (mkFS cleaned.1 (fs_inbox fs)),
         RenameFailure RenameRaceLost,
         drained.2 ++ [EvRegWrite newName true] ++ cleaned.2)
      else
        let registry' :=
          if oldRegUnlinkOk env then delete oldName written else written in
        let moved := migrateInbox env oldName newName (fs_inbox fs) in
        let st' :=
          mkState newName (registered st) (reservations st) (spec st)
                  (isHuman st) (session st) (ctx_now ctx) (statusMessage st)
                  (default "unknown" (ctx_modelId ctx)) (ctx_gitBranch ctx)
                  (ctx_now ctx) in
        (mkWorld (mkModule (isProcessingMessages md) (pendingProcessArgs md)
                           false)
                 st' (mkFS registry' moved.1),
         RenameSuccess oldName newName,
         drained.2 ++ [EvRegWrite newName true; EvRegUnlink oldName] ++ moved.2)
  .

End Rename.

(** ** Review verdicts (crew/utils/verdict.ts) *)

Inductive Verdict : Type := SHIP | NEEDS_WORK | MAJOR_RETHINK.

Record ParsedReview : Type := mkReview {
  verdict : Verdict;
  summary : string;
  issues : list string;
  suggestions : list string
}.

(** *** The regular expressions, as matchers

    A matcher takes the input from the position where the match is to
    start and returns what it captured. All four expressions carry the
    [i] flag; their letters are ASCII, so a code unit matches a pattern
    letter exactly when the two agree up to ASCII case. *)

Definition toLowerAscii (c : ascii) : ascii :=
  let n := nat_of_ascii c in
  if ((65 <=? n) && (n <=? 90))%nat then ascii_of_nat (n + 32) else c.

Definition eqCharCI (a b : ascii) : bool :=
  Ascii.eqb (toLowerAscii a) (toLowerAscii b).

(** Match the literal [lit] at the start of [s], ignoring ASCII case;
    the result is the input after it. *)
Fixpoint matchCI (lit s : string) : option string :=
  match lit, s with
  | EmptyString, _ => Some s
  | String a lit', String b s' =>
      if eqCharCI a b then matchCI lit' s' else None
  | String _ _, EmptyString => None
  end.

(** [String.prototype.match] without the [g] flag: the match at the
    leftmost position where the expression matches. *)
Fixpoint search {A} (matchAt : string → option A) (s : string) : option A :=
  match matchAt s with
  | Some a => Some a
  | None =>
      match s with
      | String _ rest => search matchAt rest
      | EmptyString => None
      end
  end.

(** [(SHIP|NEEDS_WORK|MAJOR_RETHINK)], upper-cased. *)
Definition matchKeyword (s : string) : option Verdict :=
  match matchCI "SHIP" s with
  | Some _ => Some SHIP
  | None =>
      match matchCI "NEEDS_WORK" s with
      | Some _ => Some NEEDS_WORK
      | None =>
          match matchCI "MAJOR_RETHINK" s with
          | Some _ => Some MAJOR_RETHINK
          | None => None
          end
      end
  end.

(** [/##\s*Verdict:\s*(SHIP|NEEDS_WORK|MAJOR_RETHINK)/i] at a position.
    A greedy [\s*] before a letter takes the whole run of white space. *)
Definition matchVerdictAt (s : string) : option Verdict :=
  match matchCI "##" s with
  | Some s1 =>
      match matchCI "Verdict:" (trimStart s1) with
      | Some s2 => matchKeyword (trimStart s2)
      | None => None
      end
  | None => None
  end.

(** [.*?\n]: up to the first line feed, over code units that are not
    line terminators. *)
Fixpoint restOfLine (s : string) : option string :=
  match s with
  | String c rest =>
      if Ascii.eqb c "010" then Some rest
      else if Ascii.eqb c "013" then None
      else restOfLine rest
  | EmptyString => None
  end.

(** [([\s\S]*?)(?=\n##|$)]: the shortest text after which a line starting
    with [##] begins or the input ends. *)
Fixpoint upToHeading (s : string) : string :=
  match s with
  | String c rest =>
      if startsWith (String "010" "##") s then EmptyString
      else String c (upToHeading rest)
  | EmptyString => EmptyString
  end.

(** [/##\s*Verdict:.*?\n([\s\S]*?)(?=\n##|$)/i] at a position. *)
Definition matchSummaryAt (s : string) : option string :=
  match matchCI "##" s with
  | Some s1 =>
      match matchCI "Verdict:" (trimStart s1) with
      | Some s2 =>
          match restOfLine s2 with
          | Some s3 => Some (upToHeading s3)
          | None => None
          end
      | None => None
      end
  | None => None
  end.

(** [\s*\n]: the greedy run of white space gives back code units until a
    line feed ends it, so the match ends after the last line feed of the
    run. *)
Fixpoint whiteThenNewline (s : string) : option string :=
  match s with
  | String c rest =>
      if isWhite c then
        match whiteThenNewline rest with
        | Some r => Some r
        | None => if Ascii.eqb c "010" then Some rest else None
        end
      else None
  | EmptyString => None
  end.

(** [/##\s*<word>s?\s*\n([\s\S]*?)(?=\n##|$)/i] at a position, for the
    words [Issue] and [Suggestion]: the optional [s] is tried first. *)
Definition matchSectionAt (word : string) (s : string) : option string :=
  match matchCI "##" s with
  | Some s1 =>
      match matchCI word (trimStart s1) with
      | Some s2 =>
          let withS :=
            match matchCI "s" s2 with
            | Some s3 => whiteThenNewline s3
            | None => None
            end in
          match withS with
          | Some s4 => Some (upToHeading s4)
          | None =>
              match whiteThenNewline s2 with
              | Some s4 => Some (upToHeading s4)
              | None => None
              end
          end
      | None => None
      end
  | None => None
  end.

(** *** The bullet lists *)

(** [s.split("\n")] *)
Fixpoint splitLines (s : string) : list string :=
  match s with
  | String c rest =>
      if Ascii.eqb c "010" then EmptyString :: splitLines rest
      else match splitLines rest with
           | line :: lines => String c line :: lines
           | [] => [String c EmptyString]
           end
  | EmptyString => [EmptyString]
  end.

(** [line.replace(/^[\s\-*]+/, "")] *)
Fixpoint stripBullet (s : string) : string :=
  match s with
  | String c rest =>
      if isWhite c || Ascii.eqb c "-" || Ascii.eqb c "*"
      then stripBullet rest else s
  | EmptyString => EmptyString
  end.

Definition isBullet (line : string) : bool :=
  startsWith "-" (trim line) || startsWith "*" (trim line).

Definition nonEmpty (s : string) : bool :=
  match s with EmptyString => false | _ => true end.

(** [.split("\n").filter(...).map(...).filter(Boolean)] *)
Definition bulletItems (section : string) : list string :=
  List.filter nonEmpty
    (List.map (λ line, trim (stripBullet line))
       (List.filter isBullet (splitLines section))).

(** [parseVerdict(output)] *)
Definition parseVerdict (output : string) : ParsedReview :=
  mkReview
    (match search matchVerdictAt output with
     | Some v => v
     | None => NEEDS_WORK
     end)
    (match search matchSummaryAt output with
     | Some text => trim text
     | None => ""
     end)
    (match search (matchSectionAt "Issue") output with
     | Some section => bulletItems section
     | None => []
     end)
    (match search (matchSectionAt "Suggestion") output with
     | Some section => bulletItems section
     | None => []
     end).

Definition lf : string := String "010" EmptyString.

(** ** Reading the swarm state *)

(** The loops of [getAgentCurrentClaim]: the first entry of the agent in
    enumeration order, with its reason. *)
Definition findEntryInSpec (agent : string) (tasks : SpecClaims)
  : option (string * ClaimEntry) :=
  snd <$> list_find (λ kv : string * ClaimEntry, c_agent kv.2 = agent)
            (map_to_list tasks).

Fixpoint findEntryInSpecs (agent : string) (l : list (string * SpecClaims))
  : option (string * string * option string) :=
  match l with
  | [] => None
  | (spec, tasks) :: rest =>
      match findEntryInSpec agent tasks with
      | Some (taskId, claim) => Some (spec, taskId, c_reason claim)
      | None => findEntryInSpecs agent rest
      end
  end.

(** What [obj[specPath] ?? {}] yields on an object whose prototype is
    [Object.prototype]: the own bucket; without one, under the name of a
    member of [Object.prototype], that member, which is no bucket; and an
    empty object otherwise. *)
Inductive SpecView (A : Type) : Type :=
  | ViewBucket (tasks : gmap string A)
  | ViewMember (name : string).
Arguments ViewBucket {A} tasks.
Arguments ViewMember {A} name.

Definition viewOf {A} (obj : gmap string (gmap string A)) (specPath : string)
  : SpecView A :=
  match obj !! specPath with
  | Some tasks => ViewBucket tasks
  | None => if ordinaryKey specPath then ViewBucket ∅
            else ViewMember specPath
  end.

Section SwarmReaders.

Variable isProcessAlive : Z → bool.
Variable registry : Registry.

(** [getClaimsForSpec(dirs, specPath)], on a claims.json without
    ["__proto__"] keys; with one, [filterStaleClaims] sets the prototype
    of the object this reads from. *)
Definition getClaimsForSpec (d : Disk) (specPath : string)
  : SpecView ClaimEntry :=
  viewOf (getClaims isProcessAlive registry d) specPath.

(** [getCompletionsForSpec(dirs, specPath)] *)
Definition getCompletionsForSpec (d : Disk) (specPath : string)
  : SpecView CompletionEntry :=
  viewOf (getCompletions d) specPath.

(** [getAgentCurrentClaim(dirs, agent)] *)
Definition getAgentCurrentClaim (d : Disk) (agent : string)
  : option (string * string * option string) :=
  findEntryInSpecs agent (map_to_list (getClaims isProcessAlive registry d)).

End SwarmReaders.

(** ** Target validation, with the unlink that can fail *)

Section ValidateIo.

Variable isProcessAlive : Z → bool.
Variable isValidAgentName : string → bool.

(** [validateTargetAgent(to, dirs)] with the outcome of its
    [fs.unlinkSync(targetReg)] as an input: when the unlink throws, the
    error is ignored and the record of the dead process stays. *)
Definition validateTargetAgentIo (regUnlinkOk : bool) (to : string) (fs : FS)
  : FS * TargetValidation :=
  if negb (isValidAgentName to) then (fs, TargetInvalidName)
  else match fs_registry fs !! to with
       | None => (fs, TargetNotFound)
       | Some RegMalformed => (fs, TargetInvalidRegistration)
       | Some (RegOk reg) =>
           if negb (isProcessAlive (reg_pid reg))
           then ((if regUnlinkOk
                  then mkFS (delete to (fs_registry fs)) (fs_inbox fs)
                  else fs),
                 TargetNotActive)
           else (fs, TargetValid)
       end.

End ValidateIo.

(** ** Registering and unregistering *)

(** The double quote of the notification texts. *)
Definition dquote : string := String (ascii_of_nat 34) EmptyString.

Definition quoted (s : string) : string := dquote +:+ s +:+ dquote.

(** What one pass of the [register] loop meets: the clock and the git
    branch it reads, whether the unlink of an existing record and the
    write of the new one go through (the error message otherwise), what
    peers do to the registry while the branch is looked up, between the
    write and the read-back, and between the read-back and the clean-up
    read, and whether the clean-up unlink goes through. *)
Record RegisterAttempt : Type := mkAttempt {
  att_now : string;
  att_gitBranch : option string;
  att_regUnlinkOk : bool;
  att_peersBeforeWrite : Registry → Registry;
  att_writeError : option string;
  att_peersBeforeVerify : Registry → Registry;
  att_peersBeforeCleanup : Registry → Registry;
  att_cleanupUnlinkOk : bool
}.

(** The inputs of a [register] call: [!!process.env.PI_AGENT_NAME],
    [ctx.hasUI], the name [generateMemorableName(nameTheme)] returns, and
    the passes. *)
Record RegisterEnv : Type := mkRegisterEnv {
  explicitName : bool;
  hasUI : bool;
  generatedName : string;
  attempt : nat → RegisterAttempt
}.

(** [ctx.ui.notify(msg, "error")], guarded by [ctx.hasUI]. *)
Definition notify (env : RegisterEnv) (msg : string) : list string :=
  if hasUI env then [msg] else [].

(** [state.agentName = name] *)
Definition withAgentName (st : MessengerState) (name : string)
  : MessengerState :=
  mkState name (registered st) (reservations st) (spec st) (isHuman st)
          (session st) (lastActivityAt st) (statusMessage st) (model st)
          (gitBranch st) (sessionStartedAt st).

(** [state.registered = b] *)
Definition withRegistered (st : MessengerState) (b : bool) : MessengerState :=
  mkState (agentName st) b (reservations st) (spec st) (isHuman st)
          (session st) (lastActivityAt st) (statusMessage st) (model st)
          (gitBranch st) (sessionStartedAt st).

(** [state.model = m] *)
Definition withModel (st : MessengerState) (m : string) : MessengerState :=
  mkState (agentName st) (registered st) (reservations st) (spec st)
          (isHuman st) (session st) (lastActivityAt st) (statusMessage st) m
          (gitBranch st) (sessionStartedAt st).

(** [invalidateAgentsCache()] *)
Definition invalidateAgentsCache (md : ModuleState) : ModuleState :=
  mkModule (isProcessingMessages md) (pendingProcessArgs md) false.

(** [ensureDirSync(join(dirs.inbox, name))] *)
Definition ensureInbox (name : string) (inboxes : gmap string InboxDir)
  : gmap string InboxDir :=
  match inboxes !! name with
  | Some _ => inboxes
  | None => <[name := ∅]> inboxes
  end.

Inductive NameChoice : Type :=
  | NameRefused (msg : string)
  | NameChosen (name : string).

Section Register.

Variable isProcessAlive : Z → bool.
Variable isValidAgentName : string → bool.

(** The first part of the loop body: validate the explicit name, or look
    for an available one. *)
Definition chooseName (explicit : bool) (ctx : Ctx) (registry : Registry)
    (name : string) : NameChoice :=
  if explicit then
    if negb (isValidAgentName name) then
      NameRefused ("Invalid agent name " +:+ quoted name
                   +:+ " - use only letters, numbers, underscore, hyphen")
    else
      match registry !! name with
      | Some (RegOk existing) =>
          if isProcessAlive (reg_pid existing)
             && negb (reg_pid existing =? ctx_pid ctx)
          then NameRefused ("Agent name " +:+ quoted name
                            +:+ " already in use (PID "
                            +:+ pretty (reg_pid existing) +:+ ")")
          else NameChosen name
      | _ => NameChosen name
      end
  else
    match findAvailableName isProcessAlive (ctx_pid ctx) name registry with
    | None =>
        NameRefused "Could not find available agent name after 99 attempts"
    | Some availableName => NameChosen availableName
    end.

(** The registration [register] writes. *)
Definition registrationOf (ctx : Ctx) (att : RegisterAttempt)
    (st : MessengerState) : AgentRegistration :=
  mkReg (agentName st) (ctx_pid ctx) (ctx_sessionId ctx) (ctx_cwd ctx)
        (default "unknown" (ctx_modelId ctx)) (att_now att) []
        (att_gitBranch att) (spec st) (isHuman st) (session st)
        (att_now att) None.

(** The clean-up after a read-back that threw, with an unlink that can
    fail. *)
Definition cleanupOwnRecordIo (unlinkOk : bool) (ctx : Ctx)
    (registry : Registry) (name : string) : Registry :=
  match registry !! name with
  | Some (RegOk checkReg) =>
      if (reg_pid checkReg =? ctx_pid ctx) && unlinkOk
      then delete name registry
      else registry
  | _ => registry
  end.

(** The state of a verified registration. *)
Definition registeredState (ctx : Ctx) (att : RegisterAttempt)
    (st : MessengerState) : MessengerState :=
  mkState (agentName st) true (reservations st) (spec st) (isHuman st)
          (session st) (att_now att) (statusMessage st)
          (default "unknown" (ctx_modelId ctx)) (att_gitBranch att)
          (sessionStartedAt st).

(** The loop [for (let attempt = 0; attempt < maxAttempts; attempt++)] of
    [register], from pass [i] with [remaining] passes to go: the process
    afterwards, the value returned, and the notifications shown. *)
Fixpoint registerLoop (env : RegisterEnv) (ctx : Ctx) (i remaining : nat)
    (w : World) : World * bool * list string :=
  match remaining with
  | O =>
      (w, false,
       notify env
         "Failed to register after multiple attempts due to name conflicts")
  | S remaining' =>
      let att := attempt env i in
      let md := w_module w in
      let fs := w_fs w in
      match chooseName (explicitName env) ctx (fs_registry fs)
              (agentName (w_state w)) with
      | NameRefused msg => (w, false, notify env msg)
      | NameChosen name =>
          let st := withAgentName (w_state w) name in
          let unlinked :=
            if att_regUnlinkOk att then delete name (fs_registry fs)
            else fs_registry fs in
          let inboxes := ensureInbox name (fs_inbox fs) in
          let beforeWrite := att_peersBeforeWrite att unlinked in
          match att_writeError att with
          | Some msg =>
              (mkWorld md st (mkFS beforeWrite inboxes), false,
               notify env ("Failed to register: " +:+ msg))
          | None =>
              let written :=
                att_peersBeforeVerify att
                  (<[name := RegOk (registrationOf ctx att st)]> beforeWrite) in
              let check := readBack ctx written name in
              if check.1 then
                (mkWorld (invalidateAgentsCache md)
                         (registeredState ctx att st)
                         (mkFS written inboxes),
                 true, [])
              else
                let cleaned :=
                  if check.2
                  then cleanupOwnRecordIo (att_cleanupUnlinkOk att) ctx
                         (att_peersBeforeCleanup att written) name
                  else written in
                if explicitName env then
                  (mkWorld md st (mkFS cleaned inboxes), false,
                   notify env ("Agent name " +:+ quoted name
                               +:+ " was claimed by another agent"))
                else
                  registerLoop env ctx (S i) remaining'
                    (mkWorld (invalidateAgentsCache md) st
                             (mkFS cleaned inboxes))
          end
      end
  end.

(** [register(state, dirs, ctx, nameTheme)] *)
Definition register (env : RegisterEnv) (ctx : Ctx) (w : World)
  : World * bool * list string :=
  if registered (w_state w) then (w, true, [])
  else
    let st :=
      if String.eqb (agentName (w_state w)) EmptyString
      then withAgentName (w_state w) (generatedName env)
      else w_state w in
    registerLoop env ctx 0 (if explicitName env then 1 else 3)
      (mkWorld (w_module w) st (w_fs w)).

End Register.

(** [unregister(state, dirs)]; [regUnlinkOk] tells whether the unlink of
    the record goes through. *)
Definition unregister (regUnlinkOk : bool) (w : World) : World :=
  if negb (registered (w_state w)) then w
  else
    mkWorld (invalidateAgentsCache (w_module w))
            (withRegistered (w_state w) false)
            (mkFS (if regUnlinkOk
                   then delete (agentName (w_state w)) (fs_registry (w_fs w))
                   else fs_registry (w_fs w))
                  (fs_inbox (w_fs w))).

(** ** Updating the registration *)

(** [if (state.spec) reg.spec = state.spec; else delete reg.spec]: an
    empty string counts as absent. *)
Definition truthySpec (spec : option string) : option string :=
  match spec with
  | Some EmptyString => None
  | other => other
  end.

(** [updateRegistration(state, dirs, ctx)]; [regWriteOk] tells whether
    the write of the record goes through. The model of the state is
    updated before the write. *)
Definition updateRegistration (regWriteOk : bool) (ctx : Ctx) (w : World)
  : World :=
  let st := w_state w in
  if negb (registered st) then w
  else
    match fs_registry (w_fs w) !! agentName st with
    | Some (RegOk reg) =>
        let currentModel := default (reg_model reg) (ctx_modelId ctx) in
        let reg' :=
          mkReg (reg_name reg) (reg_pid reg) (reg_sessionId reg)
                (reg_cwd reg) currentModel (reg_startedAt reg)
                (reservations st) (reg_gitBranch reg) (truthySpec (spec st))
                (reg_isHuman reg) (session st) (lastActivityAt st)
                (statusMessage st) in
        mkWorld (w_module w) (withModel st currentModel)
                (mkFS (if regWriteOk
                       then <[agentName st := RegOk reg']>
                              (fs_registry (w_fs w))
                       else fs_registry (w_fs w))
                      (fs_inbox (w_fs w)))
    | _ => w
    end.

(** [flushActivityToRegistry(state, dirs, ctx)] *)
Definition flushActivityToRegistry (regWriteOk : bool) (ctx : Ctx) (w : World)
  : World :=
  let st := w_state w in
  if negb (registered st) then w
  else
    match fs_registry (w_fs w) !! agentName st with
    | Some (RegOk reg) =>
        let currentModel := default (reg_model reg) (ctx_modelId ctx) in
        let reg' :=
          mkReg (reg_name reg) (reg_pid reg) (reg_sessionId reg)
                (reg_cwd reg) currentModel (reg_startedAt reg)
                (reg_reservations reg) (reg_gitBranch reg) (reg_spec reg)
                (reg_isHuman reg) (session st) (lastActivityAt st)
                (statusMessage st) in
        mkWorld (w_module w) (withModel st currentModel)
                (mkFS (if regWriteOk
                       then <[agentName st := RegOk reg']>
                              (fs_registry (w_fs w))
                       else fs_registry (w_fs w))
                      (fs_inbox (w_fs w)))
    | _ => w
    end.

(** ** The active agents and their cache *)

Definition AGENTS_CACHE_TTL_MS : Z := 1000.

(** [AgentsCache]; [filtered] is keyed by the cache key of the caller. *)
Record AgentsCache : Type := mkCache {
  cache_allAgents : list AgentRegistration;
  cache_filtered : gmap string (list AgentRegistration);
  cache_timestamp : Z;
  cache_registryPath : string
}.

(** [dirs.registry] as [existsSync] and [readdirSync] find it. *)
Inductive RegistryDir : Type :=
  | DirMissing
  | DirUnreadable
  | DirListed.

(** What a call of [getActiveAgents] reads besides the registry:
    [Date.now()], [process.cwd()], [state.scopeToFolder],
    [dirs.registry], the state of that directory, and for which names
    [logFeedEvent] returns and for which files [unlinkSync] goes
    through. *)
Record AgentsEnv : Type := mkAgentsEnv {
  ae_now : Z;
  ae_cwd : string;
  ae_scopeToFolder : bool;
  ae_registryPath : string;
  ae_dir : RegistryDir;
  ae_feedOk : string → bool;
  ae_unlinkOk : string → bool
}.

(** The module variable [agentsCache], the registry files, and the
    "leave" events logged to the feed, latest first. *)
Record AgentsStore : Type := mkAgentsStore {
  as_cache : option AgentsCache;
  as_registry : Registry;
  as_feed : list string
}.

(** [scopeToFolder ? `${excludeName}:${myCwd}` : excludeName] *)
Definition cacheKey (env : AgentsEnv) (excludeName : string) : string :=
  if ae_scopeToFolder env then excludeName +:+ ":" +:+ ae_cwd env
  else excludeName.

(** The two [filter] calls on the list of agents. *)
Definition filterAgents (env : AgentsEnv) (excludeName : string)
    (agents : list AgentRegistration) : list AgentRegistration :=
  let others := filter (λ a, reg_name a ≠ excludeName) agents in
  if ae_scopeToFolder env
  then filter (λ a, reg_cwd a = ae_cwd env) others
  else others.

(** The test guarding the cached answer. *)
Definition cacheUsable (env : AgentsEnv) (c : AgentsCache) : bool :=
  String.eqb (cache_registryPath c) (ae_registryPath env)
  && (ae_now env - cache_timestamp c <? AGENTS_CACHE_TTL_MS).

Section Agents.

Variable isProcessAlive : Z → bool.

(** The body of the loop over the registry files, for one file: a
    record of a dead process is logged as having left and then
    unlinked (the unlink is skipped when the logging throws); a record
    of a live process is collected; a file that does not parse is
    skipped. *)
Definition readRegistration (env : AgentsEnv) (file : string) (rf : RegFile)
    (acc : Registry * list string * list AgentRegistration)
  : Registry * list string * list AgentRegistration :=
  match rf with
  | RegMalformed => acc
  | RegOk reg =>
      if negb (isProcessAlive (reg_pid reg)) then
        if ae_feedOk env (reg_name reg) then
          ((if ae_unlinkOk env file then delete file acc.1.1 else acc.1.1),
           reg_name reg :: acc.1.2, acc.2)
        else acc
      else (acc.1.1, acc.1.2, acc.2 ++ [reg])
  end.

(** The loop over [readdirSync(dirs.registry)], in directory order. *)
Definition readRegistry (env : AgentsEnv) (registry : Registry)
    (feed : list string)
  : Registry * list string * list AgentRegistration :=
  foldl (λ acc kv, readRegistration env kv.1 kv.2 acc)
        (registry, feed, []) (map_to_list registry).

(** [getActiveAgents(state, dirs)] *)
Definition getActiveAgents (env : AgentsEnv) (st : MessengerState)
    (s : AgentsStore) : AgentsStore * list AgentRegistration :=
  let excludeName := agentName st in
  let key := cacheKey env excludeName in
  let fresh :=
    match ae_dir env with
    | DirMissing =>
        (mkAgentsStore
           (Some (mkCache [] ∅ (ae_now env) (ae_registryPath env)))
           (as_registry s) (as_feed s),
         [])
    | DirUnreadable => (s, [])
    | DirListed =>
        let r := readRegistry env (as_registry s) (as_feed s) in
        let filtered := filterAgents env excludeName r.2 in
        (mkAgentsStore
           (Some (mkCache r.2 {[ key := filtered ]} (ae_now env)
                          (ae_registryPath env)))
           r.1.1 r.1.2,
         filtered)
    end in
  match as_cache s with
  | Some c =>
      if cacheUsable env c then
        match cache_filtered c !! key with
        | Some cachedFiltered => (s, cachedFiltered)
        | None =>
            let filtered := filterAgents env excludeName (cache_allAgents c) in
            (mkAgentsStore
               (Some (mkCache (cache_allAgents c)
                              (<[key := filtered]> (cache_filtered c))
                              (cache_timestamp c) (cache_registryPath c)))
               (as_registry s) (as_feed s),
             filtered)
        end
      else fresh
  | None => fresh
  end.

End Agents.

(** ** Reservation conflicts *)

Record ReservationConflict : Type := mkConflict {
  conflict_path : string;
  conflict_agent : string;
  conflict_pattern : string;
  conflict_reason : string;
  conflict_registration : AgentRegistration
}.

Section Conflicts.

Variable isProcessAlive : Z → bool.

(** [pathMatchesReservation] of lib.js. *)
Variable pathMatchesReservation : string → string → bool.

(** The conflicts one agent's reservations (pattern, reason) give. *)
Definition conflictsOf (filePath : string) (agent : AgentRegistration)
  : list ReservationConflict :=
  (λ res : string * string,
     mkConflict filePath (reg_name agent) res.1 res.2 agent)
  <$> filter (λ res : string * string,
                pathMatchesReservation filePath res.1 = true)
        (reg_reservations agent).

(** [getConflictsWithOtherAgents(filePath, state, dirs)] *)
Definition getConflictsWithOtherAgents (env : AgentsEnv) (filePath : string)
    (st : MessengerState) (s : AgentsStore)
  : AgentsStore * list ReservationConflict :=
  let r := getActiveAgents isProcessAlive env st s in
  (r.1, mjoin (conflictsOf filePath <$> r.2)).

End Conflicts.

(** ** The inbox watcher *)

Definition WATCHER_DEBOUNCE_MS : Z := 50.

(** The watcher fields of [MessengerState]: whether [state.watcher] is
    set, [state.watcherRetries], the delay of the pending retry timer
    and whether a debounce timer is pending. *)
Record WatcherState : Type := mkWatcher {
  ws_watcher : bool;
  ws_retries : nat;
  ws_retryTimer : option Z;
  ws_debounceTimer : bool
}.

Section Watcher.

(** [MAX_WATCHER_RETRIES] of lib.js. *)
Variable MAX_WATCHER_RETRIES : nat.

(** [Math.min(1000 * Math.pow(2, watcherRetries - 1), 30000)] *)
Definition retryDelayMs (watcherRetries : nat) : Z :=
  Z.min (1000 * 2 ^ (Z.of_nat watcherRetries - 1)) 30000.

(** [scheduleRetry()] *)
Definition scheduleRetry (ws : WatcherState) : WatcherState :=
  let retries := S (ws_retries ws) in
  if (retries <? MAX_WATCHER_RETRIES)%nat
  then mkWatcher (ws_watcher ws) retries (Some (retryDelayMs retries))
                 (ws_debounceTimer ws)
  else mkWatcher (ws_watcher ws) retries (ws_retryTimer ws)
                 (ws_debounceTimer ws).

(** [stopWatcher(state)] *)
Definition stopWatcher (ws : WatcherState) : WatcherState :=
  mkWatcher false (ws_retries ws) None false.

(** [startWatcher(state, dirs, deliverFn)]; [watchOk] tells whether
    [fs.watch] returns. *)
Definition startWatcher (watchOk : bool) (unlinkOk : string → bool)
    (deliverFn : DeliverFn) (w : World) (ws : WatcherState)
  : World * WatcherState * list StoreEvent :=
  if negb (registered (w_state w)) then (w, ws, [])
  else if ws_watcher ws then (w, ws, [])
  else if (MAX_WATCHER_RETRIES <=? ws_retries ws)%nat then (w, ws, [])
  else
    let fs := mkFS (fs_registry (w_fs w))
                   (ensureInbox (agentName (w_state w)) (fs_inbox (w_fs w))) in
    let pass := processAllPendingMessages unlinkOk deliverFn (w_state w)
                  (w_module w) fs in
    let w' := mkWorld pass.1.1 (w_state w) pass.1.2 in
    if watchOk
    then (w', mkWatcher true 0 (ws_retryTimer ws) (ws_debounceTimer ws),
          pass.2)
    else (w', scheduleRetry ws, pass.2).

(** The callback of the retry timer. *)
Definition retryTimerFires (watchOk : bool) (unlinkOk : string → bool)
    (deliverFn : DeliverFn) (w : World) (ws : WatcherState)
  : World * WatcherState * list StoreEvent :=
  startWatcher watchOk unlinkOk deliverFn w
    (mkWatcher (ws_watcher ws) (ws_retries ws) None (ws_debounceTimer ws)).

(** The ["error"] handler of the watcher. *)
Definition watcherError (ws : WatcherState) : WatcherState :=
  scheduleRetry (stopWatcher ws).

(** The callback of [fs.watch]: the pending debounce timer is replaced. *)
Definition watcherChange (ws : WatcherState) : WatcherState :=
  mkWatcher (ws_watcher ws) (ws_retries ws) (ws_retryTimer ws) true.

(** The callback of the debounce timer. *)
Definition debounceTimerFires (unlinkOk : string → bool)
    (deliverFn : DeliverFn) (w : World) (ws : WatcherState)
  : World * WatcherState * list StoreEvent :=
  let pass := processAllPendingMessages unlinkOk deliverFn (w_state w)
                (w_module w) (w_fs w) in
  (mkWorld pass.1.1 (w_state w) pass.1.2,
   mkWatcher (ws_watcher ws) (ws_retries ws) (ws_retryTimer ws) false,
   pass.2).

End Watcher.

(** ** Target names as paths *)

(** [to.split("/")] *)
Fixpoint splitPath (s : string) : list string :=
  match s with
  | EmptyString => [EmptyString]
  | String c rest =>
      if Ascii.eqb c "/" then EmptyString :: splitPath rest
      else match splitPath rest with
           | seg :: segs => String c seg :: segs
           | [] => [String c EmptyString]
           end
  end.

(** One segment of the normalisation [path.join] applies (POSIX): empty
    segments and ["."] are dropped, [".."] removes the component before
    it, or climbs above the directory the path starts from. The
    accumulator holds the number of levels climbed and the components
    below, last first. *)
Definition joinSegment (acc : nat * list string) (seg : string)
  : nat * list string :=
  if decide (seg = "" ∨ seg = ".") then acc
  else if decide (seg = "..") then
    match acc.2 with
    | _ :: below => (acc.1, below)
    | [] => (S acc.1, [])
    end
  else (acc.1, seg :: acc.2).

(** [join(dirs.inbox, to)], relative to [dirs.inbox]: how many levels it
    climbs above it, and the components it then descends by. *)
Definition joinBelow (to : string) : nat * list string :=
  let r := foldl joinSegment (0%nat, []) (splitPath to) in
  (r.1, rev r.2).

(** [s.includes(c)] *)
Fixpoint includesChar (c : ascii) (s : string) : bool :=
  match s with
  | EmptyString => false
  | String c' rest => Ascii.eqb c' c || includesChar c rest
  end.

Definition hasNul (s : string) : bool := includesChar "000" s.

(** The bytes of a name in UTF-8: one for a code unit below 128, two
    for one from 128 to 255. *)
Fixpoint utf8Length (s : string) : nat :=
  match s with
  | EmptyString => 0
  | String c rest =>
      ((if (nat_of_ascii c <? 128)%nat then 1 else 2) + utf8Length rest)%nat
  end.

(** The longest file name the file system takes, in bytes. *)
Definition NAME_MAX : nat := 255.

(** Where a message for [to] goes: the inbox of a name, namely the one
    component the joined path descends by; a directory these definitions
    do not follow (the inbox root, one reached by climbing above it, or
    one nested deeper); or nowhere, because [mkdirSync] rejects the path:
    one with a NUL character is refused by Node, one with an over-long
    component by the file system. *)
Inductive TargetDir : Type :=
  | TargetInbox (name : string)
  | TargetElsewhere
  | TargetRejected (code : string).

Definition resolveTarget (to : string) : TargetDir :=
  let r := joinBelow to in
  if existsb hasNul r.2 then TargetRejected "ERR_INVALID_ARG_VALUE"
  else if existsb (λ seg, (NAME_MAX <? utf8Length seg)%nat) r.2
  then TargetRejected "ENAMETOOLONG"
  else match r.1, r.2 with
       | O, [name] => TargetInbox name
       | _, _ => TargetElsewhere
       end.


(** [sendMessageToAgent(state, dirs, to, text, replyTo)] with the target
    directory resolved as [join] and [mkdirSync] do. [None]: the message
    file lands in a directory these definitions do not follow. *)
Definition sendMessageToAgentIo (st : MessengerState)
    (to text : string) (replyTo : option string)
    (uuid isoNow : string) (nowMs : Z) (random : string) (fs : FS)
  : option (FS * Outcome AgentMailMessage) :=
  let msg := mkMsg uuid (agentName st) to text isoNow replyTo in
  let msgFile := pretty nowMs +:+ "-" +:+ random +:+ ".json" in
  match resolveTarget to with
  | TargetRejected code => Some (fs, Threw code)
  | TargetElsewhere => None
  | TargetInbox name =>
      let targetInbox := default ∅ (fs_inbox fs !! name) in
      Some (mkFS (fs_registry fs)
                 (<[name := <[msgFile := FileMessage msg]> targetInbox]>
                    (fs_inbox fs)),
            Returned msg)
  end.
(** * Properties

    ** The string helpers and the parser on examples *)

Example parseInt10_pid : parseInt10 "4242" = Some 4242.
Proof. reflexivity. Qed.

Example parseInt10_prefix : parseInt10 "  12abc" = Some 12.
Proof. reflexivity. Qed.

Example parseInt10_empty : parseInt10 "" = None.
Proof. reflexivity. Qed.

Example parseInt10_text : parseInt10 "lock" = None.
Proof. reflexivity. Qed.

Example trim_both : trim "  4242 " = "4242".
Proof. reflexivity. Qed.

Example endsWith_json : endsWith ".json" "100-aaa.json" = true.
Proof. reflexivity. Qed.

Example endsWith_other : endsWith ".json" "notes.txt" = false.
Proof. reflexivity. Qed.

Example parseVerdict_ship :
  parseVerdict
    ("## Verdict: ship" +:+ lf +:+ "Looks good." +:+ lf +:+ lf
     +:+ "## Issues" +:+ lf +:+ "- none really" +:+ lf
     +:+ "## Suggestions" +:+ lf +:+ "* add a test" +:+ lf +:+ "  - and docs")
  = mkReview SHIP "Looks good." ["none really"] ["add a test"; "and docs"].
Proof. vm_compute. reflexivity. Qed.

Example parseVerdict_garbage :
  parseVerdict "I could not review this."
  = mkReview NEEDS_WORK "" [] [].
Proof. vm_compute. reflexivity. Qed.

(** ** The stale-claim purge, characterised *)

(** What [filterStaleClaims] reads of a claims object: the entries
    whose keys are not ["__proto__"]. *)
Definition stripProto (claims : AllClaims) : AllClaims :=
  delete "__proto__" (delete "__proto__" <$> claims).

Lemma stripProto_plain claims : plainKeys claims → stripProto claims = claims.
Proof.
  intros [Hs Ht]. unfold stripProto.
  rewrite delete_id by (by rewrite lookup_fmap, Hs).
  apply map_eq; intros s. rewrite lookup_fmap.
  destruct (claims !! s) as [tasks|] eqn:E; simpl; [|done].
  by rewrite delete_id by (exact (Ht s tasks E)).
Qed.

Lemma lookup2_stripProto claims s t c :
  lookup2 (stripProto claims) s t = Some c
  ↔ lookup2 claims s t = Some c ∧ s ≠ "__proto__" ∧ t ≠ "__proto__".
Proof.
  unfold lookup2, stripProto.
  destruct (decide (s = "__proto__")) as [->|Hs].
  { rewrite lookup_delete_eq. split; [done|]. by intros (_ & ? & _). }
  rewrite lookup_delete_ne, lookup_fmap by done.
  destruct (claims !! s) as [tasks|]; simpl;
    [|split; [done|by intros [? _]]].
  destruct (decide (t = "__proto__")) as [->|Ht].
  { rewrite lookup_delete_eq. split; [done|]. by intros (_ & _ & ?). }
  rewrite lookup_delete_ne by done. tauto.
Qed.

Section PurgeFacts.

Variable isProcessAlive : Z → bool.
Variable registry : Registry.

Let stale := isClaimStale isProcessAlive registry.

(** What the purge leaves of one spec bucket. *)
Definition keepFresh (tasks : SpecClaims) : SpecClaims :=
  filter (λ kv : string * ClaimEntry, stale kv.2 = false) tasks.

(** The bucket the purge leaves under a spec key, if any. *)
Definition purgeSpec (tasks : SpecClaims) : option SpecClaims :=
  if decide (size (keepFresh tasks) = 0%nat) then None
  else Some (keepFresh tasks).

(** The purge as a map operation. *)
Definition purge (claims : AllClaims) : AllClaims := omap purgeSpec claims.

(** The number of stale entries of a bucket and of a claims object. *)
Definition staleIn (tasks : SpecClaims) : nat :=
  size (filter (λ kv : string * ClaimEntry, stale kv.2 = true) tasks).

Definition staleCount (claims : AllClaims) : nat :=
  map_fold (λ _ tasks n, (n + staleIn tasks)%nat) 0%nat claims.

Lemma lookup_keepFresh tasks t :
  keepFresh tasks !! t =
    match tasks !! t with
    | Some c => if stale c then None else Some c
    | None => None
    end.
Proof.
  unfold keepFresh. apply option_eq; intros c'.
  rewrite map_lookup_filter_Some; simpl.
  destruct (tasks !! t) as [c|]; [|intuition congruence].
  destruct (stale c) eqn:E; intuition congruence.
Qed.

Lemma keepFresh_Some tasks t c :
  keepFresh tasks !! t = Some c ↔ tasks !! t = Some c ∧ stale c = false.
Proof.
  rewrite lookup_keepFresh. destruct (tasks !! t) as [c'|]; [|intuition congruence].
  destruct (stale c') eqn:E; intuition congruence.
Qed.

Lemma keepFresh_idemp tasks : keepFresh (keepFresh tasks) = keepFresh tasks.
Proof.
  apply map_eq; intros t. rewrite !lookup_keepFresh.
  destruct (tasks !! t) as [c|]; [|done].
  destruct (stale c) eqn:E; [done|]. by rewrite E.
Qed.

Lemma staleIn_keepFresh tasks : staleIn (keepFresh tasks) = 0%nat.
Proof.
  unfold staleIn. apply map_size_empty_iff, map_empty; intros t.
  apply map_lookup_filter_None. right. intros c Hc Hst; simpl in *.
  apply keepFresh_Some in Hc. destruct Hc as [_ Hc]. congruence.
Qed.

(** The inner loop, started from any accumulator. *)
Lemma cleanupSpec_fold (m acc0 : SpecClaims) (n0 : nat) :
  let r := map_fold
    (λ taskId claim (acc : SpecClaims * nat),
       if stale claim then (delete taskId acc.1, S acc.2) else acc)
    (acc0, n0) m in
  (∀ t, r.1 !! t = match m !! t with
                   | Some c => if stale c then None else acc0 !! t
                   | None => acc0 !! t
                   end)
  ∧ r.2 = (n0 + staleIn m)%nat.
Proof.
  induction m as [|i x m Hi Hfirst IH] using map_first_key_ind.
  - rewrite map_fold_empty. simpl. split.
    + intros t. by rewrite lookup_empty.
    + unfold staleIn. rewrite map_filter_empty, map_size_empty. lia.
  - rewrite map_fold_insert_first_key by done.
    destruct IH as [IH1 IH2]. simpl in *.
    destruct (stale x) eqn:Hx; simpl.
    + split.
      * intros t. destruct (decide (t = i)) as [->|Hne].
        -- by rewrite lookup_delete_eq, lookup_insert_eq, Hx.
        -- rewrite lookup_delete_ne, lookup_insert_ne by done. apply IH1.
      * rewrite IH2. unfold staleIn.
        rewrite map_filter_insert_True by done.
        rewrite map_size_insert_None; [lia|].
        apply map_lookup_filter_None. by left.
    + split.
      * intros t. destruct (decide (t = i)) as [->|Hne].
        -- rewrite lookup_insert_eq, Hx. rewrite IH1, Hi. done.
        -- rewrite lookup_insert_ne by done. apply IH1.
      * rewrite IH2. unfold staleIn.
        rewrite map_filter_insert_False by (simpl; congruence).
        by rewrite delete_id.
Qed.

Lemma cleanupSpec_fst tasks :
  (cleanupSpec isProcessAlive registry tasks).1 = keepFresh tasks.
Proof.
  apply map_eq; intros t. unfold cleanupSpec.
  rewrite (proj1 (cleanupSpec_fold tasks tasks 0)), lookup_keepFresh.
  by destruct (tasks !! t).
Qed.

Lemma cleanupSpec_snd tasks :
  (cleanupSpec isProcessAlive registry tasks).2 = staleIn tasks.
Proof. exact (proj2 (cleanupSpec_fold tasks tasks 0)). Qed.

Lemma keepFresh_delete tasks t :
  keepFresh (delete t tasks) = delete t (keepFresh tasks).
Proof.
  apply map_eq; intros t'. rewrite lookup_keepFresh.
  destruct (decide (t' = t)) as [->|Hne].
  - by rewrite !lookup_delete_eq.
  - by rewrite !lookup_delete_ne, lookup_keepFresh by done.
Qed.

Lemma filterSpec_eq tasks :
  filterSpec isProcessAlive registry tasks
  = keepFresh (delete "__proto__" tasks).
Proof.
  rewrite keepFresh_delete. unfold filterSpec.
  induction tasks as [|i x m Hi Hfirst IH] using map_first_key_ind.
  - rewrite map_fold_empty. unfold keepFresh.
    by rewrite map_filter_empty, delete_empty.
  - rewrite map_fold_insert_first_key by done. rewrite IH.
    fold stale. unfold keepFresh, assignKey.
    destruct (stale x) eqn:Hx; simpl.
    + rewrite map_filter_insert_False by (simpl; congruence).
      by rewrite (delete_id m i).
    + rewrite map_filter_insert_True by done.
      case_decide as Hp.
      * subst i. by rewrite delete_insert_eq.
      * by rewrite delete_insert_ne.
Qed.

(** The outer loop, started from any accumulator. *)
Lemma cleanupStaleClaims_fold (m acc0 : AllClaims) (n0 : nat) :
  let r := map_fold
    (λ spec tasks (acc : AllClaims * nat),
       let r := cleanupSpec isProcessAlive registry tasks in
       let claims1 := <[spec := r.1]> acc.1 in
       let claims2 :=
         if decide (size r.1 = 0%nat) then delete spec claims1 else claims1 in
       (claims2, (acc.2 + r.2)%nat))
    (acc0, n0) m in
  (∀ s, r.1 !! s = match m !! s with
                   | Some tasks => purgeSpec tasks
                   | None => acc0 !! s
                   end)
  ∧ r.2 = (n0 + staleCount m)%nat.
Proof.
  induction m as [|i x m Hi Hfirst IH] using map_first_key_ind.
  - rewrite map_fold_empty. simpl. split.
    + intros s. by rewrite lookup_empty.
    + unfold staleCount. rewrite map_fold_empty. lia.
  - rewrite map_fold_insert_first_key by done.
    destruct IH as [IH1 IH2]. simpl in *.
    rewrite cleanupSpec_fst, cleanupSpec_snd. split.
    + intros s. unfold purgeSpec.
      destruct (decide (s = i)) as [->|Hne].
      * rewrite lookup_insert_eq. case_decide.
        -- by rewrite lookup_delete_eq.
        -- by rewrite lookup_insert_eq.
      * rewrite (lookup_insert_ne (M:=gmap string)) by done.
        case_decide.
        -- rewrite lookup_delete_ne, lookup_insert_ne by done. apply IH1.
        -- rewrite lookup_insert_ne by done. apply IH1.
    + rewrite IH2. unfold staleCount.
      rewrite (map_fold_insert_first_key _ _ m i x) by done. lia.
Qed.

Lemma cleanupStaleClaims_fst claims :
  (cleanupStaleClaims isProcessAlive registry claims).1 = purge claims.
Proof.
  apply map_eq; intros s. unfold cleanupStaleClaims, purge.
  rewrite (proj1 (cleanupStaleClaims_fold claims claims 0)), lookup_omap.
  by destruct (claims !! s).
Qed.

Lemma cleanupStaleClaims_snd claims :
  (cleanupStaleClaims isProcessAlive registry claims).2 = staleCount claims.
Proof. exact (proj2 (cleanupStaleClaims_fold claims claims 0)). Qed.

Lemma filterStaleClaims_eq claims :
  filterStaleClaims isProcessAlive registry claims
  = purge (stripProto claims).
Proof.
  unfold filterStaleClaims, purge, stripProto.
  induction claims as [|i x m Hi Hfirst IH] using map_first_key_ind.
  - rewrite map_fold_empty. by rewrite fmap_empty, delete_empty, omap_empty.
  - rewrite map_fold_insert_first_key by done. rewrite IH.
    simpl. rewrite filterSpec_eq. unfold assignKey.
    apply map_eq; intros s. rewrite fmap_insert.
    destruct (decide (i = "__proto__")) as [->|Hp].
    + rewrite delete_insert_eq.
      by destruct (decide (0 < size (keepFresh (delete "__proto__" x)))%nat).
    + rewrite delete_insert_ne by done. rewrite omap_insert.
      unfold purgeSpec at 3.
      destruct (decide (0 < size (keepFresh (delete "__proto__" x)))%nat)
        as [Hpos|Hz].
      * by destruct (decide (size (keepFresh (delete "__proto__" x)) = 0%nat));
          [lia|].
      * destruct (decide (size (keepFresh (delete "__proto__" x)) = 0%nat));
          [|lia].
        rewrite (delete_id _ i); [done|].
        rewrite lookup_omap, lookup_delete_ne, lookup_fmap, Hi by done.
        done.
Qed.

Lemma filterStaleClaims_plain claims :
  plainKeys claims →
  filterStaleClaims isProcessAlive registry claims = purge claims.
Proof. intros H. by rewrite filterStaleClaims_eq, stripProto_plain. Qed.

Lemma lookup_purge claims s :
  purge claims !! s = claims !! s ≫= purgeSpec.
Proof. apply lookup_omap. Qed.

(** An entry survives the purge exactly when it is there and fresh. *)
Lemma lookup2_purge claims s t c :
  lookup2 (purge claims) s t = Some c
  ↔ lookup2 claims s t = Some c ∧ stale c = false.
Proof.
  unfold lookup2. rewrite lookup_purge.
  destruct (claims !! s) as [tasks|]; simpl; [|intuition congruence].
  unfold purgeSpec. case_decide as Hsz.
  - apply map_size_empty_iff in Hsz. split; [done|].
    intros Hc. apply keepFresh_Some in Hc. by rewrite Hsz in Hc.
  - apply keepFresh_Some.
Qed.

Lemma purge_idemp claims : purge (purge claims) = purge claims.
Proof.
  apply map_eq; intros s. rewrite !lookup_purge.
  destruct (claims !! s) as [tasks|]; simpl; [|done].
  destruct (purgeSpec tasks) as [kept|] eqn:Hp; simpl; [|done].
  unfold purgeSpec in Hp. case_decide as Hsz; [done|].
  injection Hp as <-.
  unfold purgeSpec. by rewrite keepFresh_idemp, decide_False.
Qed.

Lemma staleCount_purge claims : staleCount (purge claims) = 0%nat.
Proof.
  unfold staleCount.
  assert (∀ s tasks, purge claims !! s = Some tasks → staleIn tasks = 0%nat)
    as Hall.
  { intros s tasks. rewrite lookup_purge.
    destruct (claims !! s) as [ts|]; simpl; [|done].
    unfold purgeSpec. case_decide; [done|].
    intros [= <-]. apply staleIn_keepFresh. }
  revert Hall. generalize (purge claims). intros m.
  induction m as [|i x m Hi Hfirst IH] using map_first_key_ind; intros Hall.
  - by rewrite map_fold_empty.
  - rewrite map_fold_insert_first_key by done.
    rewrite IH.
    + rewrite (Hall i x); [done|]. by rewrite lookup_insert_eq.
    + intros s tasks Hs. apply (Hall s).
      rewrite lookup_insert_ne; [done|]. intros ->. congruence.
Qed.

(** No bucket the purge leaves is empty. *)
Lemma purge_bucket_nonempty claims s tasks :
  purge claims !! s = Some tasks → tasks ≠ ∅.
Proof.
  rewrite lookup_purge. destruct (claims !! s) as [ts|]; simpl; [|done].
  unfold purgeSpec. case_decide as Hsz; [done|].
  intros [= <-]. by apply map_size_non_empty_iff.
Qed.

(** The purge adds no key. *)
Lemma purge_plainKeys claims : plainKeys (purge (stripProto claims)).
Proof.
  split.
  - rewrite lookup_purge. unfold stripProto. by rewrite lookup_delete_eq.
  - intros s tasks Hs. rewrite lookup_purge in Hs.
    unfold stripProto in Hs.
    destruct (decide (s = "__proto__")) as [->|Hne].
    { by rewrite lookup_delete_eq in Hs. }
    rewrite lookup_delete_ne, lookup_fmap in Hs by done.
    destruct (claims !! s) as [ts|]; simpl in Hs; [|done].
    unfold purgeSpec in Hs. case_decide; [done|]. injection Hs as <-.
    rewrite lookup_keepFresh. by rewrite lookup_delete_eq.
Qed.

End PurgeFacts.

(** ** Lookups through the nested objects *)

Lemma lookup2_empty {A} (s t : string) :
  lookup2 (∅ : gmap string (gmap string A)) s t = None.
Proof. unfold lookup2. by rewrite lookup_empty. Qed.

Lemma lookup2_setEntry {A} (m : gmap string (gmap string A)) s t v s' t' :
  lookup2 (setEntry m s t v) s' t' =
    if decide (s = s' ∧ t = t') then Some v else lookup2 m s' t'.
Proof.
  unfold lookup2, setEntry.
  destruct (decide (s = s')) as [->|Hs].
  - rewrite lookup_insert_eq.
    destruct (decide (t = t')) as [->|Ht].
    + rewrite lookup_insert_eq. by rewrite decide_True.
    + rewrite lookup_insert_ne by done.
      rewrite decide_False by tauto.
      destruct (m !! s'); simpl; [done|apply lookup_empty].
  - rewrite lookup_insert_ne by done. by rewrite decide_False by tauto.
Qed.

Lemma lookup2_deleteEntry {A} (m : gmap string (gmap string A)) s t s' t' :
  lookup2 (deleteEntry m s t) s' t' =
    if decide (s = s' ∧ t = t') then None else lookup2 m s' t'.
Proof.
  unfold lookup2, deleteEntry.
  destruct (m !! s) as [tasks|] eqn:Hm.
  - case_decide as Hsz.
    + apply map_size_empty_iff in Hsz.
      destruct (decide (s = s')) as [->|Hs].
      * rewrite lookup_delete_eq, Hm.
        destruct (decide (t = t')) as [->|Ht].
        -- by rewrite decide_True.
        -- rewrite decide_False by tauto.
           rewrite <- (lookup_delete_ne tasks t t') by done.
           by rewrite Hsz, lookup_empty.
      * rewrite lookup_delete_ne by done. by rewrite decide_False by tauto.
    + destruct (decide (s = s')) as [->|Hs].
      * rewrite lookup_insert_eq, Hm.
        destruct (decide (t = t')) as [->|Ht].
        -- by rewrite lookup_delete_eq, decide_True.
        -- by rewrite lookup_delete_ne, decide_False by tauto.
      * rewrite lookup_insert_ne by done. by rewrite decide_False by tauto.
  - case_decide as Hd; [|done].
    destruct Hd as [<- _]. by rewrite Hm.
Qed.

(** ** [findAgentClaim] finds a claim of the agent whenever there is one *)

Lemma findInSpec_Some agent (tasks : SpecClaims) t :
  findInSpec agent tasks = Some t →
  ∃ c, tasks !! t = Some c ∧ c_agent c = agent.
Proof.
  unfold findInSpec. intros H.
  destruct (list_find _ _) as [[i [k c]]|] eqn:Hf; simplify_eq/=.
  apply list_find_Some in Hf as (Hl & Hp & _).
  exists c. split; [|done].
  apply elem_of_map_to_list. by eapply list_elem_of_lookup_2.
Qed.

Lemma findInSpec_None agent (tasks : SpecClaims) t c :
  findInSpec agent tasks = None →
  tasks !! t = Some c → c_agent c ≠ agent.
Proof.
  unfold findInSpec. intros H Ht.
  destruct (list_find _ _) as [[i [k c']]|] eqn:Hf; simplify_eq/=.
  rewrite list_find_None, Forall_forall in Hf.
  apply (Hf (t, c)). by apply elem_of_map_to_list.
Qed.

Lemma findInSpecs_Some agent l s t :
  findInSpecs agent l = Some (s, t) →
  ∃ tasks, (s, tasks) ∈ l ∧ findInSpec agent tasks = Some t.
Proof.
  induction l as [|[s0 tasks0] l IH]; simpl; [done|].
  destruct (findInSpec agent tasks0) as [t0|] eqn:H0.
  - intros [= <- <-]. exists tasks0. split; [left|done].
  - intros H. destruct (IH H) as (tasks & Hin & Hf).
    exists tasks. split; [by right|done].
Qed.

Lemma findInSpecs_None agent l s tasks :
  findInSpecs agent l = None →
  (s, tasks) ∈ l → findInSpec agent tasks = None.
Proof.
  induction l as [|[s0 tasks0] l IH]; simpl.
  - intros _ Hin. by apply elem_of_nil in Hin.
  - destruct (findInSpec agent tasks0) as [t0|] eqn:H0; [done|].
    intros H Hin. apply elem_of_cons in Hin as [[= -> ->]|Hin]; auto.
Qed.

(** The location [findAgentClaim] reports holds a claim of the agent. *)
Lemma findAgentClaim_Some (claims : AllClaims) agent s t :
  findAgentClaim claims agent = Some (s, t) →
  ∃ c, lookup2 claims s t = Some c ∧ c_agent c = agent.
Proof.
  unfold findAgentClaim. intros H.
  apply findInSpecs_Some in H as (tasks & Hin & Hf).
  apply elem_of_map_to_list in Hin.
  apply findInSpec_Some in Hf as (c & Hc & Ha).
  exists c. unfold lookup2. by rewrite Hin.
Qed.

(** It reports nothing only when the agent has no claim at all. *)
Lemma findAgentClaim_None (claims : AllClaims) agent s t c :
  findAgentClaim claims agent = None →
  lookup2 claims s t = Some c → c_agent c ≠ agent.
Proof.
  unfold findAgentClaim, lookup2. intros H Hl.
  destruct (claims !! s) as [tasks|] eqn:Hs; [|done].
  eapply findInSpec_None; [|done].
  eapply findInSpecs_None; [done|]. by apply elem_of_map_to_list.
Qed.

(** ** Running the operations *)

(** The acquisition loop ends with the lock held. *)
Definition acquired (isProcessAlive : Z → bool) (obs : nat → LockObs) : Prop :=
  (acquireLoop isProcessAlive obs 0 maxRetries).2 = Returned tt.

Lemma lockFree_acquired isProcessAlive : acquired isProcessAlive lockFree.
Proof. reflexivity. Qed.

Lemma withSwarmLock_acquired {S T} isProcessAlive obs (fn : M S T) s :
  acquired isProcessAlive obs →
  (withSwarmLock isProcessAlive obs fn s).1 = fn s.
Proof.
  unfold acquired, withSwarmLock. intros ->. simpl. by destruct (fn s).
Qed.

Lemma withSwarmLock_state {S T} isProcessAlive obs (fn : M S T) s :
  (withSwarmLock isProcessAlive obs fn s).1.1 = (fn s).1
  ∨ (withSwarmLock isProcessAlive obs fn s).1.1 = s.
Proof.
  unfold withSwarmLock. destruct (acquireLoop _ _ _ _).2; simpl; auto.
Qed.

(** Without write faults the conditional write of the purged claims
    returns, and the answer that follows it is the result. *)
Lemma purge_write_result {A} (b : bool) (claims : AllClaims) (r : A) d :
  (bind (when b (writeClaimsSync noFaults claims)) (λ _, ret r) d).2
  = Returned r.
Proof. by destruct b. Qed.

Lemma purge_write_completions {A} io (b : bool) (claims : AllClaims) (r : A) d :
  completionsFile
    (bind (when b (writeClaimsSync io claims)) (λ _, ret r) d).1
  = completionsFile d.
Proof.
  unfold bind, when, writeClaimsSync, ret.
  by destruct b, (claimsWriteOk io).
Qed.

Section SwarmRun.

Variable isProcessAlive : Z → bool.
Variable registry : Registry.

Let stale := isClaimStale isProcessAlive registry.
Let purged (d : Disk) : AllClaims :=
  purge isProcessAlive registry (readClaimsSync d).
Let removedOf (d : Disk) : nat :=
  staleCount isProcessAlive registry (readClaimsSync d).

(** What [claimTask] does under the lock, with the purge written as a
    map operation. *)
Lemma claimTaskLocked_eq io now s t a sid pid reason d :
  claimTaskLocked isProcessAlive registry io now s t a sid pid reason d =
    match findAgentClaim (purged d) a with
    | Some existing =>
        bind (when (0 <? removedOf d)%nat (writeClaimsSync io (purged d)))
             (λ _, ret (ClaimAlreadyHaveClaim existing)) d
    | None =>
        match lookup2 (purged d) s t with
        | Some c =>
            bind (when (0 <? removedOf d)%nat (writeClaimsSync io (purged d)))
                 (λ _, ret (ClaimAlreadyClaimed c)) d
        | None =>
            bind (writeClaimsSync io
                    (setEntry (purged d) s t (mkClaim a sid pid now reason)))
                 (λ _, ret (ClaimSuccess now)) d
        end
    end.
Proof.
  unfold claimTaskLocked, purged, removedOf. unfold bind at 1, get. simpl.
  rewrite cleanupStaleClaims_fst, cleanupStaleClaims_snd.
  by repeat case_match.
Qed.

Lemma unclaimTaskLocked_eq io s t a d :
  unclaimTaskLocked isProcessAlive registry io s t a d =
    match lookup2 (purged d) s t with
    | None =>
        bind (when (0 <? removedOf d)%nat (writeClaimsSync io (purged d)))
             (λ _, ret UnclaimNotClaimed) d
    | Some c =>
        if negb (String.eqb (c_agent c) a) then
          bind (when (0 <? removedOf d)%nat (writeClaimsSync io (purged d)))
               (λ _, ret (UnclaimNotYourClaim (c_agent c))) d
        else
          bind (writeClaimsSync io (deleteEntry (purged d) s t))
               (λ _, ret UnclaimSuccess) d
    end.
Proof.
  unfold unclaimTaskLocked, purged, removedOf. unfold bind at 1, get. simpl.
  rewrite cleanupStaleClaims_fst, cleanupStaleClaims_snd.
  by repeat case_match.
Qed.

Lemma completeTaskLocked_eq io now s t a notes d :
  completeTaskLocked isProcessAlive registry io now s t a notes d =
    match lookup2 (readCompletionsSync d) s t with
    | Some k =>
        bind (when (0 <? removedOf d)%nat (writeClaimsSync io (purged d)))
             (λ _, ret (CompleteAlreadyCompleted k)) d
    | None =>
        match lookup2 (purged d) s t with
        | None =>
            bind (when (0 <? removedOf d)%nat (writeClaimsSync io (purged d)))
                 (λ _, ret CompleteNotClaimed) d
        | Some c =>
            if negb (String.eqb (c_agent c) a) then
              bind (when (0 <? removedOf d)%nat
                      (writeClaimsSync io (purged d)))
                   (λ _, ret (CompleteNotYourClaim (c_agent c))) d
            else
              bind (writeCompletionsSync io
                      (setEntry (readCompletionsSync d) s t
                         (mkCompletion a now notes)))
                   (λ _, bind (writeClaimsSync io
                                 (deleteEntry (purged d) s t))
                           (λ _, ret (CompleteSuccess now))) d
        end
    end.
Proof.
  unfold completeTaskLocked, purged, removedOf. unfold bind at 1, get. simpl.
  rewrite cleanupStaleClaims_fst, cleanupStaleClaims_snd.
  by repeat case_match.
Qed.

(** A conditional write of the purged claims leaves the claims file
    either as it was or purged, and the completions file as it was. *)
Lemma purge_write_disk {A} io (b : bool) (r : A) d :
  let d' := (bind (when b (writeClaimsSync io (purged d)))
                  (λ _, ret r) d).1 in
  completionsFile d' = completionsFile d
  ∧ (readClaimsSync d' = readClaimsSync d ∨ readClaimsSync d' = purged d).
Proof.
  unfold bind, when, writeClaimsSync, ret.
  destruct b, (claimsWriteOk io); simpl; auto.
Qed.

(** The shapes the claims object can take after one call. *)
Inductive ClaimsStep (d : Disk) : AllClaims → Prop :=
  | StepSame : ClaimsStep d (readClaimsSync d)
  | StepPurged : ClaimsStep d (purged d)
  | StepAdded s t c :
      findAgentClaim (purged d) (c_agent c) = None →
      lookup2 (purged d) s t = None →
      ClaimsStep d (setEntry (purged d) s t c)
  | StepRemoved s t :
      ClaimsStep d (deleteEntry (purged d) s t).

Lemma claimTaskLocked_step io now s t a sid pid reason d :
  ClaimsStep d (readClaimsSync
    (claimTaskLocked isProcessAlive registry io now s t a sid pid reason d).1).
Proof.
  rewrite claimTaskLocked_eq.
  destruct (findAgentClaim (purged d) a) as [e|] eqn:Hf.
  { destruct (purge_write_disk io (0 <? removedOf d)%nat
                (ClaimAlreadyHaveClaim e) d) as [_ [-> | ->]]; constructor. }
  destruct (lookup2 (purged d) s t) as [c|] eqn:Hl.
  { destruct (purge_write_disk io (0 <? removedOf d)%nat
                (ClaimAlreadyClaimed c) d) as [_ [-> | ->]]; constructor. }
  unfold bind, writeClaimsSync, ret.
  destruct (claimsWriteOk io); simpl; [|constructor].
  by apply (StepAdded d s t (mkClaim a sid pid now reason)).
Qed.

Lemma unclaimTaskLocked_step io s t a d :
  ClaimsStep d (readClaimsSync
    (unclaimTaskLocked isProcessAlive registry io s t a d).1).
Proof.
  rewrite unclaimTaskLocked_eq.
  destruct (lookup2 (purged d) s t) as [c|] eqn:Hl.
  2:{ destruct (purge_write_disk io (0 <? removedOf d)%nat
                  UnclaimNotClaimed d) as [_ [-> | ->]]; constructor. }
  destruct (negb _).
  { destruct (purge_write_disk io (0 <? removedOf d)%nat
                (UnclaimNotYourClaim (c_agent c)) d) as [_ [-> | ->]];
      constructor. }
  unfold bind, writeClaimsSync, ret.
  destruct (claimsWriteOk io); simpl; constructor.
Qed.

Lemma completeTaskLocked_step io now s t a notes d :
  ClaimsStep d (readClaimsSync
    (completeTaskLocked isProcessAlive registry io now s t a notes d).1).
Proof.
  rewrite completeTaskLocked_eq.
  destruct (lookup2 (readCompletionsSync d) s t) as [k|] eqn:Hk.
  { destruct (purge_write_disk io (0 <? removedOf d)%nat
                (CompleteAlreadyCompleted k) d) as [_ [-> | ->]];
      constructor. }
  destruct (lookup2 (purged d) s t) as [c|] eqn:Hl.
  2:{ destruct (purge_write_disk io (0 <? removedOf d)%nat
                  CompleteNotClaimed d) as [_ [-> | ->]]; constructor. }
  destruct (negb _).
  { destruct (purge_write_disk io (0 <? removedOf d)%nat
                (CompleteNotYourClaim (c_agent c)) d) as [_ [-> | ->]];
      constructor. }
  unfold bind, writeCompletionsSync, writeClaimsSync, ret.
  destruct (completionsWriteOk io), (claimsWriteOk io); simpl;
    first [exact (StepSame d) | constructor].
Qed.

(** Every call, whatever its lock observations and write faults, moves
    the claims object by one of the four steps. *)
Lemma runCall_step c d :
  ClaimsStep d (readClaimsSync (runCall isProcessAlive registry c d)).
Proof.
  unfold runCall, claimTask, unclaimTask, completeTask.
  destruct (call_op c) as [s t a sid pid reason|s t a|s t a notes].
  - destruct (withSwarmLock_state isProcessAlive (call_lock c)
      (claimTaskLocked isProcessAlive registry (call_io c) (call_now c)
         s t a sid pid reason) d) as [-> | ->];
      [apply claimTaskLocked_step|constructor].
  - destruct (withSwarmLock_state isProcessAlive (call_lock c)
      (unclaimTaskLocked isProcessAlive registry (call_io c) s t a) d)
      as [-> | ->]; [apply unclaimTaskLocked_step|constructor].
  - destruct (withSwarmLock_state isProcessAlive (call_lock c)
      (completeTaskLocked isProcessAlive registry (call_io c) (call_now c)
         s t a notes) d) as [-> | ->];
      [apply completeTaskLocked_step|constructor].
Qed.

End SwarmRun.

(** ** Who holds what *)

Section Holding.

Variable isProcessAlive : Z → bool.
Variable registry : Registry.

(** Agent [a] holds a non-stale claim on [(s, t)]. *)
Definition holdsFresh (claims : AllClaims) (a s t : string) : Prop :=
  ∃ c, lookup2 claims s t = Some c ∧ c_agent c = a
       ∧ isClaimStale isProcessAlive registry c = false.

Definition holdsNoClaim (claims : AllClaims) (a : string) : Prop :=
  ∀ s t, ¬ holdsFresh claims a s t.

Definition atMostOneClaim (claims : AllClaims) (a : string) : Prop :=
  ∀ s t s' t',
    holdsFresh claims a s t → holdsFresh claims a s' t' → (s, t) = (s', t').

Lemma holdsFresh_purge claims a s t :
  holdsFresh (purge isProcessAlive registry claims) a s t
  ↔ holdsFresh claims a s t.
Proof.
  unfold holdsFresh. split; intros (c & Hc & Ha & Hs); exists c.
  - apply lookup2_purge in Hc. tauto.
  - split; [|done]. apply lookup2_purge. tauto.
Qed.

Lemma holdsNoClaim_atMostOne claims a :
  holdsNoClaim claims a → atMostOneClaim claims a.
Proof. intros Hn s t s' t' H _. by destruct (Hn s t). Qed.

(** The single-claim rule is kept by every step a call can make. *)
Lemma ClaimsStep_atMostOne d claims a :
  ClaimsStep isProcessAlive registry d claims →
  atMostOneClaim (readClaimsSync d) a → atMostOneClaim claims a.
Proof.
  intros Hstep Hone. destruct Hstep as [| |s0 t0 c0 Hfind Hfree|s0 t0].
  - done.
  - intros s t s' t' H1 H2.
    apply (proj1 (holdsFresh_purge _ _ _ _)) in H1.
    apply (proj1 (holdsFresh_purge _ _ _ _)) in H2. eauto.
  - assert (∀ s t, holdsFresh
              (setEntry (purge isProcessAlive registry (readClaimsSync d))
                 s0 t0 c0) a s t →
            ((s0, t0) = (s, t) ∧ c_agent c0 = a)
            ∨ ((s0, t0) ≠ (s, t) ∧ holdsFresh (readClaimsSync d) a s t))
      as Hcases.
    { intros s t (c & Hc & Ha & Hs). rewrite lookup2_setEntry in Hc.
      case_decide as Hd.
      - left. destruct Hd as [-> ->]. by simplify_eq.
      - right. split; [intros [= -> ->]; tauto|].
        apply (proj1 (holdsFresh_purge _ _ _ _)). by exists c. }
    intros s t s' t' H1 H2.
    destruct (Hcases _ _ H1) as [[E1 A1]|[N1 F1]],
             (Hcases _ _ H2) as [[E2 A2]|[N2 F2]].
    + congruence.
    + exfalso. destruct F2 as (c & Hc & Ha & Hs).
      eapply (findAgentClaim_None _ _ s' t' c); [exact Hfind| |congruence].
      apply lookup2_purge. tauto.
    + exfalso. destruct F1 as (c & Hc & Ha & Hs).
      eapply (findAgentClaim_None _ _ s t c); [exact Hfind| |congruence].
      apply lookup2_purge. tauto.
    + eauto.
  - intros s t s' t' H1 H2. apply Hone.
    + destruct H1 as (c & Hc & Ha & Hs). rewrite lookup2_deleteEntry in Hc.
      case_decide; [done|]. apply (proj1 (holdsFresh_purge _ _ _ _)). by exists c.
    + destruct H2 as (c & Hc & Ha & Hs). rewrite lookup2_deleteEntry in Hc.
      case_decide; [done|]. apply (proj1 (holdsFresh_purge _ _ _ _)). by exists c.
Qed.

Lemma runCalls_atMostOne calls d a :
  atMostOneClaim (readClaimsSync d) a →
  atMostOneClaim
    (readClaimsSync (runCalls isProcessAlive registry calls d)) a.
Proof.
  revert d. induction calls as [|c calls IH]; intros d Hone; [done|].
  simpl. apply IH. eapply ClaimsStep_atMostOne; [|done].
  apply runCall_step.
Qed.

(** With the lock held and no write fault, an agent that holds a fresh
    claim is refused, and told where its claim is. *)
Lemma claimTask_refused obs now s t a sid pid reason d s0 t0 :
  acquired isProcessAlive obs →
  atMostOneClaim (readClaimsSync d) a →
  holdsFresh (readClaimsSync d) a s0 t0 →
  (claimTask isProcessAlive registry obs noFaults now s t a sid pid reason d).2
  = Returned (ClaimAlreadyHaveClaim (s0, t0)).
Proof.
  intros Hacq Hone Hhold. unfold claimTask.
  rewrite withSwarmLock_acquired by done. rewrite claimTaskLocked_eq.
  destruct (findAgentClaim _ a) as [[s1 t1]|] eqn:Hf.
  - apply findAgentClaim_Some in Hf as (c & Hc & Ha).
    apply lookup2_purge in Hc as [Hc Hs].
    assert ((s1, t1) = (s0, t0)) as [= -> ->].
    { apply Hone; [by exists c|done]. }
    first [apply purge_write_result | apply purge_write_completions].
  - exfalso. destruct Hhold as (c & Hc & Ha & Hs).
    eapply (findAgentClaim_None _ _ s0 t0 c); [exact Hf| |done].
    apply lookup2_purge. tauto.
Qed.

(** What [claimTask] answers, with the lock held and no write fault. *)
Lemma claimTask_answer obs now s t a sid pid reason d :
  acquired isProcessAlive obs →
  let r := claimTask isProcessAlive registry obs noFaults now s t a sid pid
             reason d in
  completionsFile r.1 = completionsFile d
  ∧ ((∃ s' t', r.2 = Returned (ClaimAlreadyHaveClaim (s', t'))
               ∧ holdsFresh (readClaimsSync d) a s' t')
     ∨ (∃ c, r.2 = Returned (ClaimAlreadyClaimed c)
             ∧ holdsNoClaim (readClaimsSync d) a
             ∧ lookup2 (readClaimsSync d) s t = Some c
             ∧ isClaimStale isProcessAlive registry c = false)
     ∨ (r.2 = Returned (ClaimSuccess now)
        ∧ holdsNoClaim (readClaimsSync d) a
        ∧ (∀ c, lookup2 (readClaimsSync d) s t = Some c →
                isClaimStale isProcessAlive registry c = true)
        ∧ lookup2 (readClaimsSync r.1) s t
          = Some (mkClaim a sid pid now reason))).
Proof.
  intros Hacq. unfold claimTask. simpl.
  rewrite withSwarmLock_acquired by done. rewrite claimTaskLocked_eq.
  destruct (findAgentClaim _ a) as [[s1 t1]|] eqn:Hf.
  { split.
    - first [apply purge_write_result | apply purge_write_completions].
    - left. exists s1, t1. split.
      + first [apply purge_write_result | apply purge_write_completions].
      + apply findAgentClaim_Some in Hf as (c & Hc & Ha).
        apply lookup2_purge in Hc as [Hc Hs]. by exists c. }
  assert (holdsNoClaim (readClaimsSync d) a) as Hnone.
  { intros s' t' (c & Hc & Ha & Hs).
    eapply (findAgentClaim_None _ _ s' t' c); [exact Hf| |done].
    apply lookup2_purge. tauto. }
  destruct (lookup2 _ s t) as [c|] eqn:Hl.
  { split.
    - first [apply purge_write_result | apply purge_write_completions].
    - right; left. exists c. apply lookup2_purge in Hl as [Hc Hs].
      split; [|done].
      first [apply purge_write_result | apply purge_write_completions]. }
  split; [done|]. right; right. simpl. split; [done|]. split; [done|].
  split.
  - intros c Hc. destruct (isClaimStale _ _ c) eqn:Hs; [done|].
    assert (lookup2 (purge isProcessAlive registry (readClaimsSync d)) s t
            = Some c) as Hp by (apply lookup2_purge; tauto).
    congruence.
  - unfold readClaimsSync; simpl.
    rewrite lookup2_setEntry. by rewrite decide_True.
Qed.

(** Later calls never drop or change a completion record. *)
Lemma runCall_completion_kept c d s t k :
  lookup2 (readCompletionsSync d) s t = Some k →
  lookup2 (readCompletionsSync (runCall isProcessAlive registry c d)) s t
  = Some k.
Proof.
  intros Hk. unfold runCall, claimTask, unclaimTask, completeTask.
  assert (∀ {A} b claims (r : A),
    lookup2 (readCompletionsSync
      (bind (when b (writeClaimsSync (call_io c) claims))
            (λ _, ret r) d).1) s t = Some k) as Hsame.
  { intros A b claims r. unfold readCompletionsSync in *.
    by rewrite purge_write_completions. }
  destruct (call_op c) as [s1 t1 a sid pid reason|s1 t1 a|s1 t1 a notes].
  - destruct (withSwarmLock_state isProcessAlive (call_lock c)
      (claimTaskLocked isProcessAlive registry (call_io c) (call_now c)
         s1 t1 a sid pid reason) d) as [-> | ->]; [|done].
    rewrite claimTaskLocked_eq.
    repeat case_match; first [apply Hsame | apply (Hsame _ true)].
  - destruct (withSwarmLock_state isProcessAlive (call_lock c)
      (unclaimTaskLocked isProcessAlive registry (call_io c) s1 t1 a) d)
      as [-> | ->]; [|done].
    rewrite unclaimTaskLocked_eq.
    repeat case_match; first [apply Hsame | apply (Hsame _ true)].
  - destruct (withSwarmLock_state isProcessAlive (call_lock c)
      (completeTaskLocked isProcessAlive registry (call_io c) (call_now c)
         s1 t1 a notes) d) as [-> | ->]; [|done].
    rewrite completeTaskLocked_eq.
    destruct (lookup2 (readCompletionsSync d) s1 t1) as [k1|] eqn:Hk1;
      [apply Hsame|].
    destruct (lookup2 (purge isProcessAlive registry (readClaimsSync d))
                s1 t1) as [c1|]; [|apply Hsame].
    destruct (negb _); [apply Hsame|].
    unfold bind, writeCompletionsSync, writeClaimsSync, ret.
    destruct (completionsWriteOk (call_io c)); [|done].
    assert (lookup2 (setEntry (readCompletionsSync d) s1 t1
                       (mkCompletion a (call_now c) notes)) s t = Some k)
      as Hset.
    { rewrite lookup2_setEntry. case_decide as Hd; [|done].
      destruct Hd as [-> ->]. congruence. }
    by destruct (claimsWriteOk (call_io c)).
Qed.

Lemma runCalls_completion_kept calls d s t k :
  lookup2 (readCompletionsSync d) s t = Some k →
  lookup2 (readCompletionsSync (runCalls isProcessAlive registry calls d)) s t
  = Some k.
Proof.
  revert d. induction calls as [|c calls IH]; intros d Hk; [done|].
  simpl. apply IH. by apply runCall_completion_kept.
Qed.

End Holding.

(** ** The rule across restarts

    The registry and the liveness of processes change between calls.
    Counting every claim an agent has on disk, stale or not, the rule is
    kept whatever each call sees: a new claim is only written after the
    purge and the search for an earlier claim of the same agent. *)

Definition holdsAny (claims : AllClaims) (a s t : string) : Prop :=
  ∃ c, lookup2 claims s t = Some c ∧ c_agent c = a.

Definition atMostOneOnDisk (claims : AllClaims) (a : string) : Prop :=
  ∀ s t s' t', holdsAny claims a s t → holdsAny claims a s' t' →
               (s, t) = (s', t').

Lemma holdsAny_purge isProcessAlive registry claims a s t :
  holdsAny (purge isProcessAlive registry claims) a s t →
  holdsAny claims a s t.
Proof.
  intros (c & Hc & Ha). exists c. split; [|done].
  by apply lookup2_purge in Hc as [Hc _].
Qed.

Lemma ClaimsStep_atMostOneOnDisk isProcessAlive registry d claims a :
  ClaimsStep isProcessAlive registry d claims →
  atMostOneOnDisk (readClaimsSync d) a → atMostOneOnDisk claims a.
Proof.
  intros Hstep Hone. destruct Hstep as [| |s0 t0 c0 Hfind Hfree|s0 t0].
  - done.
  - intros s t s' t' H1%holdsAny_purge H2%holdsAny_purge. eauto.
  - assert (∀ s t, holdsAny
                (setEntry (purge isProcessAlive registry (readClaimsSync d))
                   s0 t0 c0) a s t →
              ((s0, t0) = (s, t) ∧ c_agent c0 = a)
              ∨ holdsAny (purge isProcessAlive registry (readClaimsSync d))
                  a s t) as Hcases.
    { intros s t (c & Hc & Ha). rewrite lookup2_setEntry in Hc.
      case_decide as Hd.
      - left. destruct Hd as [-> ->]. by simplify_eq.
      - right. by exists c. }
    intros s t s' t' H1 H2.
    destruct (Hcases _ _ H1) as [[E1 A1]|F1],
             (Hcases _ _ H2) as [[E2 A2]|F2].
    + congruence.
    + exfalso. destruct F2 as (c & Hc & Ha).
      eapply (findAgentClaim_None _ _ s' t' c); [exact Hfind|done|congruence].
    + exfalso. destruct F1 as (c & Hc & Ha).
      eapply (findAgentClaim_None _ _ s t c); [exact Hfind|done|congruence].
    + apply holdsAny_purge in F1, F2. eauto.
  - intros s t s' t' H1 H2. apply Hone.
    + destruct H1 as (c & Hc & Ha). rewrite lookup2_deleteEntry in Hc.
      case_decide; [done|]. apply (holdsAny_purge isProcessAlive registry).
      by exists c.
    + destruct H2 as (c & Hc & Ha). rewrite lookup2_deleteEntry in Hc.
      case_decide; [done|]. apply (holdsAny_purge isProcessAlive registry).
      by exists c.
Qed.

(** A call together with the world it runs in. *)
Record SituatedCall : Type := mkSituated {
  sc_alive : Z → bool;
  sc_registry : Registry;
  sc_call : SwarmCall
}.

Definition runSituated (cs : list SituatedCall) (d : Disk) : Disk :=
  foldl (λ d c, runCall (sc_alive c) (sc_registry c) (sc_call c) d) d cs.

Lemma single_claim_survives_restarts cs d a :
  atMostOneOnDisk (readClaimsSync d) a →
  atMostOneOnDisk (readClaimsSync (runSituated cs d)) a
  ∧ ∀ isProcessAlive registry,
      atMostOneClaim isProcessAlive registry
        (readClaimsSync (runSituated cs d)) a.
Proof.
  intros Hone.
  assert (atMostOneOnDisk (readClaimsSync (runSituated cs d)) a) as Hend.
  { revert d Hone. induction cs as [|c cs IH]; intros d Hone; [done|].
    simpl. apply IH.
    eapply ClaimsStep_atMostOneOnDisk; [apply runCall_step|done]. }
  split; [exact Hend|].
  intros isProcessAlive registry s t s' t' (c & Hc & Ha & _) (c' & Hc' & Ha' & _).
  apply Hend; [by exists c|by exists c'].
Qed.

(** ** Fixtures: two live agents and a spec with tasks *)

Definition everyoneAlive : Z → bool := λ _, true.

Definition regOf (name : string) (pid : Z) (sessionId : string)
  : AgentRegistration :=
  mkReg name pid sessionId "/work" "unknown" "t0" [] None None false
        (mkSession 0 0 []) "t0" None.

Definition twoAgents : Registry :=
  {[ "A" := RegOk (regOf "A" 100 "s1"); "B" := RegOk (regOf "B" 101 "s2") ]}.

Definition emptyDisk : Disk := mkDisk Absent Absent.

Definition claimOfA : ClaimEntry := mkClaim "A" "s1" 100 "t1" None.

Definition doneByA : CompletionEntry :=
  mkCompletion "A" "t2" (Some "work done").

(** The disk of scenario S5 after the claims write failed: the completion
    of T-7 is recorded and the claim of A on it is still there. *)
Definition diskS5 : Disk :=
  mkDisk (Json {[ "spec.md" := {[ "T-7" := claimOfA ]} ]})
         (Json {[ "spec.md" := {[ "T-7" := doneByA ]} ]}).

(** ** The stale-claim purge *)

(** The purge on a claims object without ["__proto__"] keys (for
    [cleanupStaleClaims], on any claims object) is idempotent: a second
    [cleanupStaleClaims] returns the same object and removes nothing,
    and [filterStaleClaims] applied twice equals it applied once. The
    two compute the same object, which keeps exactly the entries that
    are not stale per [isClaimStale], each unchanged, so whatever is
    missing afterwards was stale. *)
Lemma stale_purge_plain_keys
    (isProcessAlive : Z → bool) (registry : Registry) (claims : AllClaims) :
  let cleanup := cleanupStaleClaims isProcessAlive registry in
  let filtered := filterStaleClaims isProcessAlive registry in
  (cleanup (cleanup claims).1 = ((cleanup claims).1, 0%nat))
  ∧ filtered (filtered claims) = filtered claims
  ∧ (∀ s t c, lookup2 (cleanup claims).1 s t = Some c
              ↔ lookup2 claims s t = Some c
                ∧ isClaimStale isProcessAlive registry c = false)
  ∧ (∀ s t c, lookup2 claims s t = Some c →
              lookup2 (cleanup claims).1 s t = None →
              isClaimStale isProcessAlive registry c = true)
  ∧ (∀ s t c, lookup2 (filtered claims) s t = Some c
              ↔ lookup2 claims s t = Some c
                ∧ isClaimStale isProcessAlive registry c = false
                ∧ s ≠ "__proto__" ∧ t ≠ "__proto__")
  ∧ (plainKeys claims → (cleanup claims).1 = filtered claims).
Proof.
  simpl. split; [|split; [|split; [|split; [|split]]]].
  - apply injective_projections; simpl.
    + rewrite !cleanupStaleClaims_fst. apply purge_idemp.
    + rewrite cleanupStaleClaims_snd, cleanupStaleClaims_fst.
      apply staleCount_purge.
  - rewrite (filterStaleClaims_eq _ _ claims).
    rewrite filterStaleClaims_plain; [apply purge_idemp|].
    apply purge_plainKeys.
  - intros s t c. rewrite cleanupStaleClaims_fst. apply lookup2_purge.
  - intros s t c Hc Hnone. rewrite cleanupStaleClaims_fst in Hnone.
    destruct (isClaimStale isProcessAlive registry c) eqn:Hs; [done|].
    assert (lookup2 (purge isProcessAlive registry claims) s t = Some c)
      as Hp by (apply lookup2_purge; tauto).
    congruence.
  - intros s t c. rewrite filterStaleClaims_eq, lookup2_purge.
    rewrite lookup2_stripProto. tauto.
  - intros Hplain.
    by rewrite cleanupStaleClaims_fst, filterStaleClaims_plain.
Qed.




(** ** Claiming a task that is already completed *)

(** C1, refuted as stated. With a completion of ("spec.md", "T-7") on
    record, agent B's [claimTask] on it succeeds when no claim is left,
    and answers [already_claimed] when A's claim is still there. *)
Lemma claimTask_on_completed_task_cex :
  lookup2 (readCompletionsSync diskS5) "spec.md" "T-7" = Some doneByA
  ∧ (claimTask everyoneAlive twoAgents lockFree noFaults "t3"
       "spec.md" "T-7" "B" "s2" 101 None
       (mkDisk Absent (completionsFile diskS5))).2
    = Returned (ClaimSuccess "t3")
  ∧ (claimTask everyoneAlive twoAgents lockFree noFaults "t3"
       "spec.md" "T-7" "B" "s2" 101 None diskS5).2
    = Returned (ClaimAlreadyClaimed claimOfA).
Proof. vm_compute. auto. Qed.

(** C1, amended. [claimTask] does not consult completions.json. On a
    state that records a completion for (specPath, taskId), a spec path
    and a task id that are not names of members of [Object.prototype],
    with the lock held and no write fault, it leaves completions.json as
    it is and answers [already_have_claim] when the agent holds a
    non-stale claim, otherwise [already_claimed] when (specPath, taskId)
    has a non-stale claim, otherwise success, writing the new claim. The
    operation that answers [already_completed] there is [completeTask]. *)
Theorem claimTask_ignores_completions
    (isProcessAlive : Z → bool) (registry : Registry) (obs : nat → LockObs)
    (now specPath taskId agent sessionId : string) (pid : Z)
    (reason notes : option string) (d : Disk) (k : CompletionEntry) :
  ordinaryKey specPath = true →
  ordinaryKey taskId = true →
  lookup2 (readCompletionsSync d) specPath taskId = Some k →
  acquired isProcessAlive obs →
  let r := claimTask isProcessAlive registry obs noFaults now
             specPath taskId agent sessionId pid reason d in
  completionsFile r.1 = completionsFile d
  ∧ ((∃ s' t', r.2 = Returned (ClaimAlreadyHaveClaim (s', t'))
               ∧ holdsFresh isProcessAlive registry (readClaimsSync d)
                   agent s' t')
     ∨ (∃ c, r.2 = Returned (ClaimAlreadyClaimed c)
             ∧ holdsNoClaim isProcessAlive registry (readClaimsSync d) agent
             ∧ lookup2 (readClaimsSync d) specPath taskId = Some c
             ∧ isClaimStale isProcessAlive registry c = false)
     ∨ (r.2 = Returned (ClaimSuccess now)
        ∧ holdsNoClaim isProcessAlive registry (readClaimsSync d) agent
        ∧ (∀ c, lookup2 (readClaimsSync d) specPath taskId = Some c →
                isClaimStale isProcessAlive registry c = true)
        ∧ lookup2 (readClaimsSync r.1) specPath taskId
          = Some (mkClaim agent sessionId pid now reason)))
  ∧ (completeTask isProcessAlive registry obs noFaults now
       specPath taskId agent notes d).2
    = Returned (CompleteAlreadyCompleted k).
Proof.
  intros _ _ Hk Hacq. simpl.
  destruct (claimTask_answer isProcessAlive registry obs now specPath taskId
              agent sessionId pid reason d Hacq) as [Hfile Hans].
  split; [exact Hfile|]. split; [exact Hans|].
  unfold completeTask. rewrite withSwarmLock_acquired by done.
  rewrite completeTaskLocked_eq, Hk. apply purge_write_result.
Qed.

Lemma claimTask_ignores_completions_witness :
  (completeTask everyoneAlive twoAgents lockFree noFaults "t3"
     "spec.md" "T-7" "B" None diskS5).2
  = Returned (CompleteAlreadyCompleted doneByA).
Proof.
  apply (claimTask_ignores_completions everyoneAlive twoAgents lockFree
           "t3" "spec.md" "T-7" "B" "s2" 101 None None diskS5 doneByA).
  - reflexivity.
  - reflexivity.
  - vm_compute. reflexivity.
  - reflexivity.
Defined.

(** ** The single-claim rule *)

(** C2. Whatever the liveness probe and the registry, if agent [a] holds
    no non-stale claim on the initial disk, then after any sequence of
    [claimTask], [unclaimTask] and [completeTask] calls (by any agents,
    with any lock observations and write faults) [a] holds at most one
    non-stale claim across all specs; and in any state so reached where
    [a] holds a non-stale claim on (s0, t0), a [claimTask] by [a] that
    gets the lock answers [already_have_claim] with existing = (s0, t0). *)
Theorem single_claim_per_agent
    (isProcessAlive : Z → bool) (registry : Registry) (a : string)
    (d0 : Disk) (calls : list SwarmCall) :
  holdsNoClaim isProcessAlive registry (readClaimsSync d0) a →
  let d := runCalls isProcessAlive registry calls d0 in
  atMostOneClaim isProcessAlive registry (readClaimsSync d) a
  ∧ ∀ obs now specPath taskId sessionId pid reason s0 t0,
      holdsFresh isProcessAlive registry (readClaimsSync d) a s0 t0 →
      acquired isProcessAlive obs →
      (claimTask isProcessAlive registry obs noFaults now
         specPath taskId a sessionId pid reason d).2
      = Returned (ClaimAlreadyHaveClaim (s0, t0)).
Proof.
  intros Hnone d.
  assert (atMostOneClaim isProcessAlive registry (readClaimsSync d) a)
    as Hone.
  { apply runCalls_atMostOne. by apply holdsNoClaim_atMostOne. }
  split; [exact Hone|].
  intros obs now specPath taskId sessionId pid reason s0 t0 Hhold Hacq.
  by apply claimTask_refused.
Qed.

(** Scenario S4: after A claimed T-1, its claim of T-2 is refused with
    the location of T-1. *)
Lemma single_claim_per_agent_witness :
  (claimTask everyoneAlive twoAgents lockFree noFaults "t2"
     "spec.md" "T-2" "A" "s1" 100 None
     (runCalls everyoneAlive twoAgents
        [mkCall (OpClaim "spec.md" "T-1" "A" "s1" 100 None)
                lockFree noFaults "t1"]
        emptyDisk)).2
  = Returned (ClaimAlreadyHaveClaim ("spec.md", "T-1")).
Proof.
  apply (single_claim_per_agent everyoneAlive twoAgents "A" emptyDisk
           [mkCall (OpClaim "spec.md" "T-1" "A" "s1" 100 None)
                   lockFree noFaults "t1"]).
  - intros s t (c & Hc & _).
    assert (lookup2 (readClaimsSync emptyDisk) s t = @None ClaimEntry)
      as He by apply lookup2_empty.
    congruence.
  - exists (mkClaim "A" "s1" 100 "t1" None). vm_compute. auto.
  - reflexivity.
Defined.

(** ** Completing a task *)

(** C3, refuted as stated. A completes T-7 and the claims write fails
    after the completions write went through: the completion is on disk,
    and so is A's claim, which is not stale (A is alive and registered
    under the same session): the purge removes nothing. *)
Lemma completeTask_leftover_claim_cex :
  let d := mkDisk (claimsFile diskS5) Absent in
  let r := completeTask everyoneAlive twoAgents lockFree (mkIo false true)
             "t2" "spec.md" "T-7" "A" (Some "work done") d in
  r.2 = Threw "writeClaimsSync failed"
  ∧ r.1 = diskS5
  ∧ lookup2 (readClaimsSync r.1) "spec.md" "T-7" = Some claimOfA
  ∧ isClaimStale everyoneAlive twoAgents claimOfA = false
  ∧ cleanupStaleClaims everyoneAlive twoAgents (readClaimsSync r.1)
    = (readClaimsSync r.1, 0%nat).
Proof. vm_compute. auto. Qed.

(** C3, amended. For a spec path and a task id that are not names of
    members of [Object.prototype]: when the caller holds the non-stale
    claim on an uncompleted task and gets the lock, [completeTask] writes
    completions.json before claims.json: without faults both are written
    and it succeeds; if the completions write fails nothing is written;
    if the claims write fails the call throws with the completion record
    already on disk and claims.json as it was. The claim left there is
    not stale while the registry and liveness stay as they are (the purge
    keeps it); it goes away when its holder unclaims it, or with the
    purge once it has become stale. In either case no later sequence of
    claim, unclaim and complete calls loses the completion record. *)
Theorem completeTask_writes_completion_first
    (isProcessAlive : Z → bool) (registry : Registry) (obs : nat → LockObs)
    (now specPath taskId agent : string) (notes : option string)
    (d : Disk) (c : ClaimEntry) :
  ordinaryKey specPath = true →
  ordinaryKey taskId = true →
  acquired isProcessAlive obs →
  lookup2 (readCompletionsSync d) specPath taskId = None →
  lookup2 (readClaimsSync d) specPath taskId = Some c →
  isClaimStale isProcessAlive registry c = false →
  c_agent c = agent →
  let k := mkCompletion agent now notes in
  let run io := completeTask isProcessAlive registry obs io now
                  specPath taskId agent notes d in
  ((run noFaults).2 = Returned (CompleteSuccess now)
   ∧ lookup2 (readCompletionsSync (run noFaults).1) specPath taskId = Some k
   ∧ lookup2 (readClaimsSync (run noFaults).1) specPath taskId = None)
  ∧ (run (mkIo true false) = (d, Threw "writeCompletionsSync failed"))
  ∧ ((run (mkIo false true)).2 = Threw "writeClaimsSync failed"
     ∧ lookup2 (readCompletionsSync (run (mkIo false true)).1)
         specPath taskId = Some k
     ∧ claimsFile (run (mkIo false true)).1 = claimsFile d
     ∧ lookup2 (cleanupStaleClaims isProcessAlive registry
                  (readClaimsSync (run (mkIo false true)).1)).1
         specPath taskId = Some c
     ∧ (let u := unclaimTask isProcessAlive registry obs noFaults
                   specPath taskId agent (run (mkIo false true)).1 in
        u.2 = Returned UnclaimSuccess
        ∧ lookup2 (readClaimsSync u.1) specPath taskId = None)
     ∧ (∀ isProcessAlive' registry',
          isClaimStale isProcessAlive' registry' c = true →
          lookup2 (cleanupStaleClaims isProcessAlive' registry'
                     (readClaimsSync (run (mkIo false true)).1)).1
            specPath taskId = None))
  ∧ (∀ io calls, completionsWriteOk io = true →
       lookup2 (readCompletionsSync
                  (runCalls isProcessAlive registry calls (run io).1))
         specPath taskId = Some k).
Proof.
  intros _ _ Hacq Hk Hc Hfresh Hagent k run.
  assert (lookup2 (purge isProcessAlive registry (readClaimsSync d))
            specPath taskId = Some c) as Hp.
  { apply lookup2_purge. tauto. }
  assert (negb (c_agent c =? agent)%string = false) as Hmine.
  { rewrite Hagent. by rewrite String.eqb_refl. }
  assert (∀ io, run io =
    bind (writeCompletionsSync io
            (setEntry (readCompletionsSync d) specPath taskId k))
         (λ _, bind (writeClaimsSync io
                       (deleteEntry
                          (purge isProcessAlive registry (readClaimsSync d))
                          specPath taskId))
                    (λ _, ret (CompleteSuccess now))) d) as Hrun.
  { intros io. unfold run, completeTask.
    rewrite withSwarmLock_acquired by done.
    by rewrite completeTaskLocked_eq, Hk, Hp, Hmine. }
  assert (lookup2 (setEntry (readCompletionsSync d) specPath taskId k)
            specPath taskId = Some k) as Hset.
  { rewrite lookup2_setEntry. by rewrite decide_True. }
  split; [|split; [|split]].
  - rewrite Hrun. unfold bind, writeCompletionsSync, writeClaimsSync, ret.
    simpl. split; [done|]. split; [exact Hset|].
    unfold readClaimsSync; simpl.
    rewrite lookup2_deleteEntry. by rewrite decide_True.
  - rewrite Hrun. reflexivity.
  - rewrite Hrun. unfold bind, writeCompletionsSync, writeClaimsSync, ret.
    simpl. split; [done|]. split; [exact Hset|]. split; [done|].
    change (readClaimsSync
              {| claimsFile := claimsFile d;
                 completionsFile :=
                   Json (setEntry (readCompletionsSync d) specPath taskId k) |})
      with (readClaimsSync d).
    split; [by rewrite cleanupStaleClaims_fst|]. split.
    + unfold unclaimTask. rewrite withSwarmLock_acquired by done.
      rewrite unclaimTaskLocked_eq.
      change (readClaimsSync
                {| claimsFile := claimsFile d;
                   completionsFile :=
                     Json (setEntry (readCompletionsSync d)
                             specPath taskId k) |})
        with (readClaimsSync d).
      rewrite Hp, Hmine.
      unfold bind, writeClaimsSync, ret. simpl. split; [done|].
      unfold readClaimsSync; simpl.
      rewrite lookup2_deleteEntry. by rewrite decide_True.
    + intros alive' reg' Hstale. rewrite cleanupStaleClaims_fst.
      destruct (lookup2 (purge alive' reg' (readClaimsSync d))
                  specPath taskId) as [c'|] eqn:Hl; [|done].
      apply lookup2_purge in Hl as [Hl Hs]. congruence.
  - intros io calls Hio. apply runCalls_completion_kept.
    rewrite Hrun. unfold bind, writeCompletionsSync, writeClaimsSync, ret.
    rewrite Hio. by destruct (claimsWriteOk io).
Qed.

(** Scenario S5 with the claims write failing: the completion of T-7 is
    on disk even though the call threw. *)
Lemma completeTask_writes_completion_first_witness :
  lookup2 (readCompletionsSync
     (completeTask everyoneAlive twoAgents lockFree (mkIo false true)
        "t2" "spec.md" "T-7" "A" (Some "work done")
        (mkDisk (claimsFile diskS5) Absent)).1) "spec.md" "T-7"
  = Some doneByA.
Proof.
  apply (completeTask_writes_completion_first everyoneAlive twoAgents
           lockFree "t2" "spec.md" "T-7" "A" (Some "work done")
           (mkDisk (claimsFile diskS5) Absent) claimOfA).
  - reflexivity.
  - reflexivity.
  - reflexivity.
  - vm_compute. reflexivity.
  - vm_compute. reflexivity.
  - vm_compute. reflexivity.
  - reflexivity.
Defined.

(** ** The swarm lock: staleness and retries *)

Definition isOpen (e : LockEvent) : bool :=
  match e with EvOpen _ => true | _ => false end.

Definition isSleep (e : LockEvent) : bool :=
  match e with EvSleep _ => true | _ => false end.

(** How many events of a trace satisfy a test. *)
Fixpoint countEvents (p : LockEvent → bool) (tr : list LockEvent) : nat :=
  match tr with
  | [] => 0
  | e :: tr' => ((if p e then 1 else 0) + countEvents p tr')%nat
  end.

(** Every sleep of the trace lasts [retryDelay]. *)
Definition sleepsAre (ms : Z) (tr : list LockEvent) : Prop :=
  ∀ ms', EvSleep ms' ∈ tr → ms' = ms.

Lemma countEvents_app p tr1 tr2 :
  countEvents p (tr1 ++ tr2) = (countEvents p tr1 + countEvents p tr2)%nat.
Proof. induction tr1 as [|e tr1 IH]; simpl; [done|]. rewrite IH. lia. Qed.

Section LockFacts.

Variable isProcessAlive : Z → bool.


Lemma removeEvents_count (tries : list bool) :
  countEvents isOpen (EvRemoveStale <$> tries) = 0%nat
  ∧ countEvents isSleep (EvRemoveStale <$> tries) = 0%nat
  ∧ sleepsAre retryDelay (EvRemoveStale <$> tries).
Proof.
  unfold sleepsAre. induction tries as [|b tries (IHo & IHs & IHd)]; simpl.
  - split; [done|split; [done|]]. intros ms Hin. by apply elem_of_nil in Hin.
  - split; [done|split; [done|]]. intros ms Hin.
    apply elem_of_cons in Hin as [Hin|Hin]; [discriminate|by apply IHd].
Qed.

Lemma staleEvents_count o :
  countEvents isOpen (staleEvents isProcessAlive o) = 0%nat
  ∧ countEvents isSleep (staleEvents isProcessAlive o) = 0%nat
  ∧ sleepsAre retryDelay (staleEvents isProcessAlive o).
Proof.
  unfold staleEvents.
  destruct (obs_lock o) as [l|]; [destruct (removesLock _ _ l)|];
    apply removeEvents_count || apply (removeEvents_count []).
Qed.

Lemma unlinkAttempts_nonempty o l : unlinkAttempts o l ≠ [].
Proof.
  unfold unlinkAttempts.
  by destruct (lock_content l); [destruct (obs_unlinkOk o)|].
Qed.



(** A free lock, or a stale one, is taken at once; the stale one is
    unlinked before the open attempt. *)
Lemma acquireLoop_first obs n :
  afterStaleCheck isProcessAlive (obs 0%nat) = None →
  obs_openError (obs 0%nat) = None →
  acquireLoop isProcessAlive obs 0 (S n)
  = (staleEvents isProcessAlive (obs 0%nat) ++ [EvOpen true], Returned tt).
Proof. intros Hfree Hopen. simpl. by rewrite Hfree, Hopen. Qed.



End LockFacts.





(** ** The processing pass *)

(** What a pass does with one listed file: read it, hand the message to
    the callback if it parsed, unlink it (a second time from the catch
    block if the first unlink threw after a delivery). *)
Definition fileEvents (unlinkOk : string → bool) (deliverFn : DeliverFn)
    (inbox : string) (dir : InboxDir) (file : string) : list StoreEvent :=
  [EvRead inbox file]
  ++ match dir !! file with
     | Some (FileMessage m) => [EvDeliver file m (deliverFn m)]
     | _ => []
     end
  ++ [EvUnlink inbox file (unlinkOk file)]
  ++ match dir !! file with
     | Some (FileMessage m) =>
         if deliverFn m && negb (unlinkOk file)
         then [EvUnlink inbox file false] else []
     | _ => []
     end.

Lemma listJson_elem dir f :
  f ∈ listJson dir ↔ is_Some (dir !! f) ∧ endsWith ".json" f = true.
Proof.
  unfold listJson. rewrite merge_sort_Permutation.
  rewrite list_elem_of_filter, list_elem_of_fmap. split.
  - intros [He ([k x] & -> & Hin)]. apply elem_of_map_to_list in Hin.
    simpl in *. eauto.
  - intros [[x Hx] He]. split; [done|].
    exists (f, x). split; [done|]. by apply elem_of_map_to_list.
Qed.

Lemma listJson_NoDup dir : NoDup (listJson dir).
Proof.
  unfold listJson. rewrite merge_sort_Permutation.
  apply NoDup_filter, NoDup_fst_map_to_list.
Qed.


Section Pass.

Variable unlinkOk : string → bool.
Variable deliverFn : DeliverFn.
Variable inbox : string.

Lemma processFile_eq file dir :
  processFile unlinkOk deliverFn inbox file dir
  = (unlinkIn unlinkOk file dir, fileEvents unlinkOk deliverFn inbox dir file).
Proof.
  unfold processFile, fileEvents.
  destruct (dir !! file) as [[| |m]|]; simpl; try done.
  destruct (deliverFn m); simpl; [|done]. by destruct (unlinkOk file).
Qed.

Lemma unlinkIn_lookup_ne file g dir :
  g ≠ file → unlinkIn unlinkOk file dir !! g = dir !! g.
Proof.
  intros Hne. unfold unlinkIn. destruct (unlinkOk file); [|done].
  by rewrite lookup_delete_ne.
Qed.

Lemma fileEvents_ext dir dir' file :
  dir !! file = dir' !! file →
  fileEvents unlinkOk deliverFn inbox dir file
  = fileEvents unlinkOk deliverFn inbox dir' file.
Proof. unfold fileEvents. by intros ->. Qed.

(** Over a duplicate-free listing, every file is handled as the
    directory had it when the pass began. *)
Lemma processFiles_eq files dir :
  NoDup files →
  processFiles unlinkOk deliverFn inbox files dir
  = (foldl (λ d f, unlinkIn unlinkOk f d) dir files,
     mjoin (fileEvents unlinkOk deliverFn inbox dir <$> files)).
Proof.
  revert dir. induction files as [|f rest IH]; intros dir Hnd; [done|].
  apply NoDup_cons in Hnd as [Hf Hnd]. simpl.
  rewrite processFile_eq. simpl. rewrite IH by done. simpl.
  assert (fileEvents unlinkOk deliverFn inbox (unlinkIn unlinkOk f dir)
            <$> rest
          = fileEvents unlinkOk deliverFn inbox dir <$> rest) as ->; [|done].
  apply Forall_fmap_ext_1, Forall_forall. intros g Hg.
  apply fileEvents_ext, unlinkIn_lookup_ne. by intros ->.
Qed.

Lemma unlink_all_lookup files dir g :
  (∀ f, f ∈ files → unlinkOk f = true) →
  foldl (λ d f, unlinkIn unlinkOk f d) dir files !! g
  = if decide (g ∈ files) then None else dir !! g.
Proof.
  revert dir. induction files as [|f rest IH]; intros dir Hok; simpl.
  - done.
  - rewrite IH by (intros f' Hf'; apply Hok; by right).
    unfold unlinkIn. rewrite Hok by left.
    destruct (decide (g = f)) as [->|Hne].
    + rewrite lookup_delete_eq.
      destruct (decide (f ∈ rest)), (decide (f ∈ f :: rest)) as [|Hn];
        try done; exfalso; apply Hn; left.
    + rewrite lookup_delete_ne by done.
      destruct (decide (g ∈ rest)) as [Hin|Hin],
               (decide (g ∈ f :: rest)) as [Hin'|Hin']; try done.
      * exfalso. apply Hin'. by right.
      * exfalso. apply elem_of_cons in Hin' as [?|?]; done.
Qed.

End Pass.

(** The files a pass leaves when every unlink goes through. *)
Definition nonJson (dir : InboxDir) : InboxDir :=
  filter (λ kv : string * InboxFile, endsWith ".json" kv.1 = false) dir.

Lemma unlink_all_json unlinkOk dir :
  (∀ f, f ∈ listJson dir → unlinkOk f = true) →
  foldl (λ d f, unlinkIn unlinkOk f d) dir (listJson dir) = nonJson dir.
Proof.
  intros Hok. apply map_eq; intros g.
  rewrite unlink_all_lookup by done. unfold nonJson.
  case_decide as Hin.
  - apply listJson_elem in Hin as [_ He]. symmetry.
    apply map_lookup_filter_None. right. intros x _; simpl. congruence.
  - destruct (dir !! g) as [x|] eqn:Hg.
    + symmetry. apply map_lookup_filter_Some. split; [done|]. simpl.
      destruct (endsWith ".json" g) eqn:He; [|done].
      exfalso. apply Hin, listJson_elem. eauto.
    + symmetry. apply map_lookup_filter_None. by left.
Qed.

Lemma listJson_nonJson dir : listJson (nonJson dir) = [].
Proof.
  apply elem_of_nil_inv. intros f Hf.
  apply listJson_elem in Hf as [[x Hx] He].
  apply map_lookup_filter_Some in Hx as [_ Hx]. simpl in Hx. congruence.
Qed.


Definition bobState : MessengerState :=
  mkState "Bob" true [] None false (mkSession 0 0 []) "t0" None "unknown"
          None "t0".

Definition helloMsg : AgentMailMessage :=
  mkMsg "id-1" "Alice" "Bob" "hello" "t1" None.

(** Bob's inbox holds a message, a file that is not JSON, and a file
    that is not a message file. *)
Definition bobInbox : InboxDir :=
  {[ "200-bbb.json" := FileMalformed;
     "100-aaa.json" := FileMessage helloMsg;
     "notes.txt" := FileUnreadable ]}.

Definition bobFS : FS := mkFS ∅ {[ "Bob" := bobInbox ]}.

Definition idleModule : ModuleState := mkModule false None true.


(** The order is that of the code units, not of the numbers in the
    names. *)
Example listJson_order :
  listJson {[ "9-zzz.json" := FileMalformed; "10-aaa.json" := FileMalformed;
              "readme.md" := FileMalformed ]}
  = ["10-aaa.json"; "9-zzz.json"].
Proof. vm_compute. reflexivity. Qed.

(** ** Sending without validation *)








(** Names that [join] normalises to one component share that
    component's inbox; the message keeps the name as given. *)
Lemma sendMessageToAgentIo_resolved st to text replyTo uuid isoNow nowMs
    random fs name :
  resolveTarget to = TargetInbox name →
  ∃ fs', sendMessageToAgentIo st to text replyTo uuid isoNow nowMs random fs
         = Some (fs', Returned (mkMsg uuid (agentName st) to text isoNow
                                  replyTo))
         ∧ lookup2 (fs_inbox fs') name
             (pretty nowMs +:+ "-" +:+ random +:+ ".json")
           = Some (FileMessage (mkMsg uuid (agentName st) to text isoNow
                                  replyTo))
         ∧ fs_registry fs' = fs_registry fs.
Proof.
  intros Hres. unfold sendMessageToAgentIo. rewrite Hres.
  eexists. split; [done|]. unfold lookup2. simpl.
  by rewrite !lookup_insert_eq.
Qed.

Example resolveTarget_alias :
  resolveTarget "Bob/." = TargetInbox "Bob"
  ∧ resolveTarget "x/../Bob" = TargetInbox "Bob"
  ∧ resolveTarget "../registry" = TargetElsewhere
  ∧ resolveTarget "a/b" = TargetElsewhere
  ∧ resolveTarget "" = TargetElsewhere.
Proof. repeat apply conj; vm_compute; reflexivity. Qed.

(** ** Probing for a free name *)

(** A record at [name] does not stand in the way: there is none, it is
    malformed, or its process is dead. *)
Definition nameFree (isProcessAlive : Z → bool) (registry : Registry)
    (name : string) : bool :=
  match registry !! name with
  | None => true
  | Some RegMalformed => true
  | Some (RegOk reg) => negb (isProcessAlive (reg_pid reg))
  end.

Section Probe.

Variable isProcessAlive : Z → bool.

Lemma probeAlternatives_Some registry baseName i n name :
  probeAlternatives isProcessAlive registry baseName i n = Some name →
  ∃ j, (i ≤ j < i + n)%nat
       ∧ name = baseName +:+ pretty j
       ∧ nameFree isProcessAlive registry name = true
       ∧ ∀ k, (i ≤ k < j)%nat →
              nameFree isProcessAlive registry (baseName +:+ pretty k) = false.
Proof.
  revert i. induction n as [|n IH]; intros i; simpl; [done|].
  assert (nameFree isProcessAlive registry (baseName +:+ pretty i) = true →
          Some (baseName +:+ pretty i) = Some name →
          ∃ j, (i ≤ j < i + S n)%nat ∧ name = baseName +:+ pretty j
               ∧ nameFree isProcessAlive registry name = true
               ∧ ∀ k, (i ≤ k < j)%nat →
                   nameFree isProcessAlive registry (baseName +:+ pretty k)
                   = false) as Hhere.
  { intros Hfree [= <-]. exists i. split; [lia|]. split; [done|].
    split; [done|]. intros k Hk. lia. }
  unfold nameFree in *.
  destruct (registry !! (baseName +:+ pretty i)) as [[|altReg]|] eqn:Hl;
    [by apply Hhere|..|by apply Hhere].
  destruct (isProcessAlive (reg_pid altReg)) eqn:Halive; simpl in *;
    [|by apply Hhere].
  intros Hrest. destruct (IH _ Hrest) as (j & Hj & -> & Hfree & Hbefore).
  exists j. split; [lia|]. split; [done|]. split; [done|].
  intros k Hk. destruct (decide (k = i)) as [->|Hne].
  - by rewrite Hl, Halive.
  - apply Hbefore. lia.
Qed.

Lemma probeAlternatives_None registry baseName i n :
  probeAlternatives isProcessAlive registry baseName i n = None →
  ∀ k, (i ≤ k < i + n)%nat →
       nameFree isProcessAlive registry (baseName +:+ pretty k) = false.
Proof.
  revert i. induction n as [|n IH]; intros i; simpl; [intros; lia|].
  unfold nameFree in *.
  destruct (registry !! (baseName +:+ pretty i)) as [[|altReg]|] eqn:Hl;
    try done.
  destruct (isProcessAlive (reg_pid altReg)) eqn:Halive; simpl; [|done].
  intros Hrest k Hk. destruct (decide (k = i)) as [->|Hne].
  - by rewrite Hl, Halive.
  - apply (IH _ Hrest). lia.
Qed.

End Probe.

Arguments probeAlternatives : simpl never.

(** C10. [findAvailableName] returns the base name when no record
    stands in the way (none, malformed, or dead PID) and also when the
    record carries the caller's own PID, alive or not. When the base name
    is held by another live process it returns the first of base2 ..
    base99 that no record stands in the way of, or nothing; there the
    caller's PID is not consulted: the answer is the same for every
    caller, and an alternative whose record carries the caller's own live
    PID is passed over. *)
Theorem findAvailableName_own_pid
    (isProcessAlive : Z → bool) (ownPid : Z) (baseName : string)
    (registry : Registry) :
  let result := findAvailableName isProcessAlive ownPid baseName registry in
  (nameFree isProcessAlive registry baseName = true → result = Some baseName)
  ∧ (∀ existing, registry !! baseName = Some (RegOk existing) →
                 reg_pid existing = ownPid → result = Some baseName)
  ∧ (∀ existing, registry !! baseName = Some (RegOk existing) →
       isProcessAlive (reg_pid existing) = true →
       reg_pid existing ≠ ownPid →
       (∀ otherPid, reg_pid existing ≠ otherPid →
          findAvailableName isProcessAlive otherPid baseName registry = result)
       ∧ (∀ name, result = Some name →
            ∃ j, (2 ≤ j ≤ 99)%nat ∧ name = baseName +:+ pretty j
                 ∧ nameFree isProcessAlive registry name = true
                 ∧ ∀ k, (2 ≤ k < j)%nat →
                     nameFree isProcessAlive registry (baseName +:+ pretty k)
                     = false)
       ∧ (result = None →
            ∀ k, (2 ≤ k ≤ 99)%nat →
              nameFree isProcessAlive registry (baseName +:+ pretty k) = false)
       ∧ (∀ (j : nat) altReg,
            registry !! (baseName +:+ pretty j) = Some (RegOk altReg) →
            reg_pid altReg = ownPid → isProcessAlive ownPid = true →
            result ≠ Some (baseName +:+ pretty j))).
Proof.
  simpl. unfold findAvailableName, nameFree. split; [|split].
  - destruct (registry !! baseName) as [[|existing]|]; try done.
    by intros ->.
  - intros existing -> ->. rewrite Z.eqb_refl. by rewrite orb_true_r.
  - intros existing -> Halive Hother. rewrite Halive. simpl.
    rewrite (proj2 (Z.eqb_neq _ _) Hother).
    split; [|split; [|split]].
    + intros otherPid Hne. by rewrite (proj2 (Z.eqb_neq _ _) Hne).
    + intros name Hname.
      destruct (probeAlternatives_Some _ _ _ _ _ _ Hname)
        as (j & Hj & -> & Hfree & Hbefore).
      exists j. split; [lia|]. split; [done|]. split; [exact Hfree|].
      intros k Hk. apply Hbefore. lia.
    + intros Hnone k Hk.
      apply (probeAlternatives_None _ _ _ _ _ Hnone). lia.
    + intros j altReg Hl Hown Hlive Hres.
      destruct (probeAlternatives_Some _ _ _ _ _ _ Hres)
        as (j' & _ & _ & Hfree & _).
      unfold nameFree in Hfree. rewrite Hl, Hown, Hlive in Hfree. done.
Qed.

(** Swift is held by live process 100; Swift2 carries the caller's own
    PID 101; Swift3 is free. *)
Definition swiftRegistry : Registry :=
  {[ "Swift" := RegOk (regOf "Swift" 100 "s1");
     "Swift2" := RegOk (regOf "Swift2" 101 "s2") ]}.

Lemma findAvailableName_own_pid_witness :
  findAvailableName everyoneAlive 101 "Swift" swiftRegistry ≠ Some "Swift2".
Proof.
  apply (findAvailableName_own_pid everyoneAlive 101 "Swift" swiftRegistry)
    with (existing := regOf "Swift" 100 "s1") (j := 2%nat)
         (altReg := regOf "Swift2" 101 "s2").
  - reflexivity.
  - reflexivity.
  - simpl. lia.
  - reflexivity.
  - reflexivity.
  - reflexivity.
Defined.

(** Scenario S1 from the second process's side, and a re-join. *)
Example findAvailableName_next_free :
  findAvailableName everyoneAlive 102 "Swift" swiftRegistry = Some "Swift3".
Proof. vm_compute. reflexivity. Qed.

Example findAvailableName_rejoin :
  findAvailableName everyoneAlive 100 "Swift" swiftRegistry = Some "Swift".
Proof. vm_compute. reflexivity. Qed.

(** ** Renaming drains the inbox first *)

Definition isDeliver (e : StoreEvent) : bool :=
  match e with EvDeliver _ _ _ => true | _ => false end.





Lemma migrateInbox_no_deliver env oldName newName inboxes :
  Forall (λ e, isDeliver e = false)
         (migrateInbox env oldName newName inboxes).2.
Proof.
  unfold migrateInbox. simpl. apply Forall_app. split.
  - destruct (inboxes !! newName) as [dir|]; simpl.
    + destruct (readdirOk env); simpl; [|constructor].
      apply Forall_fmap, Forall_forall. by intros f _.
    + by repeat constructor.
  - by repeat constructor.
Qed.












Lemma readBack_verified ctx registry newName :
  (readBack ctx registry newName).1 = true →
  ∃ reg, registry !! newName = Some (RegOk reg) ∧ reg_pid reg = ctx_pid ctx.
Proof.
  unfold readBack.
  destruct (registry !! newName) as [[|reg]|]; simpl; try done.
  intros Hpid%Z.eqb_eq. eauto.
Qed.



Section RenameMore.

Variable isProcessAlive : Z → bool.
Variable isValidAgentName : string → bool.

(** The shape of a successful rename. *)
Lemma renameAgent_success_inv env ctx newName deliverFn w old new :
  let r := renameAgent isProcessAlive isValidAgentName env ctx newName
             deliverFn w in
  r.1.2 = RenameSuccess old new →
  let drained := processAllPendingMessages (unlinkOk env) deliverFn
                   (w_state w) (w_module w) (w_fs w) in
  let moved := migrateInbox env old new (fs_inbox drained.1.2) in
  old = agentName (w_state w) ∧ new = newName ∧ new ≠ old
  ∧ registered (w_state w) = true
  ∧ (oldRegUnlinkOk env = true → fs_registry (w_fs r.1.1) !! old = None)
  ∧ fs_inbox (w_fs r.1.1) = moved.1
  ∧ agentName (w_state r.1.1) = new
  ∧ pendingProcessArgs (w_module r.1.1) = pendingProcessArgs drained.1.1
  ∧ ∃ pre, r.2 = drained.2 ++ pre ++ moved.2
           ∧ Forall (λ e, isDeliver e = false) pre.
Proof.
  simpl. unfold renameAgent.
  destruct (registered (w_state w)) eqn:Hreg; simpl; [|done].
  destruct (isValidAgentName newName); simpl; [|done].
  destruct (String.eqb_spec newName (agentName (w_state w))) as [Hsame|Hdiff];
    simpl; [done|].
  destruct (liveCollision isProcessAlive ctx (fs_registry (w_fs w)) newName);
    simpl; [done|].
  destruct (regWriteOk env); simpl; [|done].
  destruct (readBack ctx _ newName) as [verified verifyError].
  simpl. destruct verified; simpl; [|done].
  intros [= <- <-].
  split; [done|]. split; [done|]. split; [done|]. split; [done|].
  split; [intros ->; apply lookup_delete_eq|]. split; [done|]. split; [done|].
  split; [done|].
  exists [EvRegWrite newName true; EvRegUnlink (agentName (w_state w))].
  split; [done|]. by repeat constructor.
Qed.

End RenameMore.
(** ** Renaming: the drain, the new record, and the outcomes *)

Definition busyModule : ModuleState := mkModule true None true.

Definition oldState : MessengerState :=
  mkState "Old" true [] None false (mkSession 0 0 []) "t0" None "unknown"
          None "t0".

Definition pidCtx : Ctx := mkCtx 100 "/work" "s1" (Some "m1") None "t5".

(** Scenario S3: three messages wait in inbox/Old. *)
Definition oldInbox : InboxDir :=
  {[ "100-aaa.json" := FileMessage (mkMsg "1" "P2" "Old" "one" "t1" None);
     "101-bbb.json" := FileMessage (mkMsg "2" "P2" "Old" "two" "t2" None);
     "102-ccc.json" := FileMessage (mkMsg "3" "P2" "Old" "three" "t3" None) ]}.

Definition oldWorld : World :=
  mkWorld idleModule oldState
          (mkFS {[ "Old" := RegOk (regOf "Old" 100 "s1") ]}
                {[ "Old" := oldInbox ]}).


Section RenameOutcome.

Variable isProcessAlive : Z → bool.
Variable isValidAgentName : string → bool.






End RenameOutcome.



(** Scenario S3 run in full: three deliveries, then the new record, and
    inbox/Old gone. *)
Example rename_scenario :
  let r := renameAgent everyoneAlive (λ _, true) quietEnv pidCtx "New"
             (λ _, true) oldWorld in
  r.1.2 = RenameSuccess "Old" "New"
  ∧ isDeliver <$> r.2
    = [false; true; false; false; true; false; false; true; false;
       false; false; false; false]
  ∧ fs_inbox (w_fs r.1.1) = {[ "New" := ∅ ]}
  ∧ agentName (w_state r.1.1) = "New".
Proof. vm_compute. auto. Qed.

(** *** What "a heading occurs in the input" means *)

Fixpoint allWhite (s : string) : bool :=
  match s with
  | String c rest => isWhite c && allWhite rest
  | EmptyString => true
  end.

(** [s] is the literal [lit] up to ASCII case. *)
Definition eqCI (lit s : string) : Prop := matchCI lit s = Some EmptyString.

(** The input contains [##], optional white space, [Verdict:], optional
    white space and one of the three keywords, in any letter case. *)
Definition hasVerdictHeading (output : string) : Prop :=
  ∃ pre ws1 v ws2 kw post,
    output = pre +:+ "##" +:+ ws1 +:+ v +:+ ws2 +:+ kw +:+ post
    ∧ allWhite ws1 = true ∧ eqCI "Verdict:" v ∧ allWhite ws2 = true
    ∧ (eqCI "SHIP" kw ∨ eqCI "NEEDS_WORK" kw ∨ eqCI "MAJOR_RETHINK" kw).

(** The input contains [##], optional white space, the word with an
    optional [s], optional white space and a line feed. *)
Definition hasSection (word output : string) : Prop :=
  ∃ pre ws1 h ws2 post,
    output = pre +:+ "##" +:+ ws1 +:+ h +:+ ws2 +:+ lf +:+ post
    ∧ allWhite ws1 = true
    ∧ (eqCI word h ∨ eqCI (word +:+ "s") h)
    ∧ allWhite ws2 = true.

(** Let [simpl] compute appends on literal prefixes. *)
Local Arguments String.append !_ _ / : simpl nomatch.

Lemma app_assoc_str (a b c : string) : (a +:+ b) +:+ c = a +:+ b +:+ c.
Proof. induction a as [|x a IH]; simpl; [done|]. by rewrite IH. Qed.

Lemma search_Some {A} (matchAt : string → option A) s a :
  search matchAt s = Some a →
  ∃ pre suf, s = pre +:+ suf ∧ matchAt suf = Some a.
Proof.
  induction s as [|c s IH]; simpl.
  - destruct (matchAt "") eqn:Hm; [|done]. intros [= ->].
    by exists "", "".
  - destruct (matchAt (String c s)) eqn:Hm.
    + intros [= ->]. by exists "", (String c s).
    + intros Hs. destruct (IH Hs) as (pre & suf & -> & Hsuf).
      by exists (String c pre), suf.
Qed.

Lemma search_found {A} (matchAt : string → option A) pre suf :
  is_Some (matchAt suf) → is_Some (search matchAt (pre +:+ suf)).
Proof.
  intros Hsuf. induction pre as [|c pre IH]; simpl.
  - destruct suf; simpl; destruct (matchAt _); try done; by destruct Hsuf.
  - by destruct (matchAt (String c (pre +:+ suf))).
Qed.

Lemma matchCI_Some lit s r :
  matchCI lit s = Some r → ∃ m, s = m +:+ r ∧ eqCI lit m.
Proof.
  unfold eqCI. revert s. induction lit as [|a lit IH]; intros s; simpl.
  - destruct s; intros [= <-]; by exists "".
  - destruct s as [|b s]; [done|].
    destruct (eqCharCI a b) eqn:Hab; [|done].
    intros H. destruct (IH _ H) as (m & -> & Hm).
    exists (String b m). simpl. by rewrite Hab.
Qed.

Lemma matchCI_app lit m r :
  eqCI lit m → matchCI lit (m +:+ r) = Some r.
Proof.
  unfold eqCI. revert m. induction lit as [|a lit IH]; intros m; simpl.
  - destruct m; [|done]. by destruct r.
  - destruct m as [|b m]; [done|]. simpl.
    destruct (eqCharCI a b); [|done]. apply IH.
Qed.

Lemma trimStart_split s :
  ∃ ws, s = ws +:+ trimStart s ∧ allWhite ws = true.
Proof.
  induction s as [|c s (ws & Hs & Hws)]; simpl; [by exists ""|].
  destruct (isWhite c) eqn:Hc; [|by exists ""].
  exists (String c ws). simpl. rewrite Hc, Hws. split; [|done].
  by rewrite <- Hs.
Qed.

Lemma trimStart_app ws s :
  allWhite ws = true → trimStart (ws +:+ s) = trimStart s.
Proof.
  induction ws as [|c ws IH]; simpl; [done|].
  intros [Hc Hws]%andb_true_iff. rewrite Hc. by apply IH.
Qed.

(** A text that is a letter-initial literal up to case does not start
    with white space. *)
Lemma eqCharCI_letter_not_white (a b : ascii) :
  (97 ≤ nat_of_ascii (toLowerAscii a) ≤ 122)%nat →
  eqCharCI a b = true → isWhite b = false.
Proof.
  unfold eqCharCI. intros Ha Hab%Ascii.eqb_eq. rewrite Hab in Ha.
  revert Ha. clear.
  destruct b as [[] [] [] [] [] [] [] []]; vm_compute; intros [? ?];
    first [reflexivity | lia].
Qed.

Lemma trimStart_letter lit m r a lit' :
  lit = String a lit' →
  (97 ≤ nat_of_ascii (toLowerAscii a) ≤ 122)%nat →
  eqCI lit m → trimStart (m +:+ r) = m +:+ r.
Proof.
  intros -> Ha. unfold eqCI. destruct m as [|b m]; simpl; [done|].
  destruct (eqCharCI a b) eqn:Hab; [|done]. intros _.
  by rewrite (eqCharCI_letter_not_white a b Ha Hab).
Qed.

Lemma whiteThenNewline_Some s r :
  whiteThenNewline s = Some r →
  ∃ ws, s = ws +:+ lf +:+ r ∧ allWhite ws = true.
Proof.
  revert r. induction s as [|c s IH]; intros r; simpl; [done|].
  destruct (isWhite c) eqn:Hc; [|done].
  destruct (whiteThenNewline s) as [r'|] eqn:Hw.
  - intros [= <-]. destruct (IH _ eq_refl) as (ws & -> & Hws).
    exists (String c ws). simpl. by rewrite Hc, Hws.
  - destruct (Ascii.eqb_spec c "010") as [->|]; [|done].
    intros [= <-]. by exists "".
Qed.

Lemma eqCharCI_hash a : eqCharCI "#" a = true → a = "#"%char.
Proof.
  destruct a as [[] [] [] [] [] [] [] []]; vm_compute; intros H;
    first [reflexivity | discriminate H].
Qed.

Lemma eqCI_hashes m : eqCI "##" m → m = "##".
Proof.
  unfold eqCI. destruct m as [|a [|b [|c m]]]; simpl; try done.
  - by destruct (eqCharCI "#" a).
  - destruct (eqCharCI "#" a) eqn:Ha; [|done].
    destruct (eqCharCI "#" b) eqn:Hb; [|done].
    by rewrite (eqCharCI_hash a Ha), (eqCharCI_hash b Hb).
  - destruct (eqCharCI "#" a); [|done]. by destruct (eqCharCI "#" b).
Qed.

Lemma search_verdict_sound output v :
  search matchVerdictAt output = Some v → hasVerdictHeading output.
Proof.
  intros Hs. apply search_Some in Hs as (pre & suf & -> & Hm).
  unfold matchVerdictAt in Hm.
  destruct (matchCI "##" suf) as [s1|] eqn:H1; [|done].
  destruct (matchCI "Verdict:" (trimStart s1)) as [s2|] eqn:H2; [|done].
  apply matchCI_Some in H1 as (m1 & -> & Hm1).
  apply eqCI_hashes in Hm1 as ->.
  destruct (trimStart_split s1) as (ws1 & Hs1 & Hws1).
  apply matchCI_Some in H2 as (v0 & Hv0 & Hv).
  destruct (trimStart_split s2) as (ws2 & Hs2 & Hws2).
  assert (∃ kw post, trimStart s2 = kw +:+ post
                     ∧ (eqCI "SHIP" kw ∨ eqCI "NEEDS_WORK" kw
                        ∨ eqCI "MAJOR_RETHINK" kw)) as (kw & post & Hkw & Hk).
  { unfold matchKeyword in Hm.
    destruct (matchCI "SHIP" (trimStart s2)) eqn:Ha.
    { apply matchCI_Some in Ha as (kw & -> & Hkw). eauto. }
    destruct (matchCI "NEEDS_WORK" (trimStart s2)) eqn:Hb.
    { apply matchCI_Some in Hb as (kw & -> & Hkw). eauto 6. }
    destruct (matchCI "MAJOR_RETHINK" (trimStart s2)) eqn:Hc; [|done].
    apply matchCI_Some in Hc as (kw & -> & Hkw). eauto 6. }
  exists pre, ws1, v0, ws2, kw, post. split; [|done].
  rewrite <- Hkw, <- Hs2, <- Hv0, <- Hs1. done.
Qed.

Lemma matchKeyword_found kw post :
  eqCI "SHIP" kw ∨ eqCI "NEEDS_WORK" kw ∨ eqCI "MAJOR_RETHINK" kw →
  is_Some (matchKeyword (kw +:+ post)).
Proof.
  intros Hk. unfold matchKeyword.
  destruct (matchCI "SHIP" (kw +:+ post)) eqn:Ha; [eauto|].
  destruct (matchCI "NEEDS_WORK" (kw +:+ post)) eqn:Hb; [eauto|].
  destruct (matchCI "MAJOR_RETHINK" (kw +:+ post)) eqn:Hc; [eauto|].
  destruct Hk as [Hk|[Hk|Hk]];
    rewrite (matchCI_app _ _ post Hk) in *; done.
Qed.

Lemma search_verdict_complete output :
  hasVerdictHeading output → is_Some (search matchVerdictAt output).
Proof.
  intros (pre & ws1 & v & ws2 & kw & post & -> & Hws1 & Hv & Hws2 & Hk).
  apply search_found. unfold matchVerdictAt.
  rewrite (matchCI_app "##" "##" _ eq_refl).
  rewrite trimStart_app by done.
  rewrite (trimStart_letter "Verdict:" v _ "V" "erdict:") by
    (first [done | vm_compute; lia]).
  rewrite (matchCI_app _ _ _ Hv).
  rewrite trimStart_app by done.
  assert (trimStart (kw +:+ post) = kw +:+ post) as ->.
  { destruct Hk as [Hk|[Hk|Hk]].
    - by apply (trimStart_letter "SHIP" kw _ "S" "HIP");
        first [done | vm_compute; lia].
    - by apply (trimStart_letter "NEEDS_WORK" kw _ "N" "EEDS_WORK");
        first [done | vm_compute; lia].
    - by apply (trimStart_letter "MAJOR_RETHINK" kw _ "M" "AJOR_RETHINK");
        first [done | vm_compute; lia]. }
  by apply matchKeyword_found.
Qed.

Lemma search_section_sound word output section :
  search (matchSectionAt word) output = Some section → hasSection word output.
Proof.
  intros Hs. apply search_Some in Hs as (pre & suf & -> & Hm).
  unfold matchSectionAt in Hm.
  destruct (matchCI "##" suf) as [s1|] eqn:H1; [|done].
  destruct (matchCI word (trimStart s1)) as [s2|] eqn:H2; [|done].
  apply matchCI_Some in H1 as (m1 & -> & Hm1).
  apply eqCI_hashes in Hm1 as ->.
  destruct (trimStart_split s1) as (ws1 & Hs1 & Hws1).
  apply matchCI_Some in H2 as (h & Hh0 & Hh).
  assert (∃ h' ws2 post, trimStart s1 = h' +:+ ws2 +:+ lf +:+ post
            ∧ (eqCI word h' ∨ eqCI (word +:+ "s") h')
            ∧ allWhite ws2 = true) as (h' & ws2 & post & Heq & Hh' & Hws2).
  { destruct (matchCI "s" s2) as [s3|] eqn:H3.
    - destruct (whiteThenNewline s3) as [s4|] eqn:H4.
      + apply matchCI_Some in H3 as (m3 & -> & Hm3).
        apply whiteThenNewline_Some in H4 as (ws2 & -> & Hws2).
        exists (h +:+ m3), ws2, s4. split; [by rewrite Hh0, app_assoc_str|].
        split; [|done]. right. unfold eqCI in *.
        clear -Hh Hm3. revert h Hh.
        induction word as [|a word IH]; intros h Hh; simpl in *.
        * by destruct h.
        * destruct h as [|b h]; [done|]. simpl.
          destruct (eqCharCI a b); [|done]. by apply IH.
      + destruct (whiteThenNewline s2) as [s4|] eqn:H5; [|done].
        apply whiteThenNewline_Some in H5 as (ws2 & -> & Hws2).
        exists h, ws2, s4. by eauto.
    - destruct (whiteThenNewline s2) as [s4|] eqn:H5; [|done].
      apply whiteThenNewline_Some in H5 as (ws2 & -> & Hws2).
      exists h, ws2, s4. by eauto. }
  exists pre, ws1, h', ws2, post. split; [|done].
  rewrite <- Heq, <- Hs1. done.
Qed.

(** The input contains [##]. *)
Definition hasHashes (output : string) : Prop :=
  ∃ pre post, output = pre +:+ "##" +:+ post.

Lemma search_hashes {A} (matchAt : string → option A) output a :
  (∀ s, is_Some (matchAt s) → is_Some (matchCI "##" s)) →
  search matchAt output = Some a → hasHashes output.
Proof.
  intros Hm Hs. apply search_Some in Hs as (pre & suf & -> & Hsuf).
  destruct (Hm suf) as [r Hr]; [eauto|].
  apply matchCI_Some in Hr as (m & -> & ->%eqCI_hashes).
  by exists pre, r.
Qed.

Lemma matchers_need_hashes :
  (∀ s, is_Some (matchVerdictAt s) → is_Some (matchCI "##" s))
  ∧ (∀ s, is_Some (matchSummaryAt s) → is_Some (matchCI "##" s))
  ∧ (∀ word s, is_Some (matchSectionAt word s) → is_Some (matchCI "##" s)).
Proof.
  unfold matchVerdictAt, matchSummaryAt, matchSectionAt.
  split; [|split]; intros; destruct (matchCI "##" s); eauto;
    by match goal with H : is_Some None |- _ => destruct H end.
Qed.

(** A review with an Issues section and no verdict line. *)
Definition issuesOnly : string := "## Issues" +:+ lf +:+ "- missing tests".

(** C8, refuted as stated. An input without any verdict heading but with
    an Issues section parses to NEEDS_WORK with that section's items:
    the issues list is not empty. *)
Lemma parseVerdict_issues_without_verdict_cex :
  ¬ hasVerdictHeading issuesOnly
  ∧ parseVerdict issuesOnly = mkReview NEEDS_WORK "" ["missing tests"] [].
Proof.
  split.
  - intros H%search_verdict_complete. vm_compute in H. by destruct H.
  - vm_compute. reflexivity.
Qed.

(** C8, amended. [parseVerdict] never fails; for every input in which no
    [## Verdict:] heading followed by SHIP, NEEDS_WORK or MAJOR_RETHINK
    occurs it returns the verdict NEEDS_WORK. The issues list is empty
    when the input has no [## Issue(s)] heading line, and the suggestions
    list when it has no [## Suggestion(s)] heading line; an input without
    [##] at all parses to NEEDS_WORK with empty summary, issues and
    suggestions. *)
Theorem parseVerdict_defaults (output : string) :
  ¬ hasVerdictHeading output →
  verdict (parseVerdict output) = NEEDS_WORK
  ∧ (¬ hasSection "Issue" output → issues (parseVerdict output) = [])
  ∧ (¬ hasSection "Suggestion" output → suggestions (parseVerdict output) = [])
  ∧ (¬ hasHashes output → parseVerdict output = mkReview NEEDS_WORK "" [] []).
Proof.
  intros Hnone. unfold parseVerdict. simpl.
  destruct matchers_need_hashes as (Hv & Hs & Hsec).
  split; [|split; [|split]].
  - destruct (search matchVerdictAt output) as [v|] eqn:Hm; [|done].
    exfalso. by apply Hnone, (search_verdict_sound output v).
  - intros Hno.
    destruct (search (matchSectionAt "Issue") output) as [sec|] eqn:Hm;
      [|done].
    exfalso. by apply Hno, (search_section_sound "Issue" output sec).
  - intros Hno.
    destruct (search (matchSectionAt "Suggestion") output) as [sec|] eqn:Hm;
      [|done].
    exfalso. by apply Hno, (search_section_sound "Suggestion" output sec).
  - intros Hno.
    destruct (search matchVerdictAt output) as [v|] eqn:H1.
    { exfalso. by apply Hno, (search_hashes matchVerdictAt output v). }
    destruct (search matchSummaryAt output) as [t|] eqn:H2.
    { exfalso. by apply Hno, (search_hashes matchSummaryAt output t). }
    destruct (search (matchSectionAt "Issue") output) as [i|] eqn:H3.
    { exfalso. apply Hno, (search_hashes (matchSectionAt "Issue") output i);
        [apply Hsec|done]. }
    destruct (search (matchSectionAt "Suggestion") output) as [g|] eqn:H4.
    { exfalso.
      apply Hno, (search_hashes (matchSectionAt "Suggestion") output g);
        [apply Hsec|done]. }
    done.
Qed.

Lemma parseVerdict_defaults_witness :
  verdict (parseVerdict "I could not review this.") = NEEDS_WORK.
Proof.
  apply (parseVerdict_defaults "I could not review this.").
  intros H%search_verdict_complete. vm_compute in H. by destruct H.
Defined.

(** ** More on the swarm operations *)

Section SwarmMore.

Variable isProcessAlive : Z → bool.
Variable registry : Registry.

Local Abbreviation stale := (isClaimStale isProcessAlive registry).
Local Abbreviation purgeOf := (purge isProcessAlive registry).

(** A claims object the purge has nothing to do on: no stale entry, no
    empty bucket. *)
Definition tidy (claims : AllClaims) : Prop :=
  (∀ s t c, lookup2 claims s t = Some c → stale c = false)
  ∧ (∀ s bucket, claims !! s = Some bucket → bucket ≠ ∅).

Lemma purge_tidy claims : tidy (purgeOf claims).
Proof.
  split.
  - intros s t c Hc. by apply lookup2_purge in Hc as [_ Hc].
  - intros s bucket. apply purge_bucket_nonempty.
Qed.

Lemma keepFresh_all_fresh (tasks : SpecClaims) :
  (∀ t c, tasks !! t = Some c → stale c = false) →
  keepFresh isProcessAlive registry tasks = tasks.
Proof.
  intros Hall. apply map_filter_id. intros t c Hc. simpl. by apply (Hall t).
Qed.

Lemma purge_of_tidy claims : tidy claims → purgeOf claims = claims.
Proof.
  intros [Hfresh Hfull]. apply map_eq; intros s.
  rewrite lookup_purge.
  destruct (claims !! s) as [bucket|] eqn:Hs; simpl; [|done].
  unfold purgeSpec. rewrite keepFresh_all_fresh.
  - rewrite decide_False; [done|].
    apply map_size_non_empty_iff. by apply (Hfull s).
  - intros t c Hc. apply (Hfresh s t). unfold lookup2. by rewrite Hs.
Qed.

Lemma setEntry_tidy claims s t c :
  tidy claims → stale c = false → tidy (setEntry claims s t c).
Proof.
  intros [Hfresh Hfull] Hc. split.
  - intros s' t' c'. rewrite lookup2_setEntry. case_decide.
    + by intros [= <-].
    + apply Hfresh.
  - intros s' bucket. unfold setEntry.
    destruct (decide (s = s')) as [<-|Hne].
    + rewrite lookup_insert_eq. intros [= <-]. apply insert_non_empty.
    + rewrite lookup_insert_ne by done. apply Hfull.
Qed.

(** Removing the entry just added gives the object back. *)
Lemma deleteEntry_setEntry (claims : AllClaims) s t c :
  lookup2 claims s t = None →
  (∀ s' bucket, claims !! s' = Some bucket → bucket ≠ ∅) →
  deleteEntry (setEntry claims s t c) s t = claims.
Proof.
  intros Hnone Hfull. unfold deleteEntry, setEntry, lookup2 in *.
  rewrite lookup_insert_eq.
  destruct (claims !! s) as [bucket|] eqn:Hs; simpl.
  - rewrite delete_insert_id by done.
    rewrite decide_False.
    + rewrite insert_insert_eq. by apply insert_id.
    + apply map_size_non_empty_iff. by apply (Hfull s).
  - rewrite delete_insert_id by apply lookup_empty.
    rewrite decide_True by apply map_size_empty.
    by rewrite delete_insert_id.
Qed.

(** With nothing counted as stale, every entry is fresh. *)
Lemma staleIn_zero (tasks : SpecClaims) t c :
  staleIn isProcessAlive registry tasks = 0%nat →
  tasks !! t = Some c → stale c = false.
Proof.
  unfold staleIn. intros Hz%map_size_empty_iff Hc.
  destruct (stale c) eqn:Hs; [|done].
  assert (filter (λ kv : string * ClaimEntry,
                    isClaimStale isProcessAlive registry kv.2 = true) tasks
          !! t = Some c) as Hin.
  { apply map_lookup_filter_Some. by split. }
  rewrite Hz in Hin. by rewrite lookup_empty in Hin.
Qed.

Lemma staleCount_zero (claims : AllClaims) s t c :
  staleCount isProcessAlive registry claims = 0%nat →
  lookup2 claims s t = Some c → stale c = false.
Proof.
  unfold staleCount, lookup2. revert s t c.
  induction claims as [|i x m Hi Hfirst IH] using map_first_key_ind;
    intros s t c.
  - by rewrite lookup_empty.
  - rewrite map_fold_insert_first_key by done. intros Hz.
    destruct (decide (s = i)) as [->|Hne].
    + rewrite lookup_insert_eq. apply staleIn_zero. lia.
    + rewrite lookup_insert_ne by done. apply IH. lia.
Qed.

(** What a reader finds on disk after the purged claims were written if
    anything had been removed: the fresh entries, and only those. *)
Lemma settled_lookup {A} (r : A) d s t :
  lookup2 (readClaimsSync
             (bind (when (0 <? staleCount isProcessAlive registry
                                 (readClaimsSync d))%nat
                      (writeClaimsSync noFaults (purgeOf (readClaimsSync d))))
                   (λ _, ret r) d).1) s t
  = lookup2 (purgeOf (readClaimsSync d)) s t.
Proof.
  destruct (0 <? staleCount isProcessAlive registry (readClaimsSync d))%nat
    eqn:Hrem; simpl; [done|].
  apply Nat.ltb_ge in Hrem.
  apply option_eq; intros c. rewrite lookup2_purge.
  split; [|tauto]. intros Hc. split; [done|].
  apply (staleCount_zero (readClaimsSync d) s t c); [lia|done].
Qed.



(** The task a call is about. *)
Definition target (op : SwarmOp) : string * string :=
  match op with
  | OpClaim s t _ _ _ _ => (s, t)
  | OpUnclaim s t _ => (s, t)
  | OpComplete s t _ _ => (s, t)
  end.

Lemma claimTask_frame obs now s t a sid pid reason d s' t' :
  acquired isProcessAlive obs → (s, t) ≠ (s', t') →
  lookup2 (readClaimsSync
    (claimTask isProcessAlive registry obs noFaults now s t a sid pid
       reason d).1) s' t'
  = lookup2 (purgeOf (readClaimsSync d)) s' t'.
Proof.
  intros Hacq Hne. unfold claimTask.
  rewrite withSwarmLock_acquired by done. rewrite claimTaskLocked_eq.
  destruct (findAgentClaim _ a); [apply settled_lookup|].
  destruct (lookup2 _ s t); [apply settled_lookup|].
  unfold readClaimsSync; simpl. rewrite lookup2_setEntry.
  rewrite decide_False; [done|]. intros [-> ->]. done.
Qed.

Lemma unclaimTask_frame obs s t a d s' t' :
  acquired isProcessAlive obs → (s, t) ≠ (s', t') →
  lookup2 (readClaimsSync
    (unclaimTask isProcessAlive registry obs noFaults s t a d).1) s' t'
  = lookup2 (purgeOf (readClaimsSync d)) s' t'.
Proof.
  intros Hacq Hne. unfold unclaimTask.
  rewrite withSwarmLock_acquired by done. rewrite unclaimTaskLocked_eq.
  destruct (lookup2 _ s t); [|apply settled_lookup].
  destruct (negb _); [apply settled_lookup|].
  unfold readClaimsSync; simpl. rewrite lookup2_deleteEntry.
  rewrite decide_False; [done|]. intros [-> ->]. done.
Qed.

Lemma completeTask_frame obs now s t a notes d s' t' :
  acquired isProcessAlive obs → (s, t) ≠ (s', t') →
  lookup2 (readClaimsSync
    (completeTask isProcessAlive registry obs noFaults now s t a notes d).1)
    s' t'
  = lookup2 (purgeOf (readClaimsSync d)) s' t'.
Proof.
  intros Hacq Hne. unfold completeTask.
  rewrite withSwarmLock_acquired by done. rewrite completeTaskLocked_eq.
  destruct (lookup2 (readCompletionsSync d) s t); [apply settled_lookup|].
  destruct (lookup2 _ s t); [|apply settled_lookup].
  destruct (negb _); [apply settled_lookup|].
  unfold readClaimsSync; simpl. rewrite lookup2_deleteEntry.
  rewrite decide_False; [done|]. intros [-> ->]. done.
Qed.

(** The claim a successful [claimTask] writes is kept by the purge when
    its agent has a matching live registration: the disk then holds the
    purged claims plus that entry, and nothing on it is stale. *)
Lemma claimTask_success_disk obs now s t a sid pid reason d :
  acquired isProcessAlive obs →
  (claimTask isProcessAlive registry obs noFaults now s t a sid pid
     reason d).2 = Returned (ClaimSuccess now) →
  lookup2 (purgeOf (readClaimsSync d)) s t = None
  ∧ readClaimsSync
      (claimTask isProcessAlive registry obs noFaults now s t a sid pid
         reason d).1
    = setEntry (purgeOf (readClaimsSync d)) s t
        (mkClaim a sid pid now reason).
Proof.
  intros Hacq. unfold claimTask.
  rewrite withSwarmLock_acquired by done. rewrite claimTaskLocked_eq.
  destruct (findAgentClaim _ a) as [e|].
  { rewrite purge_write_result. discriminate. }
  destruct (lookup2 _ s t) as [c|] eqn:Hl.
  { rewrite purge_write_result. discriminate. }
  done.
Qed.

(** Releasing or completing on a disk that holds a tidy claims object
    plus one non-stale entry of the caller. *)
Lemma unclaimTask_after_claim obs s t a c claims d1 :
  acquired isProcessAlive obs →
  tidy claims → lookup2 claims s t = None →
  stale c = false → c_agent c = a →
  readClaimsSync d1 = setEntry claims s t c →
  let r := unclaimTask isProcessAlive registry obs noFaults s t a d1 in
  r.2 = Returned UnclaimSuccess
  ∧ readClaimsSync r.1 = claims
  ∧ completionsFile r.1 = completionsFile d1.
Proof.
  intros Hacq Htidy Hnone Hfresh Ha Hd1. simpl. unfold unclaimTask.
  rewrite withSwarmLock_acquired by done. rewrite unclaimTaskLocked_eq.
  rewrite Hd1. rewrite purge_of_tidy by by apply setEntry_tidy.
  rewrite lookup2_setEntry, decide_True by done.
  rewrite Ha, String.eqb_refl. simpl. split; [done|]. split; [|done].
  unfold readClaimsSync; simpl.
  apply deleteEntry_setEntry; [done|apply Htidy].
Qed.

Lemma completeTask_after_claim obs now s t a notes c claims d1 :
  acquired isProcessAlive obs →
  tidy claims → lookup2 claims s t = None →
  stale c = false → c_agent c = a →
  readClaimsSync d1 = setEntry claims s t c →
  lookup2 (readCompletionsSync d1) s t = None →
  let r := completeTask isProcessAlive registry obs noFaults now s t a
             notes d1 in
  r.2 = Returned (CompleteSuccess now)
  ∧ readClaimsSync r.1 = claims
  ∧ readCompletionsSync r.1
    = setEntry (readCompletionsSync d1) s t (mkCompletion a now notes).
Proof.
  intros Hacq Htidy Hnone Hfresh Ha Hd1 Hk. simpl. unfold completeTask.
  rewrite withSwarmLock_acquired by done. rewrite completeTaskLocked_eq.
  rewrite Hk, Hd1. rewrite purge_of_tidy by by apply setEntry_tidy.
  rewrite lookup2_setEntry, decide_True by done.
  rewrite Ha, String.eqb_refl. simpl. split; [done|]. split; [|done].
  unfold readClaimsSync; simpl.
  apply deleteEntry_setEntry; [done|apply Htidy].
Qed.

(** Releasing a task whose only claim, if any, is stale. *)
Lemma unclaimTask_nothing_fresh obs s t a d1 :
  acquired isProcessAlive obs →
  (∀ c, lookup2 (readClaimsSync d1) s t = Some c → stale c = true) →
  let r := unclaimTask isProcessAlive registry obs noFaults s t a d1 in
  r.2 = Returned UnclaimNotClaimed
  ∧ lookup2 (readClaimsSync r.1) s t = None.
Proof.
  intros Hacq Hall. simpl. unfold unclaimTask.
  rewrite withSwarmLock_acquired by done. rewrite unclaimTaskLocked_eq.
  destruct (lookup2 (purgeOf (readClaimsSync d1)) s t) as [c|] eqn:Hl.
  { apply lookup2_purge in Hl as [Hc Hs]. apply Hall in Hc. congruence. }
  split; [apply purge_write_result|]. by rewrite settled_lookup.
Qed.

End SwarmMore.
(** ** Calls and the entries they leave alone *)

(** X1. A call of [claimTask], [unclaimTask] or [completeTask] that gets
    the lock and meets no write fault changes claims.json at its own
    (specPath, taskId) only: any other entry is on disk afterwards
    exactly when it was there before and is not stale. This holds for
    refused calls as well. *)
Theorem runCall_touches_only_its_task
    (isProcessAlive : Z → bool) (registry : Registry) (c : SwarmCall)
    (d : Disk) (s' t' : string) (e : ClaimEntry) :
  acquired isProcessAlive (call_lock c) →
  call_io c = noFaults →
  target (call_op c) ≠ (s', t') →
  lookup2 (readClaimsSync (runCall isProcessAlive registry c d)) s' t' = Some e
  ↔ lookup2 (readClaimsSync d) s' t' = Some e
    ∧ isClaimStale isProcessAlive registry e = false.
Proof.
  intros Hacq Hio Hne. rewrite <- lookup2_purge.
  unfold runCall. rewrite Hio.
  destruct (call_op c) as [s t a sid pid reason|s t a|s t a notes];
    simpl in Hne.
  - by rewrite claimTask_frame.
  - by rewrite unclaimTask_frame.
  - by rewrite completeTask_frame.
Qed.

Lemma runCall_touches_only_its_task_witness :
  lookup2 (readClaimsSync
    (runCall everyoneAlive twoAgents
       (mkCall (OpClaim "spec.md" "T-2" "B" "s2" 101 None)
               lockFree noFaults "t2")
       diskS5)) "spec.md" "T-7" = Some claimOfA
  ↔ lookup2 (readClaimsSync diskS5) "spec.md" "T-7" = Some claimOfA
    ∧ isClaimStale everyoneAlive twoAgents claimOfA = false.
Proof.
  apply (runCall_touches_only_its_task everyoneAlive twoAgents
           (mkCall (OpClaim "spec.md" "T-2" "B" "s2" 101 None)
                   lockFree noFaults "t2")
           diskS5 "spec.md" "T-7" claimOfA).
  - reflexivity.
  - reflexivity.
  - simpl. congruence.
Defined.

(** ** Releasing a claim *)

(** X2. For a spec path and a task id that are not names of members of
    [Object.prototype], with the lock held and no write fault,
    [unclaimTask] leaves completions.json alone and answers by the
    non-stale claim on (specPath, taskId): [not_claimed] when there is
    none, and then none
    is on disk afterwards; [not_your_claim] with the holder's name when
    it belongs to another agent, and then it stays; success when it is
    the caller's, and then it is gone. *)
Theorem unclaimTask_answer
    (isProcessAlive : Z → bool) (registry : Registry) (obs : nat → LockObs)
    (specPath taskId agent : string) (d : Disk) :
  ordinaryKey specPath = true →
  ordinaryKey taskId = true →
  acquired isProcessAlive obs →
  let r := unclaimTask isProcessAlive registry obs noFaults
             specPath taskId agent d in
  completionsFile r.1 = completionsFile d
  ∧ ((r.2 = Returned UnclaimNotClaimed
      ∧ (∀ c, lookup2 (readClaimsSync d) specPath taskId = Some c →
              isClaimStale isProcessAlive registry c = true)
      ∧ lookup2 (readClaimsSync r.1) specPath taskId = None)
     ∨ (∃ c, r.2 = Returned (UnclaimNotYourClaim (c_agent c))
             ∧ c_agent c ≠ agent
             ∧ lookup2 (readClaimsSync d) specPath taskId = Some c
             ∧ isClaimStale isProcessAlive registry c = false
             ∧ lookup2 (readClaimsSync r.1) specPath taskId = Some c)
     ∨ (r.2 = Returned UnclaimSuccess
        ∧ holdsFresh isProcessAlive registry (readClaimsSync d)
            agent specPath taskId
        ∧ lookup2 (readClaimsSync r.1) specPath taskId = None)).
Proof.
  intros _ _ Hacq. simpl. unfold unclaimTask.
  rewrite withSwarmLock_acquired by done. rewrite unclaimTaskLocked_eq.
  destruct (lookup2 (purge isProcessAlive registry (readClaimsSync d))
              specPath taskId) as [c|] eqn:Hl.
  2:{ split; [apply purge_write_completions|]. left.
      split; [apply purge_write_result|]. split.
      - intros c Hc.
        destruct (isClaimStale isProcessAlive registry c) eqn:Hs; [done|].
        assert (lookup2 (purge isProcessAlive registry (readClaimsSync d))
                  specPath taskId = Some c) as Hp
          by (apply lookup2_purge; tauto).
        congruence.
      - by rewrite settled_lookup. }
  apply lookup2_purge in Hl as Hc. destruct Hc as [Hc Hs].
  destruct (String.eqb (c_agent c) agent) eqn:Ha; simpl.
  - apply String.eqb_eq in Ha. split; [done|]. right; right.
    split; [done|]. split; [by exists c|].
    unfold readClaimsSync; simpl. rewrite lookup2_deleteEntry.
    by rewrite decide_True.
  - apply String.eqb_neq in Ha.
    split; [apply purge_write_completions|]. right; left. exists c.
    split; [apply purge_write_result|]. split; [done|].
    split; [done|]. split; [done|]. by rewrite settled_lookup.
Qed.

(** B asks to release A's claim of T-7 and is told whose it is. *)
Lemma unclaimTask_answer_witness :
  ∃ c, (unclaimTask everyoneAlive twoAgents lockFree noFaults
          "spec.md" "T-7" "B" diskS5).2
       = Returned (UnclaimNotYourClaim (c_agent c))
       ∧ lookup2 (readClaimsSync
           (unclaimTask everyoneAlive twoAgents lockFree noFaults
              "spec.md" "T-7" "B" diskS5).1) "spec.md" "T-7" = Some c.
Proof.
  destruct (unclaimTask_answer everyoneAlive twoAgents lockFree
              "spec.md" "T-7" "B" diskS5 eq_refl eq_refl eq_refl)
    as [_ [[H _]|[(c & Hr & _ & _ & _ & Hc)|[H _]]]].
  - vm_compute in H. discriminate.
  - exists c. split; [exact Hr|exact Hc].
  - vm_compute in H. discriminate.
Defined.

(** ** What [completeTask] answers *)

(** X3. For a spec path and a task id that are not names of members of
    [Object.prototype], with the lock held and no write fault,
    [completeTask] checks the completion record first and the claim
    second. It answers
    [already_completed] when a record exists, otherwise [not_claimed]
    when (specPath, taskId) has no non-stale claim, otherwise
    [not_your_claim] with the holder's name when the claim is another
    agent's; in these three cases completions.json is left as it is.
    Otherwise it succeeds, and completions.json differs from before by
    the new record at (specPath, taskId) only. *)
Theorem completeTask_answer
    (isProcessAlive : Z → bool) (registry : Registry) (obs : nat → LockObs)
    (now specPath taskId agent : string) (notes : option string)
    (d : Disk) :
  ordinaryKey specPath = true →
  ordinaryKey taskId = true →
  acquired isProcessAlive obs →
  let r := completeTask isProcessAlive registry obs noFaults now
             specPath taskId agent notes d in
  (∃ k, r.2 = Returned (CompleteAlreadyCompleted k)
        ∧ lookup2 (readCompletionsSync d) specPath taskId = Some k
        ∧ completionsFile r.1 = completionsFile d)
  ∨ (r.2 = Returned CompleteNotClaimed
     ∧ lookup2 (readCompletionsSync d) specPath taskId = None
     ∧ (∀ c, lookup2 (readClaimsSync d) specPath taskId = Some c →
             isClaimStale isProcessAlive registry c = true)
     ∧ completionsFile r.1 = completionsFile d)
  ∨ (∃ c, r.2 = Returned (CompleteNotYourClaim (c_agent c))
          ∧ lookup2 (readCompletionsSync d) specPath taskId = None
          ∧ c_agent c ≠ agent
          ∧ lookup2 (readClaimsSync d) specPath taskId = Some c
          ∧ isClaimStale isProcessAlive registry c = false
          ∧ lookup2 (readClaimsSync r.1) specPath taskId = Some c
          ∧ completionsFile r.1 = completionsFile d)
  ∨ (r.2 = Returned (CompleteSuccess now)
     ∧ lookup2 (readCompletionsSync d) specPath taskId = None
     ∧ holdsFresh isProcessAlive registry (readClaimsSync d)
         agent specPath taskId
     ∧ ∀ s' t',
         lookup2 (readCompletionsSync r.1) s' t'
         = if decide (specPath = s' ∧ taskId = t')
           then Some (mkCompletion agent now notes)
           else lookup2 (readCompletionsSync d) s' t').
Proof.
  intros _ _ Hacq. simpl. unfold completeTask.
  rewrite withSwarmLock_acquired by done. rewrite completeTaskLocked_eq.
  destruct (lookup2 (readCompletionsSync d) specPath taskId) as [k|] eqn:Hk.
  { left. exists k. split; [apply purge_write_result|]. split; [done|].
    apply purge_write_completions. }
  right.
  destruct (lookup2 (purge isProcessAlive registry (readClaimsSync d))
              specPath taskId) as [c|] eqn:Hl.
  2:{ left. split; [apply purge_write_result|]. split; [done|].
      split; [|apply purge_write_completions].
      intros c Hc.
      destruct (isClaimStale isProcessAlive registry c) eqn:Hs; [done|].
      assert (lookup2 (purge isProcessAlive registry (readClaimsSync d))
                specPath taskId = Some c) as Hp
        by (apply lookup2_purge; tauto).
      congruence. }
  right.
  apply lookup2_purge in Hl as Hc. destruct Hc as [Hc Hs].
  destruct (String.eqb (c_agent c) agent) eqn:Ha; simpl.
  - apply String.eqb_eq in Ha. right.
    split; [done|]. split; [done|]. split; [by exists c|].
    intros s' t'. unfold readCompletionsSync at 1; simpl.
    apply lookup2_setEntry.
  - apply String.eqb_neq in Ha. left. exists c.
    split; [apply purge_write_result|]. split; [done|]. split; [done|].
    split; [done|]. split; [done|].
    split; [by rewrite settled_lookup|apply purge_write_completions].
Qed.

(** B tries to complete T-7 while A holds it. *)
Lemma completeTask_answer_witness :
  ∃ c, (completeTask everyoneAlive twoAgents lockFree noFaults "t2"
          "spec.md" "T-7" "B" None
          (mkDisk (claimsFile diskS5) Absent)).2
       = Returned (CompleteNotYourClaim (c_agent c))
       ∧ lookup2 (readClaimsSync (mkDisk (claimsFile diskS5) Absent))
           "spec.md" "T-7" = Some c.
Proof.
  destruct (completeTask_answer everyoneAlive twoAgents lockFree "t2"
              "spec.md" "T-7" "B" None
              (mkDisk (claimsFile diskS5) Absent) eq_refl eq_refl eq_refl)
    as [(k & H & _)|[[H _]|[(c & Hr & _ & _ & Hc & _)|[H _]]]].
  - vm_compute in H. discriminate.
  - vm_compute in H. discriminate.
  - exists c. split; [exact Hr|exact Hc].
  - vm_compute in H. discriminate.
Defined.

(** ** Claim, then release or complete *)

(** X4. Releasing undoes claiming, for a spec path and a task id that
    are not names of members of [Object.prototype]. If [claimTask]
    succeeds for an agent whose new claim is not stale (it has a live registration with the
    same session), an [unclaimTask] by the same agent right after
    succeeds and leaves in claims.json exactly the purge of what was
    there before the claim, with completions.json untouched. *)
Theorem claim_then_unclaim_restores
    (isProcessAlive : Z → bool) (registry : Registry)
    (obs1 obs2 : nat → LockObs)
    (now specPath taskId agent sessionId : string) (pid : Z)
    (reason : option string) (d : Disk) :
  ordinaryKey specPath = true →
  ordinaryKey taskId = true →
  acquired isProcessAlive obs1 →
  acquired isProcessAlive obs2 →
  isClaimStale isProcessAlive registry
    (mkClaim agent sessionId pid now reason) = false →
  let r1 := claimTask isProcessAlive registry obs1 noFaults now
              specPath taskId agent sessionId pid reason d in
  r1.2 = Returned (ClaimSuccess now) →
  let r2 := unclaimTask isProcessAlive registry obs2 noFaults
              specPath taskId agent r1.1 in
  r2.2 = Returned UnclaimSuccess
  ∧ readClaimsSync r2.1
    = purge isProcessAlive registry (readClaimsSync d)
  ∧ completionsFile r2.1 = completionsFile d.
Proof.
  intros _ _ Hacq1 Hacq2 Hfresh r1 Hr1 r2. subst r1.
  destruct (claimTask_success_disk isProcessAlive registry obs1 now
              specPath taskId agent sessionId pid reason d Hacq1 Hr1)
    as [Hnone Hdisk].
  assert (completionsFile (claimTask isProcessAlive registry obs1 noFaults now
                 specPath taskId agent sessionId pid reason d).1 = completionsFile d) as Hfile.
  { apply (claimTask_answer isProcessAlive registry obs1 now specPath
             taskId agent sessionId pid reason d Hacq1). }
  destruct (unclaimTask_after_claim isProcessAlive registry obs2
              specPath taskId agent (mkClaim agent sessionId pid now reason)
              (purge isProcessAlive registry (readClaimsSync d)) (claimTask isProcessAlive registry obs1 noFaults now
                 specPath taskId agent sessionId pid reason d).1
              Hacq2 (purge_tidy isProcessAlive registry _) Hnone Hfresh
              eq_refl Hdisk) as (Hr & Hc & Hk).
  split; [exact Hr|]. split; [exact Hc|]. by rewrite <- Hfile.
Qed.

Lemma claim_then_unclaim_restores_witness :
  readClaimsSync
    (unclaimTask everyoneAlive twoAgents lockFree noFaults
       "spec.md" "T-2" "B"
       (claimTask everyoneAlive twoAgents lockFree noFaults "t2"
          "spec.md" "T-2" "B" "s2" 101 None diskS5).1).1
  = purge everyoneAlive twoAgents (readClaimsSync diskS5).
Proof.
  assert (isClaimStale everyoneAlive twoAgents
            (mkClaim "B" "s2" 101 "t2" None) = false) as Hfresh
    by (vm_compute; reflexivity).
  assert ((claimTask everyoneAlive twoAgents lockFree noFaults "t2"
             "spec.md" "T-2" "B" "s2" 101 None diskS5).2
          = Returned (ClaimSuccess "t2")) as Hr1
    by (vm_compute; reflexivity).
  exact (proj1 (proj2
    (claim_then_unclaim_restores everyoneAlive twoAgents lockFree
       lockFree "t2" "spec.md" "T-2" "B" "s2" 101 None diskS5
       eq_refl eq_refl eq_refl eq_refl Hfresh Hr1))).
Defined.

(** X5. Claim, then complete, for a spec path and a task id that are
    not names of members of [Object.prototype]. If [claimTask] succeeds
    for an agent whose new claim is not stale and the task has no completion record, a
    [completeTask] by the same agent right after succeeds: the record is
    in completions.json, claims.json holds exactly the purge of what was
    there before the claim, and the agent holds no claim any more. *)
Theorem claim_then_complete
    (isProcessAlive : Z → bool) (registry : Registry)
    (obs1 obs2 : nat → LockObs)
    (now now' specPath taskId agent sessionId : string) (pid : Z)
    (reason notes : option string) (d : Disk) :
  ordinaryKey specPath = true →
  ordinaryKey taskId = true →
  acquired isProcessAlive obs1 →
  acquired isProcessAlive obs2 →
  isClaimStale isProcessAlive registry
    (mkClaim agent sessionId pid now reason) = false →
  lookup2 (readCompletionsSync d) specPath taskId = None →
  let r1 := claimTask isProcessAlive registry obs1 noFaults now
              specPath taskId agent sessionId pid reason d in
  r1.2 = Returned (ClaimSuccess now) →
  let r2 := completeTask isProcessAlive registry obs2 noFaults now'
              specPath taskId agent notes r1.1 in
  r2.2 = Returned (CompleteSuccess now')
  ∧ readCompletionsSync r2.1
    = setEntry (readCompletionsSync d) specPath taskId
        (mkCompletion agent now' notes)
  ∧ readClaimsSync r2.1
    = purge isProcessAlive registry (readClaimsSync d)
  ∧ holdsNoClaim isProcessAlive registry (readClaimsSync r2.1) agent.
Proof.
  intros _ _ Hacq1 Hacq2 Hfresh Hk r1 Hr1 r2. subst r1.
  destruct (claimTask_success_disk isProcessAlive registry obs1 now
              specPath taskId agent sessionId pid reason d Hacq1 Hr1)
    as [Hnone Hdisk].
  destruct (claimTask_answer isProcessAlive registry obs1 now specPath
              taskId agent sessionId pid reason d Hacq1) as [Hfile Hans].
  assert (holdsNoClaim isProcessAlive registry (readClaimsSync d) agent)
    as Hfree.
  { destruct Hans as [(s' & t' & He & _)|[(c & He & _)|(_ & Hn & _)]];
      [congruence|congruence|done]. }
  assert (readCompletionsSync (claimTask isProcessAlive registry obs1 noFaults now
                 specPath taskId agent sessionId pid reason d).1 = readCompletionsSync d) as Hcomp.
  { unfold readCompletionsSync. by rewrite Hfile. }
  destruct (completeTask_after_claim isProcessAlive registry obs2 now'
              specPath taskId agent notes
              (mkClaim agent sessionId pid now reason)
              (purge isProcessAlive registry (readClaimsSync d)) (claimTask isProcessAlive registry obs1 noFaults now
                 specPath taskId agent sessionId pid reason d).1
              Hacq2 (purge_tidy isProcessAlive registry _) Hnone Hfresh
              eq_refl Hdisk) as (Hr & Hc & Hk').
  { by rewrite Hcomp. }
  rewrite Hcomp in Hk'.
  split; [exact Hr|]. split; [exact Hk'|]. split; [exact Hc|].
  intros s' t' Hh. unfold r2 in Hh. rewrite Hc in Hh.
  apply (proj1 (holdsFresh_purge _ _ _ _ _ _)) in Hh.
  by apply (Hfree s' t').
Qed.

Lemma claim_then_complete_witness :
  lookup2 (readCompletionsSync
    (completeTask everyoneAlive twoAgents lockFree noFaults "t3"
       "spec.md" "T-2" "B" None
       (claimTask everyoneAlive twoAgents lockFree noFaults "t2"
          "spec.md" "T-2" "B" "s2" 101 None emptyDisk).1).1)
    "spec.md" "T-2"
  = Some (mkCompletion "B" "t3" None).
Proof.
  assert (isClaimStale everyoneAlive twoAgents
            (mkClaim "B" "s2" 101 "t2" None) = false) as Hfresh
    by (vm_compute; reflexivity).
  assert (lookup2 (readCompletionsSync emptyDisk) "spec.md" "T-2"
          = @None CompletionEntry) as Hk0
    by (vm_compute; reflexivity).
  assert ((claimTask everyoneAlive twoAgents lockFree noFaults "t2"
             "spec.md" "T-2" "B" "s2" 101 None emptyDisk).2
          = Returned (ClaimSuccess "t2")) as Hr1
    by (vm_compute; reflexivity).
  rewrite (proj1 (proj2
    (claim_then_complete everyoneAlive twoAgents lockFree lockFree
       "t2" "t3" "spec.md" "T-2" "B" "s2" 101 None None emptyDisk
       eq_refl eq_refl eq_refl eq_refl Hfresh Hk0 Hr1))).
  rewrite lookup2_setEntry. by rewrite decide_True.
Defined.

(** ** The claim an agent currently holds *)

Lemma findInSpec_findEntry agent (tasks : SpecClaims) :
  findInSpec agent tasks = fst <$> findEntryInSpec agent tasks.
Proof. done. Qed.

Lemma findEntryInSpec_Some agent (tasks : SpecClaims) t c :
  findEntryInSpec agent tasks = Some (t, c) →
  tasks !! t = Some c ∧ c_agent c = agent.
Proof.
  unfold findEntryInSpec. intros H.
  destruct (list_find _ _) as [[i [k c']]|] eqn:Hf; simplify_eq/=.
  apply list_find_Some in Hf as (Hl & Hp & _).
  split; [|done].
  apply elem_of_map_to_list. by eapply list_elem_of_lookup_2.
Qed.

Lemma findInSpecs_findEntry agent l :
  findInSpecs agent l
  = (λ x : string * string * option string, x.1) <$> findEntryInSpecs agent l.
Proof.
  induction l as [|[s tasks] l IH]; simpl; [done|].
  rewrite findInSpec_findEntry.
  by destruct (findEntryInSpec agent tasks) as [[t c]|].
Qed.

Lemma findEntryInSpecs_Some agent l s t r :
  findEntryInSpecs agent l = Some (s, t, r) →
  ∃ tasks c, (s, tasks) ∈ l ∧ tasks !! t = Some c
             ∧ c_agent c = agent ∧ c_reason c = r.
Proof.
  induction l as [|[s0 tasks0] l IH]; simpl; [done|].
  destruct (findEntryInSpec agent tasks0) as [[t0 c0]|] eqn:H0.
  - intros [= <- <- <-]. apply findEntryInSpec_Some in H0 as [Hc Ha].
    exists tasks0, c0. split; [left|done].
  - intros H. destruct (IH H) as (tasks & c & Hin & Hrest).
    exists tasks, c. split; [by right|done].
Qed.

Lemma findAgentClaim_getAgentCurrentClaim isProcessAlive registry d agent :
  plainKeys (readClaimsSync d) →
  findAgentClaim (purge isProcessAlive registry (readClaimsSync d)) agent
  = (λ x : string * string * option string, x.1)
      <$> getAgentCurrentClaim isProcessAlive registry d agent.
Proof.
  intros Hplain. unfold findAgentClaim, getAgentCurrentClaim, getClaims.
  rewrite filterStaleClaims_plain by done. apply findInSpecs_findEntry.
Qed.

(** What [getAgentCurrentClaim] reports is a non-stale claim of the
    agent, on any disk. *)
Lemma getAgentCurrentClaim_Some isProcessAlive registry d agent s t r :
  getAgentCurrentClaim isProcessAlive registry d agent = Some (s, t, r) →
  ∃ c, lookup2 (readClaimsSync d) s t = Some c
       ∧ c_agent c = agent ∧ c_reason c = r
       ∧ isClaimStale isProcessAlive registry c = false.
Proof.
  intros H. unfold getAgentCurrentClaim, getClaims in H.
  rewrite filterStaleClaims_eq in H.
  apply findEntryInSpecs_Some in H as (tasks & c & Hin & Hc & Ha & Hr).
  apply elem_of_map_to_list in Hin.
  assert (lookup2 (purge isProcessAlive registry
                     (stripProto (readClaimsSync d))) s t
          = Some c) as Hp by (unfold lookup2; by rewrite Hin).
  apply lookup2_purge in Hp as [Hp Hs].
  apply lookup2_stripProto in Hp as [Hp _]. by exists c.
Qed.

(** An agent without a non-stale claim is reported none, on any disk. *)
Lemma getAgentCurrentClaim_free isProcessAlive registry d agent :
  holdsNoClaim isProcessAlive registry (readClaimsSync d) agent →
  getAgentCurrentClaim isProcessAlive registry d agent = None.
Proof.
  intros Hfree.
  destruct (getAgentCurrentClaim isProcessAlive registry d agent)
    as [[[s t] r]|] eqn:Hg; [|done].
  apply getAgentCurrentClaim_Some in Hg as (c & Hc & Ha & _ & Hs).
  destruct (Hfree s t). by exists c.
Qed.

Lemma getAgentCurrentClaim_None isProcessAlive registry d agent :
  plainKeys (readClaimsSync d) →
  getAgentCurrentClaim isProcessAlive registry d agent = None
  ↔ holdsNoClaim isProcessAlive registry (readClaimsSync d) agent.
Proof.
  intros Hplain.
  pose proof (findAgentClaim_getAgentCurrentClaim isProcessAlive registry
                d agent Hplain) as Hsame.
  split; [|apply getAgentCurrentClaim_free].
  intros Hnone s t (c & Hc & Ha & Hs).
  rewrite Hnone in Hsame. simpl in Hsame.
  eapply (findAgentClaim_None _ _ s t c); [exact Hsame| |done].
  apply lookup2_purge. tauto.
Qed.

(** X6. On a claims.json without ["__proto__"] keys,
    [getAgentCurrentClaim] reports a claim that is on disk, is the
    agent's and is not stale, with its reason; it reports none exactly
    when the agent holds no non-stale claim; and the location it reports
    is the one [claimTask] refuses with: a [claimTask] by the agent that
    gets the lock answers [already_have_claim] with (spec, taskId)
    exactly when [getAgentCurrentClaim] reports (spec, taskId). *)
Theorem getAgentCurrentClaim_agrees
    (isProcessAlive : Z → bool) (registry : Registry) (d : Disk)
    (agent : string) :
  plainKeys (readClaimsSync d) →
  (∀ s t r, getAgentCurrentClaim isProcessAlive registry d agent
            = Some (s, t, r) →
      ∃ c, lookup2 (readClaimsSync d) s t = Some c
           ∧ c_agent c = agent ∧ c_reason c = r
           ∧ isClaimStale isProcessAlive registry c = false)
  ∧ (getAgentCurrentClaim isProcessAlive registry d agent = None
     ↔ holdsNoClaim isProcessAlive registry (readClaimsSync d) agent)
  ∧ (∀ obs now specPath taskId sessionId pid reason s t,
       acquired isProcessAlive obs →
       (claimTask isProcessAlive registry obs noFaults now specPath taskId
          agent sessionId pid reason d).2
       = Returned (ClaimAlreadyHaveClaim (s, t))
       ↔ ∃ r, getAgentCurrentClaim isProcessAlive registry d agent
              = Some (s, t, r)).
Proof.
  intros Hplain.
  pose proof (findAgentClaim_getAgentCurrentClaim isProcessAlive registry
                d agent Hplain) as Hsame.
  split; [|split].
  - intros s t r. apply getAgentCurrentClaim_Some.
  - by apply getAgentCurrentClaim_None.
  - intros obs now specPath taskId sessionId pid reason s t Hacq.
    unfold claimTask. rewrite withSwarmLock_acquired by done.
    rewrite claimTaskLocked_eq, Hsame.
    destruct (getAgentCurrentClaim isProcessAlive registry d agent)
      as [[[s0 t0] r0]|]; simpl.
    + rewrite purge_write_result. split.
      * intros [= -> ->]. by exists r0.
      * by intros [r [= -> -> _]].
    + destruct (lookup2 _ specPath taskId).
      * rewrite purge_write_result. split; [done|]. by intros [r ?].
      * simpl. split; [done|]. by intros [r ?].
Qed.

Lemma plainKeys_diskS5 : plainKeys (readClaimsSync diskS5).
Proof.
  apply (bool_decide_unpack (plainKeys (readClaimsSync diskS5))).
  vm_compute. exact I.
Qed.

(** B holds no claim in scenario S5, and is reported none. *)
Lemma getAgentCurrentClaim_agrees_witness :
  getAgentCurrentClaim everyoneAlive twoAgents diskS5 "B" = None
  ↔ holdsNoClaim everyoneAlive twoAgents (readClaimsSync diskS5) "B".
Proof.
  exact (proj1 (proj2
    (getAgentCurrentClaim_agrees everyoneAlive twoAgents diskS5 "B"
       plainKeys_diskS5))).
Defined.

(** X7. [claimTask] does not check the claimant against the registry.
    For a spec path and a task id that are not names of members of
    [Object.prototype]: when the new claim is stale from the start (no live registration of
    the agent with that session), a successful [claimTask] still writes
    it to claims.json, but no reader sees it: [getClaims] has no entry
    there, [getAgentCurrentClaim] reports none for the agent, and an
    [unclaimTask] by the agent answers [not_claimed] and removes it. *)
Theorem claim_without_live_registration_is_dropped
    (isProcessAlive : Z → bool) (registry : Registry)
    (obs1 obs2 : nat → LockObs)
    (now specPath taskId agent sessionId : string) (pid : Z)
    (reason : option string) (d : Disk) :
  ordinaryKey specPath = true →
  ordinaryKey taskId = true →
  acquired isProcessAlive obs1 →
  acquired isProcessAlive obs2 →
  isClaimStale isProcessAlive registry
    (mkClaim agent sessionId pid now reason) = true →
  let r1 := claimTask isProcessAlive registry obs1 noFaults now
              specPath taskId agent sessionId pid reason d in
  r1.2 = Returned (ClaimSuccess now) →
  let r2 := unclaimTask isProcessAlive registry obs2 noFaults
              specPath taskId agent r1.1 in
  lookup2 (readClaimsSync r1.1) specPath taskId
  = Some (mkClaim agent sessionId pid now reason)
  ∧ lookup2 (getClaims isProcessAlive registry r1.1) specPath taskId = None
  ∧ getAgentCurrentClaim isProcessAlive registry r1.1 agent = None
  ∧ r2.2 = Returned UnclaimNotClaimed
  ∧ lookup2 (readClaimsSync r2.1) specPath taskId = None.
Proof.
  intros _ _ Hacq1 Hacq2 Hstale r1 Hr1 r2. subst r1.
  destruct (claimTask_success_disk isProcessAlive registry obs1 now
              specPath taskId agent sessionId pid reason d Hacq1 Hr1)
    as [Hnone Hdisk].
  destruct (claimTask_answer isProcessAlive registry obs1 now specPath
              taskId agent sessionId pid reason d Hacq1) as [Hfile Hans].
  assert (holdsNoClaim isProcessAlive registry (readClaimsSync d) agent)
    as Hfree.
  { destruct Hans as [(s' & t' & He & _)|[(c & He & _)|(_ & Hn & _)]];
      [congruence|congruence|done]. }
  assert (∀ c, lookup2 (readClaimsSync
                 (claimTask isProcessAlive registry obs1 noFaults now
                    specPath taskId agent sessionId pid reason d).1)
                 specPath taskId = Some c →
               isClaimStale isProcessAlive registry c = true) as Hall.
  { intros c. rewrite Hdisk, lookup2_setEntry, decide_True by done.
    by intros [= <-]. }
  split; [|split; [|split]].
  - rewrite Hdisk, lookup2_setEntry. by rewrite decide_True.
  - unfold getClaims. rewrite filterStaleClaims_eq.
    apply eq_None_not_Some. intros [c Hc].
    apply lookup2_purge in Hc as [Hc Hs].
    apply lookup2_stripProto in Hc as [Hc _]. apply Hall in Hc. congruence.
  - apply getAgentCurrentClaim_free. intros s t (c & Hc & Ha & Hs).
    rewrite Hdisk, lookup2_setEntry in Hc. case_decide as Heq.
    + injection Hc as <-. congruence.
    + apply (Hfree s t). apply holdsFresh_purge. by exists c.
  - by apply unclaimTask_nothing_fresh.
Qed.

(** C has no registration: its claim of T-2 is written and then ignored. *)
Lemma claim_without_live_registration_is_dropped_witness :
  getAgentCurrentClaim everyoneAlive twoAgents
    (claimTask everyoneAlive twoAgents lockFree noFaults "t2"
       "spec.md" "T-2" "C" "s3" 102 None emptyDisk).1 "C"
  = None.
Proof.
  assert (isClaimStale everyoneAlive twoAgents
            (mkClaim "C" "s3" 102 "t2" None) = true) as Hstale
    by (vm_compute; reflexivity).
  assert ((claimTask everyoneAlive twoAgents lockFree noFaults "t2"
             "spec.md" "T-2" "C" "s3" 102 None emptyDisk).2
          = Returned (ClaimSuccess "t2")) as Hr1
    by (vm_compute; reflexivity).
  exact (proj1 (proj2 (proj2
    (claim_without_live_registration_is_dropped everyoneAlive twoAgents
       lockFree lockFree "t2" "spec.md" "T-2" "C" "s3" 102 None emptyDisk
       eq_refl eq_refl eq_refl eq_refl Hstale Hr1)))).
Defined.

(** ** Waiting for the lock *)

Section LockMore.

Variable isProcessAlive : Z → bool.

Lemma staleEvents_no_release o :
  EvRelease ∉ staleEvents isProcessAlive o.
Proof.
  unfold staleEvents.
  destruct (obs_lock o) as [l|]; [destruct (removesLock _ _ l)|];
    intros Hin; try (by apply elem_of_nil in Hin).
  apply list_elem_of_fmap in Hin as (b & Hb & _). discriminate.
Qed.

(** The loop when iterations [i .. k-1] find the lock held and iteration
    [k] finds it free (or removes it as stale). *)
Lemma acquireLoop_free_at obs i n k :
  (i + n = maxRetries)%nat → (i ≤ k < maxRetries)%nat →
  (∀ j, (i ≤ j < k)%nat → afterStaleCheck isProcessAlive (obs j) ≠ None) →
  afterStaleCheck isProcessAlive (obs k) = None →
  let r := acquireLoop isProcessAlive obs i n in
  r.2 = match obs_openError (obs k) with
        | Some err => Threw err
        | None => Returned tt
        end
  ∧ countEvents isOpen r.1 = S (k - i)
  ∧ countEvents isSleep r.1 = (k - i)%nat
  ∧ (EvRelease ∉ r.1)
  ∧ last r.1
    = Some (EvOpen (bool_decide (obs_openError (obs k) = None))).
Proof.
  revert i. induction n as [|n IH]; intros i Hsum Hk Hbusy Hfree.
  { unfold maxRetries in *. lia. }
  simpl. destruct (staleEvents_count isProcessAlive (obs i))
    as (Ho & Hs & _).
  pose proof (staleEvents_no_release (obs i)) as Hrel.
  destruct (decide (i = k)) as [->|Hne].
  - rewrite Hfree. replace (k - k)%nat with 0%nat by lia.
    destruct (obs_openError (obs k)) as [err|]; simpl;
      rewrite !countEvents_app, Ho, Hs, last_snoc; simpl;
      (split; [done|]); (split; [done|]); (split; [done|]);
      (split; [|done]);
      intros Hin; (apply elem_of_app in Hin as [Hin|Hin]; [done|]);
      apply list_elem_of_singleton in Hin; discriminate.
  - destruct (afterStaleCheck isProcessAlive (obs i)) as [l|] eqn:Hi.
    2:{ destruct (Hbusy i); [lia|done]. }
    rewrite decide_False by (unfold maxRetries in *; lia). simpl.
    destruct (IH (S i)) as (IHr & IHo & IHs & IHrel & IHlast);
      [lia|lia|intros j Hj; apply Hbusy; lia|done|].
    rewrite !countEvents_app, Ho, Hs. simpl. rewrite IHo, IHs.
    split; [done|]. split; [lia|]. split; [lia|]. split.
    + intros Hin. apply elem_of_app in Hin as [Hin|Hin]; [done|].
      apply elem_of_cons in Hin as [Hin|Hin]; [discriminate|].
      apply elem_of_cons in Hin as [Hin|Hin]; [discriminate|done].
    + revert IHlast.
      destruct ((acquireLoop isProcessAlive obs (S i) n).1) as [|e tr];
        [done|].
      intros IHlast. by rewrite last_app, !last_cons_cons, IHlast.
Qed.

End LockMore.

(** X8. [withSwarmLock] waits for the lock. When the attempts before the
    k-th (k < 50) find swarm.lock held (a stale lock whose unlink fails
    counts as held) and the k-th finds no lock, or a stale one that one
    of its unlinks does remove, no other process creates the lock in
    between, and its open succeeds, the protected
    function runs on the state as it is, its outcome (a result or an
    exception) is the outcome of the call, there were k sleeps and k + 1
    open attempts, and the release of the lock is attempted exactly
    once, as the last step. Lock files hold numbers that a JS number
    holds exactly. *)
Theorem withSwarmLock_waits_then_runs
    (isProcessAlive : Z → bool) (obs : nat → LockObs) (k : nat)
    (S T : Type) (fn : M S T) (s : S) :
  (k < 50)%nat →
  (∀ j l, obs_lock (obs j) = Some l → exactPid l) →
  (∀ j, (j < k)%nat → afterStaleCheck isProcessAlive (obs j) ≠ None) →
  (obs_lock (obs k) = None
   ∨ ∃ l, obs_lock (obs k) = Some l
          ∧ removesLock isProcessAlive (obs_now (obs k)) l = true
          ∧ existsb id (unlinkAttempts (obs k) l) = true) →
  obs_racer (obs k) = None →
  obs_openError (obs k) = None →
  let r := withSwarmLock isProcessAlive obs fn s in
  r.1 = fn s
  ∧ countEvents isSleep r.2 = k
  ∧ countEvents isOpen r.2 = Datatypes.S k
  ∧ last r.2 = Some EvRelease
  ∧ ∃ tr, r.2 = tr ++ [EvRelease] ∧ (EvRelease ∉ tr)
          ∧ last tr = Some (EvOpen true).
Proof.
  intros Hk _ Hbusy Hgone Hracer Hopen.
  assert (afterStaleCheck isProcessAlive (obs k) = None) as Hfree.
  { unfold afterStaleCheck, keptLock.
    destruct Hgone as [->|(l & -> & -> & ->)]; done. }
  destruct (acquireLoop_free_at isProcessAlive obs 0 maxRetries k)
    as (Hr & Ho & Hs & Hrel & Hlast);
    [reflexivity|unfold maxRetries; lia|intros j Hj; apply Hbusy; lia|done|].
  rewrite Hopen in Hr, Hlast. rewrite Nat.sub_0_r in Ho, Hs.
  unfold withSwarmLock. cbv zeta. rewrite Hr.
  generalize dependent (acquireLoop isProcessAlive obs 0 maxRetries).1.
  intros tr Ho Hs Hrel Hlast. simpl.
  split; [by destruct (fn s)|].
  rewrite !countEvents_app, Ho, Hs, last_snoc. simpl.
  split; [lia|]. split; [lia|]. split; [done|].
  exists tr. by rewrite Hlast.
Qed.

(** The lock is held at the first two attempts and free at the third. *)
Definition lockBusyTwice : nat → LockObs :=
  λ i, if (i <? 2)%nat
       then mkObs 5000 (Some (mkLock 0 (Some "4242"))) true true None None
       else mkObs 5000 None true true None None.

Lemma withSwarmLock_waits_then_runs_witness :
  countEvents isSleep
    (withSwarmLock everyoneAlive lockBusyTwice
       (claimTaskLocked everyoneAlive twoAgents noFaults "t1"
          "spec.md" "T-1" "A" "s1" 100 None) emptyDisk).2
  = 2%nat.
Proof.
  assert (∀ j, (j < 2)%nat →
            afterStaleCheck everyoneAlive (lockBusyTwice j) ≠ None)
    as Hbusy.
  { intros [|[|j]] Hj; [done|done|lia]. }
  assert (∀ j l, obs_lock (lockBusyTwice j) = Some l → exactPid l)
    as Hexact.
  { intros j l Hl pid Hpid. unfold lockBusyTwice in Hl.
    destruct (j <? 2)%nat; [|discriminate].
    injection Hl as <-. vm_compute in Hpid. injection Hpid as <-. lia. }
  exact (proj1 (proj2
    (withSwarmLock_waits_then_runs everyoneAlive lockBusyTwice 2
       Disk ClaimResult
       (claimTaskLocked everyoneAlive twoAgents noFaults "t1"
          "spec.md" "T-1" "A" "s1" 100 None) emptyDisk
       ltac:(lia) Hexact Hbusy (or_introl eq_refl) eq_refl eq_refl))).
Defined.

(** X9. An open failure other than "the file exists" ends the call at
    once. When the attempts before the k-th find the lock held and the
    k-th finds it free but its open fails with such an error, the call
    throws that error, the protected function does not run (the state is
    as before), no further attempt is made, and nothing is released. *)
Theorem withSwarmLock_open_error
    (isProcessAlive : Z → bool) (obs : nat → LockObs) (k : nat)
    (err : string) (S T : Type) (fn : M S T) (s : S) :
  (k < 50)%nat →
  (∀ j, (j < k)%nat → afterStaleCheck isProcessAlive (obs j) ≠ None) →
  afterStaleCheck isProcessAlive (obs k) = None →
  obs_openError (obs k) = Some err →
  let r := withSwarmLock isProcessAlive obs fn s in
  r.1 = (s, Threw err)
  ∧ countEvents isOpen r.2 = Datatypes.S k
  ∧ countEvents isSleep r.2 = k
  ∧ (EvRelease ∉ r.2)
  ∧ last r.2 = Some (EvOpen false).
Proof.
  intros Hk Hbusy Hfree Hopen.
  destruct (acquireLoop_free_at isProcessAlive obs 0 maxRetries k)
    as (Hr & Ho & Hs & Hrel & Hlast);
    [reflexivity|unfold maxRetries; lia|intros j Hj; apply Hbusy; lia|done|].
  rewrite Hopen in Hr, Hlast. rewrite Nat.sub_0_r in Ho, Hs.
  unfold withSwarmLock. cbv zeta. rewrite Hr.
  generalize dependent (acquireLoop isProcessAlive obs 0 maxRetries).1.
  intros tr Ho Hs Hrel Hlast. simpl. by rewrite Hlast.
Qed.

(** The lock directory is not writable. *)
Definition lockDenied : nat → LockObs :=
  λ _, mkObs 5000 None true true None (Some "EACCES").

Lemma withSwarmLock_open_error_witness :
  (withSwarmLock everyoneAlive lockDenied
     (claimTaskLocked everyoneAlive twoAgents noFaults "t1"
        "spec.md" "T-1" "A" "s1" 100 None) emptyDisk).1
  = (emptyDisk, Threw "EACCES").
Proof.
  assert (∀ j, (j < 0)%nat →
            afterStaleCheck everyoneAlive (lockDenied j) ≠ None)
    as Hbusy by (intros j Hj; lia).
  exact (proj1
    (withSwarmLock_open_error everyoneAlive lockDenied 0 "EACCES"
       Disk ClaimResult
       (claimTaskLocked everyoneAlive twoAgents noFaults "t1"
          "spec.md" "T-1" "A" "s1" 100 None) emptyDisk
       ltac:(lia) Hbusy eq_refl eq_refl)).
Defined.

(** ** A message from sender to callback *)




Section Deliveries.

Variable unlinkOk : string → bool.
Variable deliverFn : DeliverFn.
Variable inbox : string.




End Deliveries.


Definition aliceState : MessengerState :=
  mkState "Alice" true [] None false (mkSession 0 0 []) "t0" None "unknown"
          None "t0".


(** ** Validating a target *)

(** X11. [validateTargetAgent] answers [valid] exactly when the name is
    well-formed and its registry record parses and belongs to a live
    process, and [not_active] exactly when the record parses and its
    process is dead. It never touches an inbox or another agent's record,
    and changes nothing unless it answers [not_active]; then it unlinks
    the dead agent's record, so that (when the unlink goes through) the
    same question asked again is answered [not_found]. *)
Theorem validateTargetAgent_answer
    (isProcessAlive : Z → bool) (isValidAgentName : string → bool)
    (regUnlinkOk : bool) (to : string) (fs : FS) :
  let validate := validateTargetAgentIo isProcessAlive isValidAgentName in
  let r := validate regUnlinkOk to fs in
  (r.2 = TargetValid
   ↔ isValidAgentName to = true
     ∧ ∃ reg, fs_registry fs !! to = Some (RegOk reg)
              ∧ isProcessAlive (reg_pid reg) = true)
  ∧ (r.2 = TargetNotActive
     ↔ isValidAgentName to = true
       ∧ ∃ reg, fs_registry fs !! to = Some (RegOk reg)
                ∧ isProcessAlive (reg_pid reg) = false)
  ∧ fs_inbox r.1 = fs_inbox fs
  ∧ (∀ other, other ≠ to →
        fs_registry r.1 !! other = fs_registry fs !! other)
  ∧ (r.2 ≠ TargetNotActive → r.1 = fs)
  ∧ (r.2 = TargetNotActive → regUnlinkOk = true →
     fs_registry r.1 !! to = None
     ∧ ∀ ok, (validate ok to r.1).2 = TargetNotFound)
  ∧ validate true to fs
    = validateTargetAgent isProcessAlive isValidAgentName to fs.
Proof.
  unfold validateTargetAgentIo, validateTargetAgent. simpl.
  destruct (isValidAgentName to) eqn:Hn; simpl.
  2:{ split; [split; [done|by intros [? _]]|].
      split; [split; [done|by intros [? _]]|]. done. }
  destruct (fs_registry fs !! to) as [[|reg]|] eqn:Hreg.
  - split; [split; [done|by intros [_ (reg & ? & _)]]|].
    split; [split; [done|by intros [_ (reg & ? & _)]]|]. done.
  - destruct (isProcessAlive (reg_pid reg)) eqn:Ha; simpl.
    + split; [split; [eauto|done]|].
      split; [split; [done|]|done].
      intros [_ (reg' & [= <-] & ?)]. congruence.
    + split; [split; [done|]|].
      { intros [_ (reg' & [= <-] & ?)]. congruence. }
      split; [split; [eauto|done]|].
      split; [by destruct regUnlinkOk|].
      split.
      { intros other Hne. destruct regUnlinkOk; [|done]. simpl.
        by rewrite lookup_delete_ne. }
      split; [done|]. split; [|done].
      intros _ ->. simpl. rewrite lookup_delete_eq. done.
  - split; [split; [done|by intros [_ (reg & ? & _)]]|].
    split; [split; [done|by intros [_ (reg & ? & _)]]|]. done.
Qed.

(** ** Registrations and the staleness of claims *)

(** Whether a claim is stale depends on the registry through the pid and
    the session of the record at the claimant's name only. *)
Lemma isClaimStale_ext isProcessAlive (registry registry' : Registry) c :
  (match registry' !! c_agent c with
   | Some (RegOk reg) => Some (reg_pid reg, reg_sessionId reg)
   | Some RegMalformed => None
   | None => None
   end
   = match registry !! c_agent c with
     | Some (RegOk reg) => Some (reg_pid reg, reg_sessionId reg)
     | Some RegMalformed => None
     | None => None
     end) →
  isClaimStale isProcessAlive registry' c
  = isClaimStale isProcessAlive registry c.
Proof.
  unfold isClaimStale. intros H.
  destruct (negb (isProcessAlive (c_pid c))); [done|].
  destruct (registry' !! c_agent c) as [[|reg']|],
           (registry !! c_agent c) as [[|reg]|]; simplify_eq/=; try done.
  by rewrite H, H0.
Qed.

Lemma isClaimStale_no_record isProcessAlive (registry : Registry) c :
  registry !! c_agent c = None →
  isClaimStale isProcessAlive registry c = true.
Proof.
  unfold isClaimStale. intros ->. by destruct (negb _).
Qed.

(** An agent without a record holds nothing, whatever claims.json says. *)
Lemma no_record_no_claim isProcessAlive (registry : Registry) d name :
  registry !! name = None →
  getAgentCurrentClaim isProcessAlive registry d name = None.
Proof.
  intros Hnone. apply getAgentCurrentClaim_free.
  intros s t (c & Hc & Ha & Hs).
  rewrite isClaimStale_no_record in Hs; [done|by rewrite Ha].
Qed.

(** What an in-place rewrite of the caller's record keeps. *)
Definition keepsIdentity (isProcessAlive : Z → bool) (w w' : World) : Prop :=
  (∀ c, isClaimStale isProcessAlive (fs_registry (w_fs w')) c
        = isClaimStale isProcessAlive (fs_registry (w_fs w)) c)
  ∧ (∀ n, is_Some (fs_registry (w_fs w') !! n)
          ↔ is_Some (fs_registry (w_fs w) !! n))
  ∧ (∀ n, n ≠ agentName (w_state w) →
          fs_registry (w_fs w') !! n = fs_registry (w_fs w) !! n)
  ∧ (∀ reg', fs_registry (w_fs w') !! agentName (w_state w)
             = Some (RegOk reg') →
       ∃ reg, fs_registry (w_fs w) !! agentName (w_state w)
              = Some (RegOk reg)
              ∧ reg_name reg' = reg_name reg ∧ reg_pid reg' = reg_pid reg
              ∧ reg_sessionId reg' = reg_sessionId reg
              ∧ reg_cwd reg' = reg_cwd reg
              ∧ reg_startedAt reg' = reg_startedAt reg)
  ∧ fs_inbox (w_fs w') = fs_inbox (w_fs w)
  ∧ w_module w' = w_module w
  ∧ w_state w' = withModel (w_state w) (model (w_state w')).

Lemma keepsIdentity_refl isProcessAlive w : keepsIdentity isProcessAlive w w.
Proof.
  split; [done|]. split; [done|]. split; [done|]. split; [eauto 10|].
  split; [done|]. split; [done|]. by destruct (w_state w).
Qed.

Lemma keepsIdentity_rewrite isProcessAlive w reg reg' m (ok : bool) :
  fs_registry (w_fs w) !! agentName (w_state w) = Some (RegOk reg) →
  reg_name reg' = reg_name reg → reg_pid reg' = reg_pid reg →
  reg_sessionId reg' = reg_sessionId reg →
  reg_cwd reg' = reg_cwd reg → reg_startedAt reg' = reg_startedAt reg →
  keepsIdentity isProcessAlive w
    (mkWorld (w_module w) (withModel (w_state w) m)
       (mkFS (if ok
              then <[agentName (w_state w) := RegOk reg']>
                     (fs_registry (w_fs w))
              else fs_registry (w_fs w))
             (fs_inbox (w_fs w)))).
Proof.
  intros Hreg Hn Hp Hs Hc Ht. unfold keepsIdentity. simpl. destruct ok.
  2:{ split; [done|]. split; [done|]. split; [done|].
      split; [|done]. intros r Hr. exists r. rewrite Hreg in Hr.
      injection Hr as <-. done. }
  split.
  { intros c. apply isClaimStale_ext.
    destruct (decide (c_agent c = agentName (w_state w))) as [->|Hne].
    - by rewrite lookup_insert_eq, Hreg, Hp, Hs.
    - by rewrite lookup_insert_ne. }
  split.
  { intros n. destruct (decide (n = agentName (w_state w))) as [->|Hne].
    - rewrite lookup_insert_eq, Hreg. split; eauto.
    - by rewrite lookup_insert_ne. }
  split.
  { intros n Hne. by rewrite lookup_insert_ne. }
  split; [|done].
  intros r. rewrite lookup_insert_eq. intros [= <-]. by exists reg.
Qed.

(** X12. [updateRegistration] and [flushActivityToRegistry] rewrite the
    caller's own record in place. They keep its name, pid and session id
    (and start time and working directory), so no claim becomes stale or
    fresh by them; they neither create nor remove a record, leave the
    other records, the inboxes and the module variables alone, and change
    the in-memory state in [model] only. This holds whether or not the
    write goes through. [flushActivityToRegistry] moreover keeps the
    reservations and the spec of the record. *)
Theorem updateRegistration_keeps_identity
    (isProcessAlive : Z → bool) (regWriteOk : bool) (ctx : Ctx) (w : World) :
  keepsIdentity isProcessAlive w (updateRegistration regWriteOk ctx w)
  ∧ keepsIdentity isProcessAlive w (flushActivityToRegistry regWriteOk ctx w)
  ∧ (∀ reg reg',
       fs_registry (w_fs w) !! agentName (w_state w) = Some (RegOk reg) →
       fs_registry (w_fs (flushActivityToRegistry regWriteOk ctx w))
         !! agentName (w_state w) = Some (RegOk reg') →
       reg_reservations reg' = reg_reservations reg
       ∧ reg_spec reg' = reg_spec reg).
Proof.
  split; [|split].
  - unfold updateRegistration.
    destruct (negb (registered (w_state w)));
      [apply keepsIdentity_refl|].
    destruct (fs_registry (w_fs w) !! agentName (w_state w))
      as [[|reg]|] eqn:Hreg; try apply keepsIdentity_refl.
    by apply (keepsIdentity_rewrite isProcessAlive w reg).
  - unfold flushActivityToRegistry.
    destruct (negb (registered (w_state w)));
      [apply keepsIdentity_refl|].
    destruct (fs_registry (w_fs w) !! agentName (w_state w))
      as [[|reg]|] eqn:Hreg; try apply keepsIdentity_refl.
    by apply (keepsIdentity_rewrite isProcessAlive w reg).
  - intros reg reg' Hreg. unfold flushActivityToRegistry.
    destruct (negb (registered (w_state w))).
    { rewrite Hreg. by intros [= <-]. }
    rewrite Hreg. simpl. destruct regWriteOk.
    + rewrite lookup_insert_eq. by intros [= <-].
    + rewrite Hreg. by intros [= <-].
Qed.

(** ** Leaving *)

(** X13. [unregister] by a registered agent clears the in-memory flag and
    the agents cache and leaves the inboxes and the other records alone.
    When the unlink of its record goes through, the record is gone, and
    with it every claim of the agent: each is stale from then on, so
    [getAgentCurrentClaim] reports none for the agent on any claims
    file. A second [unregister] changes nothing. *)
Theorem unregister_drops_claims
    (isProcessAlive : Z → bool) (w : World) :
  registered (w_state w) = true →
  let name := agentName (w_state w) in
  let w' := unregister true w in
  registered (w_state w') = false
  ∧ agentName (w_state w') = name
  ∧ agentsCacheValid (w_module w') = false
  ∧ fs_registry (w_fs w') !! name = None
  ∧ (∀ n, n ≠ name →
          fs_registry (w_fs w') !! n = fs_registry (w_fs w) !! n)
  ∧ fs_inbox (w_fs w') = fs_inbox (w_fs w)
  ∧ (∀ c, c_agent c = name →
          isClaimStale isProcessAlive (fs_registry (w_fs w')) c = true)
  ∧ (∀ d, getAgentCurrentClaim isProcessAlive (fs_registry (w_fs w')) d name
          = None)
  ∧ (∀ ok, unregister ok w' = w')
  ∧ (∀ ok, unregister ok (unregister false w) = unregister false w).
Proof.
  intros Hreg. unfold unregister. rewrite Hreg. simpl.
  split; [done|]. split; [done|]. split; [done|].
  split; [apply lookup_delete_eq|].
  split; [intros n Hne; by rewrite lookup_delete_ne|].
  split; [done|]. split.
  { intros c Hc. apply isClaimStale_no_record. rewrite Hc.
    apply lookup_delete_eq. }
  split; [|done].
  intros d. apply no_record_no_claim, lookup_delete_eq.
Qed.

(** A holds T-7 in [diskS5]; after A unregisters, the claim is still in
    the file and no longer counts. *)
Lemma unregister_drops_claims_witness :
  getAgentCurrentClaim everyoneAlive
    (fs_registry (w_fs (unregister true
       (mkWorld idleModule
          (mkState "A" true [] None false (mkSession 0 0 []) "t0" None
                   "unknown" None "t0")
          (mkFS twoAgents ∅)))))
    diskS5 "A"
  = None.
Proof.
  exact (proj1 (proj2 (proj2 (proj2 (proj2 (proj2 (proj2 (proj2
    (unregister_drops_claims everyoneAlive
       (mkWorld idleModule
          (mkState "A" true [] None false (mkSession 0 0 []) "t0" None
                   "unknown" None "t0")
          (mkFS twoAgents ∅))
       eq_refl)))))))) diskS5).
Defined.

(** ** Renaming and what the old name leaves behind *)

(** X14. [renameAgent] does not touch claims.json. After a successful
    rename whose unlink of the old record goes through, no record is left
    at the old name, so every claim made under the old name is stale from
    then on: [getClaims] no longer shows it, [getAgentCurrentClaim]
    reports none for the old name, and the entry is removed by the purge
    of the next swarm call. *)
Theorem renameAgent_orphans_claims
    (isProcessAlive : Z → bool) (isValidAgentName : string → bool)
    (env : RenameEnv) (ctx : Ctx) (newName : string) (deliverFn : DeliverFn)
    (w : World) (old new : string) :
  oldRegUnlinkOk env = true →
  let r := renameAgent isProcessAlive isValidAgentName env ctx newName
             deliverFn w in
  r.1.2 = RenameSuccess old new →
  let registry' := fs_registry (w_fs r.1.1) in
  old = agentName (w_state w)
  ∧ registry' !! old = None
  ∧ (∀ c, c_agent c = old →
          isClaimStale isProcessAlive registry' c = true)
  ∧ (∀ d s t c, lookup2 (readClaimsSync d) s t = Some c → c_agent c = old →
                lookup2 (getClaims isProcessAlive registry' d) s t = None
                ∧ lookup2 (cleanupStaleClaims isProcessAlive registry'
                             (readClaimsSync d)).1 s t = None)
  ∧ (∀ d, getAgentCurrentClaim isProcessAlive registry' d old = None).
Proof.
  intros Hunlink r Hr registry'.
  destruct (renameAgent_success_inv isProcessAlive isValidAgentName env ctx
              newName deliverFn w old new Hr)
    as (Hold & _ & _ & _ & Hgone & _).
  specialize (Hgone Hunlink).
  fold r in Hgone. fold registry' in Hgone.
  assert (∀ c, c_agent c = old →
               isClaimStale isProcessAlive registry' c = true) as Hstale.
  { intros c Hc. apply isClaimStale_no_record. by rewrite Hc. }
  split; [done|]. split; [done|]. split; [done|]. split.
  - intros d s t c Hc Ha. split.
    + unfold getClaims. rewrite filterStaleClaims_eq.
      apply eq_None_not_Some. intros [c' Hc'].
      apply lookup2_purge in Hc' as [Hc' Hs].
      apply lookup2_stripProto in Hc' as [Hc' _].
      assert (c' = c) as -> by congruence.
      rewrite Hstale in Hs; done.
    + rewrite cleanupStaleClaims_fst.
      apply eq_None_not_Some. intros [c' Hc'].
      apply lookup2_purge in Hc' as [Hc' Hs].
      assert (c' = c) as -> by congruence.
      rewrite Hstale in Hs; done.
  - intros d. by apply no_record_no_claim.
Qed.

(** "Old" holds T-1 and renames itself to "New". *)
Lemma renameAgent_orphans_claims_witness :
  getAgentCurrentClaim everyoneAlive
    (fs_registry (w_fs (renameAgent everyoneAlive (λ _, true) quietEnv
                          pidCtx "New" (λ _, true) oldWorld).1.1))
    (mkDisk (Json {[ "spec.md" :=
                       {[ "T-1" := mkClaim "Old" "s1" 100 "t1" None ]} ]})
            Absent)
    "Old"
  = None.
Proof.
  assert ((renameAgent everyoneAlive (λ _, true) quietEnv pidCtx "New"
             (λ _, true) oldWorld).1.2 = RenameSuccess "Old" "New") as Hr
    by (vm_compute; reflexivity).
  exact (proj2 (proj2 (proj2 (proj2
    (renameAgent_orphans_claims everyoneAlive (λ _, true) quietEnv pidCtx
       "New" (λ _, true) oldWorld "Old" "New" eq_refl Hr)))) _).
Defined.

(** X15. A rename from inside a processing pass drains nothing. When
    [renameAgent] succeeds while a pass is in progress, it hands no
    message to the callback: the drain only records itself as pending.
    An old inbox that still holds a file is therefore not removed and
    keeps its files, while the state already carries the new name. *)
Theorem renameAgent_inside_pass
    (isProcessAlive : Z → bool) (isValidAgentName : string → bool)
    (env : RenameEnv) (ctx : Ctx) (newName : string) (deliverFn : DeliverFn)
    (w : World) (old new : string) (dir : InboxDir) :
  isProcessingMessages (w_module w) = true →
  fs_inbox (w_fs w) !! agentName (w_state w) = Some dir →
  dir ≠ ∅ →
  let r := renameAgent isProcessAlive isValidAgentName env ctx newName
             deliverFn w in
  r.1.2 = RenameSuccess old new →
  Forall (λ e, isDeliver e = false) r.2
  ∧ pendingProcessArgs (w_module r.1.1) = Some deliverFn
  ∧ agentName (w_state r.1.1) = new
  ∧ fs_inbox (w_fs r.1.1) !! old = Some dir.
Proof.
  intros Hbusy Hdir Hfull r Hr.
  destruct (renameAgent_success_inv isProcessAlive isValidAgentName env ctx
              newName deliverFn w old new Hr)
    as (-> & -> & Hne & Hreg & _ & Hinbox & Hname & Hpend & pre & Hev & Hpre).
  fold r in Hinbox, Hname, Hpend, Hev.
  unfold processAllPendingMessages in Hinbox, Hpend, Hev.
  rewrite Hreg, Hbusy in Hinbox, Hpend, Hev. simpl in Hinbox, Hpend, Hev.
  split.
  { rewrite Hev. apply Forall_app. split; [done|].
    apply migrateInbox_no_deliver. }
  split; [done|]. split; [done|].
  rewrite Hinbox. unfold migrateInbox.
  assert (∀ inboxes : gmap string InboxDir,
            inboxes !! agentName (w_state w) = Some dir →
            (rmdirSync (rmdirOk env) (agentName (w_state w)) inboxes).1
            !! agentName (w_state w) = Some dir) as Hkeep.
  { intros inboxes Hin. unfold rmdirSync. rewrite Hin.
    by rewrite decide_False. }
  cbn [fst snd]. apply Hkeep.
  destruct (fs_inbox (w_fs w) !! newName) as [dirNew|]; simpl;
    [destruct (readdirOk env); simpl|];
    rewrite ?lookup_insert_ne by done; done.
Qed.

Lemma renameAgent_inside_pass_witness :
  fs_inbox (w_fs (renameAgent everyoneAlive (λ _, true) quietEnv pidCtx
                    "New" (λ _, true)
                    (mkWorld busyModule oldState (w_fs oldWorld))).1.1)
    !! "Old"
  = Some oldInbox.
Proof.
  assert ((renameAgent everyoneAlive (λ _, true) quietEnv pidCtx "New"
             (λ _, true) (mkWorld busyModule oldState (w_fs oldWorld))).1.2
          = RenameSuccess "Old" "New") as Hr
    by (vm_compute; reflexivity).
  assert (oldInbox ≠ ∅) as Hfull.
  { intros He.
    assert (oldInbox !! "100-aaa.json" = None) as Hl
      by (rewrite He; apply lookup_empty).
    vm_compute in Hl. discriminate. }
  exact (proj2 (proj2 (proj2
    (renameAgent_inside_pass everyoneAlive (λ _, true) quietEnv pidCtx
       "New" (λ _, true) (mkWorld busyModule oldState (w_fs oldWorld))
       "Old" "New" oldInbox eq_refl eq_refl Hfull Hr)))).
Defined.

(** ** Joining the registry *)

Lemma ensureInbox_is_Some name (inboxes : gmap string InboxDir) :
  is_Some (ensureInbox name inboxes !! name).
Proof.
  unfold ensureInbox. destruct (inboxes !! name) eqn:H; [by rewrite H|].
  rewrite lookup_insert_eq. eauto.
Qed.

Lemma ensureInbox_keeps name (inboxes : gmap string InboxDir) m dir :
  inboxes !! m = Some dir → ensureInbox name inboxes !! m = Some dir.
Proof.
  unfold ensureInbox. intros Hm.
  destruct (inboxes !! name) eqn:H; [done|].
  rewrite lookup_insert_ne; [done|]. intros ->. congruence.
Qed.

Lemma notify_length env msg :
  length (notify env msg) = if hasUI env then 1%nat else 0%nat.
Proof. unfold notify. by destruct (hasUI env). Qed.

Section RegisterFacts.

Variable isProcessAlive : Z → bool.
Variable isValidAgentName : string → bool.

(** The name [findAvailableName] returns is not held by a live process
    other than the caller. *)
Lemma findAvailableName_not_peer ownPid baseName (registry : Registry) n reg :
  findAvailableName isProcessAlive ownPid baseName registry = Some n →
  registry !! n = Some (RegOk reg) →
  isProcessAlive (reg_pid reg) = false ∨ reg_pid reg = ownPid.
Proof.
  unfold findAvailableName. intros Hfind Hn.
  destruct (registry !! baseName) as [[|existing]|] eqn:Hbase.
  - injection Hfind as <-. congruence.
  - destruct (isProcessAlive (reg_pid existing)) eqn:Halive; simpl in Hfind.
    + destruct (Z.eqb_spec (reg_pid existing) ownPid) as [Hown|Hother].
      * injection Hfind as <-. right. congruence.
      * apply probeAlternatives_Some in Hfind
          as (j & _ & _ & Hfree & _).
        unfold nameFree in Hfree. rewrite Hn in Hfree. left.
        by destruct (isProcessAlive (reg_pid reg)).
    + injection Hfind as <-. left. congruence.
  - injection Hfind as <-. congruence.
Qed.

Lemma chooseName_not_peer explicit ctx (registry : Registry) name n reg :
  chooseName isProcessAlive isValidAgentName explicit ctx registry name
  = NameChosen n →
  registry !! n = Some (RegOk reg) →
  isProcessAlive (reg_pid reg) = false ∨ reg_pid reg = ctx_pid ctx.
Proof.
  unfold chooseName. destruct explicit.
  - destruct (negb (isValidAgentName name)); [done|].
    destruct (registry !! name) as [[|existing]|] eqn:Hname.
    + intros [= <-]. congruence.
    + destruct (isProcessAlive (reg_pid existing)) eqn:Halive; simpl.
      * destruct (Z.eqb_spec (reg_pid existing) (ctx_pid ctx))
          as [Hown|Hother]; simpl; [|done].
        intros [= <-] Hn. right. congruence.
      * intros [= <-] Hn. left. congruence.
    + intros [= <-]. congruence.
  - destruct (findAvailableName _ _ _ _) as [availableName|] eqn:Hfind;
      [|done].
    intros [= <-] Hn. by eapply findAvailableName_not_peer.
Qed.

Lemma chooseName_explicit ctx (registry : Registry) name n :
  chooseName isProcessAlive isValidAgentName true ctx registry name
  = NameChosen n →
  n = name ∧ isValidAgentName name = true.
Proof.
  unfold chooseName.
  destruct (isValidAgentName name); simpl; [|done].
  destruct (registry !! name) as [[|existing]|]; try by intros [= <-].
  destruct (_ && _); [done|]. by intros [= <-].
Qed.

(** What a run of the loop guarantees, whatever the passes meet. *)
Lemma registerLoop_outcome env ctx i n w :
  registered (w_state w) = false →
  let r := registerLoop isProcessAlive isValidAgentName env ctx i n w in
  (if r.1.2
   then registered (w_state r.1.1) = true
        ∧ r.2 = []
        ∧ (∃ reg, fs_registry (w_fs r.1.1) !! agentName (w_state r.1.1)
                  = Some (RegOk reg)
                  ∧ reg_pid reg = ctx_pid ctx)
        ∧ is_Some (fs_inbox (w_fs r.1.1) !! agentName (w_state r.1.1))
        ∧ agentsCacheValid (w_module r.1.1) = false
        ∧ model (w_state r.1.1) = default "unknown" (ctx_modelId ctx)
   else registered (w_state r.1.1) = false
        ∧ length r.2 = if hasUI env then 1%nat else 0%nat)
  ∧ (∀ m dir, fs_inbox (w_fs w) !! m = Some dir →
              fs_inbox (w_fs r.1.1) !! m = Some dir)
  ∧ (explicitName env = true →
     agentName (w_state r.1.1) = agentName (w_state w)).
Proof.
  revert i w. induction n as [|n IH]; intros i w Hreg; simpl.
  { split; [|done]. split; [done|apply notify_length]. }
  destruct (chooseName _ _ _ _ _ _) as [msg|name] eqn:Hname; simpl.
  { split; [|done]. split; [done|apply notify_length]. }
  assert (explicitName env = true → name = agentName (w_state w)) as Hsame.
  { intros He. rewrite He in Hname.
    by apply chooseName_explicit in Hname as [-> _]. }
  destruct (att_writeError (attempt env i)) as [msg|]; simpl.
  { split; [split; [done|apply notify_length]|].
    split; [apply ensureInbox_keeps|done]. }
  destruct (readBack ctx _ name) as [verified verifyError] eqn:Hrb.
  simpl. destruct verified; simpl.
  { split.
    - split; [done|]. split; [done|].
      split; [apply readBack_verified; by rewrite Hrb|].
      split; [apply ensureInbox_is_Some|done].
    - split; [apply ensureInbox_keeps|done]. }
  destruct (explicitName env) eqn:Hexp; simpl.
  { split; [split; [done|apply notify_length]|].
    split; [apply ensureInbox_keeps|auto]. }
  match goal with
  | |- context [registerLoop _ _ _ _ _ _ ?w1] =>
      destruct (IH (S i) w1 Hreg) as (Hres & Hinbox & _)
  end.
  split; [exact Hres|]. split; [|done].
  intros m dir Hm. apply Hinbox. simpl. by apply ensureInbox_keeps.
Qed.

End RegisterFacts.

(** X16. What [register] guarantees, whatever the passes of its loop
    meet (failed unlinks, a failed write, peers writing to the registry).
    An agent already registered gets [true] and nothing changes.
    Otherwise, when it returns [true], the agent is flagged registered,
    the registry holds a well-formed record at its name carrying the
    caller's pid, its inbox exists, the agents cache is invalidated, and
    nothing was notified; when it returns [false], the agent is not
    flagged registered and exactly one error was notified (none without
    a UI). In both cases every inbox that existed still exists with its
    files, and an explicit name is never replaced by another. *)
Theorem register_outcome
    (isProcessAlive : Z → bool) (isValidAgentName : string → bool)
    (env : RegisterEnv) (ctx : Ctx) (w : World) :
  let r := register isProcessAlive isValidAgentName env ctx w in
  (registered (w_state w) = true → r = (w, true, []))
  ∧ (registered (w_state w) = false →
     (if r.1.2
      then registered (w_state r.1.1) = true
           ∧ r.2 = []
           ∧ (∃ reg, fs_registry (w_fs r.1.1) !! agentName (w_state r.1.1)
                     = Some (RegOk reg)
                     ∧ reg_pid reg = ctx_pid ctx)
           ∧ is_Some (fs_inbox (w_fs r.1.1) !! agentName (w_state r.1.1))
           ∧ agentsCacheValid (w_module r.1.1) = false
           ∧ model (w_state r.1.1) = default "unknown" (ctx_modelId ctx)
      else registered (w_state r.1.1) = false
           ∧ length r.2 = if hasUI env then 1%nat else 0%nat)
     ∧ (∀ m dir, fs_inbox (w_fs w) !! m = Some dir →
                 fs_inbox (w_fs r.1.1) !! m = Some dir)
     ∧ (explicitName env = true → agentName (w_state w) ≠ EmptyString →
        agentName (w_state r.1.1) = agentName (w_state w))).
Proof.
  unfold register. simpl. split.
  { by intros ->. }
  intros Hreg. rewrite Hreg.
  match goal with
  | |- context [registerLoop _ _ _ _ _ ?n ?w1] =>
      destruct (registerLoop_outcome isProcessAlive isValidAgentName env ctx
                  0 n w1) as (Hres & Hinbox & Hname)
  end.
  { simpl. by destruct (String.eqb _ _). }
  split; [exact Hres|]. split; [exact Hinbox|].
  intros Hexp Hne. rewrite (Hname Hexp). simpl.
  by rewrite (proj2 (String.eqb_neq _ _) Hne).
Qed.

(** ** Joining when nobody interferes *)

(** A pass whose write goes through and during which no peer touches
    the registry. *)
Definition quietAttempt (att : RegisterAttempt) : Prop :=
  att_writeError att = None
  ∧ (∀ registry, att_peersBeforeWrite att registry = registry)
  ∧ (∀ registry, att_peersBeforeVerify att registry = registry).

Section RegisterQuiet.

Variable isProcessAlive : Z → bool.
Variable isValidAgentName : string → bool.

Lemma registerLoop_quiet env ctx i n w name :
  quietAttempt (attempt env i) →
  chooseName isProcessAlive isValidAgentName (explicitName env) ctx
    (fs_registry (w_fs w)) (agentName (w_state w)) = NameChosen name →
  registerLoop isProcessAlive isValidAgentName env ctx i (S n) w
  = (mkWorld (invalidateAgentsCache (w_module w))
       (registeredState ctx (attempt env i)
          (withAgentName (w_state w) name))
       (mkFS (<[name := RegOk (registrationOf ctx (attempt env i)
                             (withAgentName (w_state w) name))]>
                (fs_registry (w_fs w)))
             (ensureInbox name (fs_inbox (w_fs w)))),
     true, []).
Proof.
  intros (Hwrite & Hpeers1 & Hpeers2) Hname. simpl.
  rewrite Hname, Hwrite, Hpeers1, Hpeers2. unfold readBack.
  rewrite lookup_insert_eq. simpl. rewrite Z.eqb_refl. simpl.
  destruct (att_regUnlinkOk (attempt env i)); [|done].
  by rewrite insert_delete_eq.
Qed.

End RegisterQuiet.

(** X17. [register] when nobody interferes: the write of the first pass
    goes through and no peer touches the registry meanwhile. If the name
    check refuses (an explicit name that is malformed or held by a live
    process other than the caller; no free name among base, base2 ..
    base99), [register] returns [false] with that one notification and
    leaves the directories alone. Otherwise it returns [true] under the
    chosen name, the registry differs from before by the new record at
    that name only, no record of a live process other than the caller is
    replaced, and (the caller being alive) a claim the agent makes with
    its session id and pid is not stale. *)
Theorem register_quiet
    (isProcessAlive : Z → bool) (isValidAgentName : string → bool)
    (env : RegisterEnv) (ctx : Ctx) (w : World) :
  registered (w_state w) = false →
  quietAttempt (attempt env 0) →
  let st0 :=
    if String.eqb (agentName (w_state w)) EmptyString
    then withAgentName (w_state w) (generatedName env)
    else w_state w in
  let r := register isProcessAlive isValidAgentName env ctx w in
  match chooseName isProcessAlive isValidAgentName (explicitName env) ctx
          (fs_registry (w_fs w)) (agentName st0) with
  | NameRefused msg =>
      r = (mkWorld (w_module w) st0 (w_fs w), false, notify env msg)
  | NameChosen name =>
      r.1.2 = true
      ∧ agentName (w_state r.1.1) = name
      ∧ fs_registry (w_fs r.1.1)
        = <[name := RegOk (registrationOf ctx (attempt env 0)
                             (withAgentName st0 name))]>
            (fs_registry (w_fs w))
      ∧ (∀ m reg, fs_registry (w_fs w) !! m = Some (RegOk reg) →
                  isProcessAlive (reg_pid reg) = true →
                  reg_pid reg ≠ ctx_pid ctx →
                  fs_registry (w_fs r.1.1) !! m = Some (RegOk reg))
      ∧ (isProcessAlive (ctx_pid ctx) = true →
         ∀ now reason,
           isClaimStale isProcessAlive (fs_registry (w_fs r.1.1))
             (mkClaim name (ctx_sessionId ctx) (ctx_pid ctx) now reason)
           = false)
  end.
Proof.
  intros Hreg Hquiet st0 r.
  assert (r = registerLoop isProcessAlive isValidAgentName env ctx 0
                (if explicitName env then 1 else 3)%nat
                (mkWorld (w_module w) st0 (w_fs w))) as Hr.
  { unfold r, register. by rewrite Hreg. }
  destruct (chooseName _ _ _ _ _ _) as [msg|name] eqn:Hname.
  { rewrite Hr.
    destruct (explicitName env) eqn:Hexp; simpl; by rewrite ?Hexp, Hname. }
  assert (r = (mkWorld (invalidateAgentsCache (w_module w))
                 (registeredState ctx (attempt env 0)
                    (withAgentName st0 name))
                 (mkFS (<[name := RegOk (registrationOf ctx (attempt env 0)
                                       (withAgentName st0 name))]>
                          (fs_registry (w_fs w)))
                       (ensureInbox name (fs_inbox (w_fs w)))),
               true, [])) as ->.
  { rewrite Hr.
    assert (∃ n, (if explicitName env then 1 else 3)%nat = S n) as [n ->]
      by (destruct (explicitName env); eauto).
    by rewrite (registerLoop_quiet isProcessAlive isValidAgentName env ctx
                  0 n _ name). }
  simpl. split; [done|]. split; [done|]. split; [done|]. split.
  - intros m reg Hm Halive Hother.
    rewrite lookup_insert_ne; [done|]. intros <-.
    destruct (chooseName_not_peer isProcessAlive isValidAgentName _ _ _ _
                _ reg Hname Hm); congruence.
  - intros Halive now reason. unfold isClaimStale. simpl.
    rewrite Halive, lookup_insert_eq. simpl.
    by rewrite Halive, String.eqb_refl.
Qed.

Definition quietRegisterEnv : RegisterEnv :=
  mkRegisterEnv false true "Swift"
    (λ _, mkAttempt "t5" None true (λ r, r) None (λ r, r) (λ r, r) true).

Definition newcomer : World :=
  mkWorld idleModule
    (mkState "" false [] None false (mkSession 0 0 []) "t0" None "unknown"
             None "t0")
    (mkFS swiftRegistry ∅).

(** A third process joins while Swift and Swift2 are held: it becomes
    Swift3 and the two records stay. *)
Lemma register_quiet_witness :
  agentName (w_state (register everyoneAlive (λ _, true) quietRegisterEnv
                        (mkCtx 102 "/work" "s3" None None "t5")
                        newcomer).1.1)
  = "Swift3".
Proof.
  assert (quietAttempt (attempt quietRegisterEnv 0)) as Hquiet by done.
  pose proof (register_quiet everyoneAlive (λ _, true) quietRegisterEnv
                (mkCtx 102 "/work" "s3" None None "t5") newcomer
                eq_refl Hquiet) as H.
  assert (chooseName everyoneAlive (λ _, true) false
            (mkCtx 102 "/work" "s3" None None "t5") swiftRegistry "Swift"
          = NameChosen "Swift3") as Hname by (vm_compute; reflexivity).
  cbv zeta in H.
  change (chooseName _ _ _ _ _ _) with
    (chooseName everyoneAlive (λ _, true) false
       (mkCtx 102 "/work" "s3" None None "t5") swiftRegistry "Swift") in H.
  rewrite Hname in H. exact (proj1 (proj2 H)).
Defined.

(** ** Losing the race for a name *)

Lemma length_append_str (a b : string) :
  String.length (a +:+ b) = (String.length a + String.length b)%nat.
Proof. induction a as [|x a IH]; simpl; [done|]. by rewrite IH. Qed.

Lemma append_nonempty_ne (a b : string) :
  b ≠ EmptyString → a +:+ b ≠ a.
Proof.
  intros Hb Heq. apply (f_equal String.length) in Heq.
  rewrite length_append_str in Heq. destruct b; [done|]. simpl in Heq. lia.
Qed.

Section RegisterRace.

Variable isProcessAlive : Z → bool.
Variable isValidAgentName : string → bool.

(** A pass whose record a live peer overwrites before the read-back hands
    over to the next pass, with the name it tried. *)
Lemma registerLoop_overwritten env ctx i n w name peer :
  explicitName env = false →
  chooseName isProcessAlive isValidAgentName false ctx
    (fs_registry (w_fs w)) (agentName (w_state w)) = NameChosen name →
  att_writeError (attempt env i) = None →
  (∀ registry, att_peersBeforeWrite (attempt env i) registry = registry) →
  (∀ registry, att_peersBeforeVerify (attempt env i) registry
               = <[name := RegOk peer]> registry) →
  reg_pid peer ≠ ctx_pid ctx →
  registerLoop isProcessAlive isValidAgentName env ctx i (S n) w
  = registerLoop isProcessAlive isValidAgentName env ctx (S i) n
      (mkWorld (invalidateAgentsCache (w_module w))
         (withAgentName (w_state w) name)
         (mkFS (<[name := RegOk peer]> (fs_registry (w_fs w)))
               (ensureInbox name (fs_inbox (w_fs w))))).
Proof.
  intros Hexp Hname Hwrite Hpeers1 Hpeers2 Hother. simpl.
  rewrite Hexp, Hname, Hwrite, Hpeers1, Hpeers2. unfold readBack.
  rewrite lookup_insert_eq. simpl.
  rewrite (proj2 (Z.eqb_neq _ _) Hother). simpl.
  rewrite insert_insert_eq.
  destruct (att_regUnlinkOk (attempt env i)); [|done].
  by rewrite insert_delete_eq.
Qed.

(** The first alternative is taken when nothing is recorded under it. *)
Lemma findAvailableName_second ownPid baseName (registry : Registry) peer :
  registry !! baseName = Some (RegOk peer) →
  isProcessAlive (reg_pid peer) = true →
  reg_pid peer ≠ ownPid →
  registry !! (baseName +:+ "2") = None →
  findAvailableName isProcessAlive ownPid baseName registry
  = Some (baseName +:+ "2").
Proof.
  intros Hbase Halive Hother Hfree. unfold findAvailableName.
  rewrite Hbase, Halive, (proj2 (Z.eqb_neq _ _) Hother). simpl.
  change (probeAlternatives isProcessAlive registry baseName 2 98)
    with (match registry !! (baseName +:+ "2") with
          | None => Some (baseName +:+ "2")
          | Some RegMalformed => Some (baseName +:+ "2")
          | Some (RegOk altReg) =>
              if negb (isProcessAlive (reg_pid altReg))
              then Some (baseName +:+ "2")
              else probeAlternatives isProcessAlive registry baseName 3 97
          end).
  by rewrite Hfree.
Qed.

End RegisterRace.

(** X18. A lost race stacks the suffix. With a generated name, when the
    first pass of [register] writes its record under the name it found
    and a live peer overwrites that record before the read-back, the
    second pass looks for a name starting from the name just lost, not
    from the original base: if nothing is recorded under that name with
    "2" appended and nobody interferes again, the agent is registered
    under it (an agent that lost "Swift2" becomes "Swift22"), and the
    peer's record stays. *)
Theorem register_retry_extends_lost_name
    (isProcessAlive : Z → bool) (isValidAgentName : string → bool)
    (env : RegisterEnv) (ctx : Ctx) (w : World) (lost : string)
    (peer : AgentRegistration) :
  registered (w_state w) = false →
  explicitName env = false →
  agentName (w_state w) ≠ EmptyString →
  findAvailableName isProcessAlive (ctx_pid ctx) (agentName (w_state w))
    (fs_registry (w_fs w)) = Some lost →
  att_writeError (attempt env 0) = None →
  (∀ registry, att_peersBeforeWrite (attempt env 0) registry = registry) →
  (∀ registry, att_peersBeforeVerify (attempt env 0) registry
               = <[lost := RegOk peer]> registry) →
  isProcessAlive (reg_pid peer) = true →
  reg_pid peer ≠ ctx_pid ctx →
  fs_registry (w_fs w) !! (lost +:+ "2") = None →
  quietAttempt (attempt env 1) →
  let r := register isProcessAlive isValidAgentName env ctx w in
  r.1.2 = true
  ∧ agentName (w_state r.1.1) = lost +:+ "2"
  ∧ fs_registry (w_fs r.1.1) !! lost = Some (RegOk peer)
  ∧ ∃ reg, fs_registry (w_fs r.1.1) !! (lost +:+ "2") = Some (RegOk reg)
           ∧ reg_name reg = lost +:+ "2"
           ∧ reg_pid reg = ctx_pid ctx.
Proof.
  intros Hreg Hexp Hname Hfind Hwrite Hpeers1 Hpeers2 Halive Hother Hfree
         Hquiet r.
  assert (lost +:+ "2" ≠ lost) as Hne by by apply append_nonempty_ne.
  unfold r, register.
  rewrite Hreg, Hexp, (proj2 (String.eqb_neq _ _) Hname).
  rewrite (registerLoop_overwritten isProcessAlive isValidAgentName env ctx
             0 2 _ lost peer); try done.
  2:{ unfold chooseName. simpl. by rewrite Hfind. }
  rewrite (registerLoop_quiet isProcessAlive isValidAgentName env ctx
             1 1 _ (lost +:+ "2")); [|done|].
  2:{ unfold chooseName. rewrite Hexp. simpl.
      rewrite (findAvailableName_second isProcessAlive (ctx_pid ctx) lost
                 _ peer); try done.
      - apply lookup_insert_eq.
      - by rewrite lookup_insert_ne. }
  simpl. split; [done|]. split; [done|]. split.
  - rewrite lookup_insert_ne by done. apply lookup_insert_eq.
  - eexists. rewrite lookup_insert_eq. done.
Qed.

(** Swift and Swift2 are held; a third process finds Swift3, and the
    process with pid 103 takes Swift3 before the read-back. *)
Definition racedRegisterEnv : RegisterEnv :=
  mkRegisterEnv false true "Swift"
    (λ i, mkAttempt "t5" None true (λ r, r) None
            (if (i =? 0)%nat
             then (λ r, <["Swift3" := RegOk (regOf "Swift3" 103 "s4")]> r)
             else (λ r, r))
            (λ r, r) true).

Lemma register_retry_extends_lost_name_witness :
  agentName (w_state (register everyoneAlive (λ _, true) racedRegisterEnv
                        (mkCtx 102 "/work" "s3" None None "t5")
                        (mkWorld idleModule
                           (withAgentName (w_state newcomer) "Swift")
                           (w_fs newcomer))).1.1)
  = "Swift32".
Proof.
  assert (findAvailableName everyoneAlive 102 "Swift" swiftRegistry
          = Some "Swift3") as Hfind by (vm_compute; reflexivity).
  assert (swiftRegistry !! "Swift32" = None) as Hfree
    by (vm_compute; reflexivity).
  assert ("Swift" ≠ EmptyString) as Hname by done.
  assert ((103 : Z) ≠ 102) as Hother by lia.
  assert (quietAttempt (attempt racedRegisterEnv 1)) as Hquiet by done.
  exact (proj1 (proj2
    (register_retry_extends_lost_name everyoneAlive (λ _, true)
       racedRegisterEnv (mkCtx 102 "/work" "s3" None None "t5")
       (mkWorld idleModule (withAgentName (w_state newcomer) "Swift")
          (w_fs newcomer))
       "Swift3" (regOf "Swift3" 103 "s4")
       eq_refl eq_refl Hname Hfind eq_refl (λ _, eq_refl) (λ _, eq_refl)
       eq_refl Hother Hfree Hquiet))).
Defined.

(** ** Who is active *)

Section AgentsFacts.

Variable isProcessAlive : Z → bool.
Variable env : AgentsEnv.

(** The record of a file, if it is collected. *)
Definition liveOf (kv : string * RegFile) : option AgentRegistration :=
  match kv.2 with
  | RegOk reg => if isProcessAlive (reg_pid reg) then Some reg else None
  | RegMalformed => None
  end.

(** The name logged for a file, if its record is of a dead process and
    the logging goes through. *)
Definition leftOf (kv : string * RegFile) : option string :=
  match kv.2 with
  | RegOk reg =>
      if negb (isProcessAlive (reg_pid reg)) && ae_feedOk env (reg_name reg)
      then Some (reg_name reg) else None
  | RegMalformed => None
  end.

(** The file is unlinked. *)
Definition evicted (kv : string * RegFile) : bool :=
  match leftOf kv with
  | Some _ => ae_unlinkOk env kv.1
  | None => false
  end.

Lemma readRegistration_eq file rf acc :
  readRegistration isProcessAlive env file rf acc
  = ((if evicted (file, rf) then delete file acc.1.1 else acc.1.1),
     option_list (leftOf (file, rf)) ++ acc.1.2,
     acc.2 ++ option_list (liveOf (file, rf))).
Proof.
  destruct acc as [[registry feed] agents].
  unfold readRegistration, evicted, leftOf, liveOf. simpl.
  destruct rf as [|reg]; simpl; [by rewrite app_nil_r|].
  destruct (isProcessAlive (reg_pid reg)); simpl; [done|].
  destruct (ae_feedOk env (reg_name reg)); simpl; by rewrite ?app_nil_r.
Qed.

Lemma readRegistry_fold (l : list (string * RegFile)) registry feed agents :
  let r := foldl (λ acc kv, readRegistration isProcessAlive env kv.1 kv.2 acc)
             (registry, feed, agents) l in
  r.2 = agents ++ omap liveOf l
  ∧ (∀ name, name ∈ r.1.2 ↔ name ∈ feed ∨ name ∈ omap leftOf l)
  ∧ (∀ file, r.1.1 !! file
             = if existsb (λ kv, String.eqb kv.1 file && evicted kv) l
               then None else registry !! file).
Proof.
  revert registry feed agents.
  induction l as [|[f rf] l IH]; intros registry feed agents; simpl.
  { split; [by rewrite app_nil_r|]. split; [|done].
    intros name. rewrite elem_of_nil. tauto. }
  rewrite readRegistration_eq. simpl.
  destruct (IH (if evicted (f, rf) then delete f registry else registry)
               (option_list (leftOf (f, rf)) ++ feed)
               (agents ++ option_list (liveOf (f, rf))))
    as (Hagents & Hfeed & Hreg).
  split; [|split].
  - rewrite Hagents, <- app_assoc. f_equal.
    by destruct (liveOf (f, rf)).
  - intros name. rewrite Hfeed, elem_of_app.
    destruct (leftOf (f, rf)) as [n|]; simpl.
    + rewrite list_elem_of_singleton, elem_of_cons. tauto.
    + rewrite elem_of_nil. tauto.
  - intros file. rewrite Hreg.
    destruct (existsb _ l); [by rewrite orb_true_r|].
    rewrite orb_false_r.
    destruct (evicted (f, rf)); [|by rewrite andb_false_r].
    rewrite andb_true_r.
    destruct (String.eqb_spec f file) as [->|Hne].
    + apply lookup_delete_eq.
    + by rewrite lookup_delete_ne.
Qed.

(** A read of the registry from disk. *)
Lemma readRegistry_spec (registry : Registry) feed :
  let r := readRegistry isProcessAlive env registry feed in
  (∀ a, a ∈ r.2 ↔ ∃ file, registry !! file = Some (RegOk a)
                          ∧ isProcessAlive (reg_pid a) = true)
  ∧ (∀ name, name ∈ r.1.2
             ↔ name ∈ feed
               ∨ ∃ file reg, registry !! file = Some (RegOk reg)
                             ∧ isProcessAlive (reg_pid reg) = false
                             ∧ ae_feedOk env (reg_name reg) = true
                             ∧ name = reg_name reg)
  ∧ (∀ file, r.1.1 !! file
             = match registry !! file with
               | Some rf => if evicted (file, rf) then None else Some rf
               | None => None
               end).
Proof.
  unfold readRegistry.
  destruct (readRegistry_fold (map_to_list registry) registry feed [])
    as (Hagents & Hfeed & Hreg).
  simpl in *. split; [|split].
  - intros a. rewrite Hagents. simpl. rewrite list_elem_of_omap. split.
    + intros ([file rf] & Hin & Hlive). apply elem_of_map_to_list in Hin.
      unfold liveOf in Hlive. simpl in Hlive.
      destruct rf as [|reg]; [done|].
      destruct (isProcessAlive (reg_pid reg)) eqn:Halive; [|done].
      injection Hlive as ->. eauto.
    + intros (file & Hfile & Halive). exists (file, RegOk a). split.
      * by apply elem_of_map_to_list.
      * unfold liveOf. simpl. by rewrite Halive.
  - intros name. rewrite Hfeed, list_elem_of_omap. split.
    + intros [?|([file rf] & Hin & Hleft)]; [by left|right].
      apply elem_of_map_to_list in Hin.
      unfold leftOf in Hleft. simpl in Hleft.
      destruct rf as [|reg]; [done|].
      destruct (isProcessAlive (reg_pid reg)) eqn:Halive; [done|].
      destruct (ae_feedOk env (reg_name reg)) eqn:Hfeedok; [|done].
      injection Hleft as <-. exists file, reg. eauto.
    + intros [?|(file & reg & Hfile & Hdead & Hok & ->)]; [by left|right].
      exists (file, RegOk reg). split.
      * by apply elem_of_map_to_list.
      * unfold leftOf. simpl. by rewrite Hdead, Hok.
  - intros file. rewrite Hreg.
    destruct (existsb _ (map_to_list registry)) eqn:Hex.
    + apply existsb_exists in Hex as ([f rf] & Hin & Hf).
      apply list_elem_of_In, elem_of_map_to_list in Hin.
      apply andb_true_iff in Hf as [Heq Hev]. simpl in Heq.
      apply String.eqb_eq in Heq as ->. by rewrite Hin, Hev.
    + destruct (registry !! file) as [rf|] eqn:Hfile; [|done].
      destruct (evicted (file, rf)) eqn:Hev; [|done].
      assert (existsb (λ kv : string * RegFile,
                         String.eqb kv.1 file && evicted kv)
                (map_to_list registry) = true) as Hex'; [|congruence].
      apply existsb_exists. exists (file, rf). split.
      * by apply list_elem_of_In, elem_of_map_to_list.
      * simpl. by rewrite String.eqb_refl.
Qed.

Lemma filterAgents_elem excludeName agents a :
  a ∈ filterAgents env excludeName agents
  ↔ a ∈ agents ∧ reg_name a ≠ excludeName
    ∧ (ae_scopeToFolder env = true → reg_cwd a = ae_cwd env).
Proof.
  unfold filterAgents. destruct (ae_scopeToFolder env).
  - rewrite !list_elem_of_filter. tauto.
  - rewrite list_elem_of_filter. intuition congruence.
Qed.

End AgentsFacts.

(** The cache does not serve this call. *)
Definition cacheStale (env : AgentsEnv) (s : AgentsStore) : Prop :=
  match as_cache s with
  | Some c => cacheUsable env c = false
  | None => True
  end.

Lemma getActiveAgents_read isProcessAlive env st s :
  cacheStale env s →
  ae_dir env = DirListed →
  getActiveAgents isProcessAlive env st s
  = (let r := readRegistry isProcessAlive env (as_registry s) (as_feed s) in
     let filtered := filterAgents env (agentName st) r.2 in
     (mkAgentsStore
        (Some (mkCache r.2 {[ cacheKey env (agentName st) := filtered ]}
                       (ae_now env) (ae_registryPath env)))
        r.1.1 r.1.2,
      filtered)).
Proof.
  unfold cacheStale, getActiveAgents. intros Hstale ->.
  destruct (as_cache s) as [c|]; [|done]. by rewrite Hstale.
Qed.

(** X19. [getActiveAgents] reading from disk (no cache, another
    registry path, or a cache 1000 ms old or older): the list holds
    exactly the well-formed records of live processes whose name is not
    the caller's, and, with [scopeToFolder], whose cwd is the caller's.
    A record of a dead process is logged to the feed as having left and
    then unlinked; it stays when the logging or the unlink fails.
    Malformed files and records of live processes stay. *)
Theorem getActiveAgents_from_disk
    (isProcessAlive : Z → bool) (env : AgentsEnv) (st : MessengerState)
    (s : AgentsStore) :
  cacheStale env s →
  ae_dir env = DirListed →
  let r := getActiveAgents isProcessAlive env st s in
  (∀ a, a ∈ r.2
        ↔ (∃ file, as_registry s !! file = Some (RegOk a))
          ∧ isProcessAlive (reg_pid a) = true
          ∧ reg_name a ≠ agentName st
          ∧ (ae_scopeToFolder env = true → reg_cwd a = ae_cwd env))
  ∧ (∀ file,
       as_registry r.1 !! file
       = match as_registry s !! file with
         | Some (RegOk reg) =>
             if negb (isProcessAlive (reg_pid reg))
                && ae_feedOk env (reg_name reg) && ae_unlinkOk env file
             then None else Some (RegOk reg)
         | other => other
         end)
  ∧ (∀ name, name ∈ as_feed r.1
             ↔ name ∈ as_feed s
               ∨ ∃ file reg, as_registry s !! file = Some (RegOk reg)
                             ∧ isProcessAlive (reg_pid reg) = false
                             ∧ ae_feedOk env (reg_name reg) = true
                             ∧ name = reg_name reg).
Proof.
  intros Hstale Hdir r. unfold r.
  rewrite getActiveAgents_read by done. simpl.
  destruct (readRegistry_spec isProcessAlive env (as_registry s) (as_feed s))
    as (Hagents & Hfeed & Hreg).
  split; [|split].
  - intros a. rewrite filterAgents_elem, Hagents. split.
    + intros [(file & Hfile & Halive) [Hname Hcwd]]. eauto 10.
    + intros [(file & Hfile) (Halive & Hname & Hcwd)]. eauto 10.
  - intros file. rewrite Hreg.
    destruct (as_registry s !! file) as [[|reg]|]; try done.
    unfold evicted, leftOf. simpl.
    destruct (negb (isProcessAlive (reg_pid reg))
              && ae_feedOk env (reg_name reg)); simpl; [|done].
    by destruct (ae_unlinkOk env file).
  - exact Hfeed.
Qed.

Definition diskEnv : AgentsEnv :=
  mkAgentsEnv 5000 "/work" false "registry" DirListed (λ _, true) (λ _, true).

(** A is alive, the process of B is dead: A's view holds nobody, B's
    record is unlinked. *)
Lemma getActiveAgents_from_disk_witness :
  as_registry
    (getActiveAgents (λ pid, pid =? 100) diskEnv aliceState
       (mkAgentsStore None twoAgents [])).1 !! "B"
  = None.
Proof.
  rewrite (proj1 (proj2
    (getActiveAgents_from_disk (λ pid, pid =? 100) diskEnv aliceState
       (mkAgentsStore None twoAgents []) I eq_refl))).
  vm_compute. reflexivity.
Defined.

(** ** Answers from the cache *)

Lemma cacheUsable_after_read env1 env2 agents filtered :
  ae_registryPath env2 = ae_registryPath env1 →
  ae_now env2 - ae_now env1 < AGENTS_CACHE_TTL_MS →
  cacheUsable env2
    (mkCache agents filtered (ae_now env1) (ae_registryPath env1)) = true.
Proof.
  intros Hpath Hnow. unfold cacheUsable. simpl.
  rewrite Hpath, String.eqb_refl. simpl. by apply Z.ltb_lt.
Qed.

(** X20. For 1000 ms after a read from disk, [getActiveAgents] answers
    from memory. A call less than 1000 ms (by the clock readings) after
    a call that read the registry directory or found it missing, with
    the same registry path, touches neither the registry nor the feed,
    whatever the files, the directory and the liveness of the processes
    have become. The same caller (same name, cwd and [scopeToFolder])
    gets the very list of the first call; a caller with another cache
    key gets the first call's unfiltered list filtered for itself. *)
Theorem getActiveAgents_cached
    (isProcessAlive isProcessAlive' : Z → bool) (env1 env2 : AgentsEnv)
    (st st' : MessengerState) (s : AgentsStore)
    (registry' : Registry) (feed' : list string) :
  cacheStale env1 s →
  ae_dir env1 ≠ DirUnreadable →
  ae_registryPath env2 = ae_registryPath env1 →
  ae_now env2 - ae_now env1 < 1000 →
  let r1 := getActiveAgents isProcessAlive env1 st s in
  let r2 := getActiveAgents isProcessAlive' env2 st'
              (mkAgentsStore (as_cache r1.1) registry' feed') in
  as_registry r2.1 = registry'
  ∧ as_feed r2.1 = feed'
  ∧ (cacheKey env2 (agentName st') = cacheKey env1 (agentName st) →
     r2.2 = r1.2)
  ∧ (cacheKey env2 (agentName st') ≠ cacheKey env1 (agentName st) →
     ∃ c, as_cache r1.1 = Some c
          ∧ r2.2 = filterAgents env2 (agentName st') (cache_allAgents c)).
Proof.
  intros Hstale Hdir Hpath Hnow r1 r2.
  assert (∃ agents filtered,
            as_cache r1.1
            = Some (mkCache agents filtered (ae_now env1)
                            (ae_registryPath env1))
            ∧ (filtered = ∅ ∧ agents = [] ∧ r1.2 = []
               ∨ filtered = {[ cacheKey env1 (agentName st) := r1.2 ]}))
    as (agents & filtered & Hcache & Hfiltered).
  { unfold r1, getActiveAgents, cacheStale in *.
    destruct (as_cache s) as [c|]; [rewrite Hstale|];
      destruct (ae_dir env1); try done; simpl; eauto 10. }
  unfold r2, getActiveAgents. cbn [as_cache as_registry as_feed].
  rewrite Hcache.
  rewrite cacheUsable_after_read by done. simpl.
  destruct Hfiltered as [(-> & -> & Hnil)| ->].
  - rewrite lookup_empty. simpl. split; [done|]. split; [done|].
    assert (filterAgents env2 (agentName st') [] = []) as Hempty.
    { unfold filterAgents. by destruct (ae_scopeToFolder env2). }
    split.
    + intros _. by rewrite Hnil.
    + intros _. eexists. split; [done|]. done.
  - destruct (decide (cacheKey env2 (agentName st')
                      = cacheKey env1 (agentName st))) as [Hkey|Hkey].
    + rewrite Hkey, lookup_singleton_eq. simpl. by repeat split.
    + rewrite lookup_singleton_ne by done. simpl.
      split; [done|]. split; [done|]. split; [done|].
      intros _. eexists. split; done.
Qed.

(** A reads the registry at 5000; at 5999 the record of B's process is
    gone from the directory, and A's list still shows B. *)
Lemma getActiveAgents_cached_witness :
  (getActiveAgents everyoneAlive
     (mkAgentsEnv 5999 "/work" false "registry" DirListed (λ _, true)
                  (λ _, true))
     (withAgentName aliceState "A")
     (mkAgentsStore
        (as_cache (getActiveAgents everyoneAlive diskEnv
                     (withAgentName aliceState "A")
                     (mkAgentsStore None twoAgents [])).1)
        ∅ [])).2
  = [regOf "B" 101 "s2"].
Proof.
  assert (DirListed ≠ DirUnreadable) as Hdir by done.
  assert ((5999 - 5000 : Z) < 1000) as Hnow by lia.
  rewrite (proj1 (proj2 (proj2
    (getActiveAgents_cached everyoneAlive everyoneAlive diskEnv
       (mkAgentsEnv 5999 "/work" false "registry" DirListed (λ _, true)
                    (λ _, true))
       (withAgentName aliceState "A") (withAgentName aliceState "A")
       (mkAgentsStore None twoAgents []) ∅ [] I Hdir eq_refl Hnow)))
    eq_refl).
  vm_compute. reflexivity.
Defined.

(** ** Reservation conflicts *)

(** X21. [getConflictsWithOtherAgents] reports exactly the reservations
    of the agents [getActiveAgents] returns whose pattern matches the
    path, each with that agent's name and record, and leaves the store
    as [getActiveAgents] leaves it. On a read from disk no conflict
    names the caller itself or an agent whose process is dead, so the
    caller's own reservations never conflict with its edits. *)
Theorem getConflictsWithOtherAgents_spec
    (isProcessAlive : Z → bool)
    (pathMatchesReservation : string → string → bool)
    (env : AgentsEnv) (filePath : string) (st : MessengerState)
    (s : AgentsStore) :
  let r := getConflictsWithOtherAgents isProcessAlive pathMatchesReservation
             env filePath st s in
  let active := getActiveAgents isProcessAlive env st s in
  r.1 = active.1
  ∧ (∀ c, c ∈ r.2
          ↔ ∃ a pattern reason,
              a ∈ active.2
              ∧ (pattern, reason) ∈ reg_reservations a
              ∧ pathMatchesReservation filePath pattern = true
              ∧ c = mkConflict filePath (reg_name a) pattern reason a)
  ∧ (cacheStale env s → ae_dir env = DirListed →
     ∀ c, c ∈ r.2 →
          conflict_agent c ≠ agentName st
          ∧ isProcessAlive (reg_pid (conflict_registration c)) = true
          ∧ ∃ file, as_registry s !! file
                    = Some (RegOk (conflict_registration c))).
Proof.
  intros r active.
  assert (∀ c, c ∈ r.2
               ↔ ∃ a pattern reason,
                   a ∈ active.2
                   ∧ (pattern, reason) ∈ reg_reservations a
                   ∧ pathMatchesReservation filePath pattern = true
                   ∧ c = mkConflict filePath (reg_name a) pattern reason a)
    as Hiff.
  { intros c. unfold r, getConflictsWithOtherAgents. simpl.
    fold active. rewrite list_elem_of_join. split.
    - intros (l & Hc & Hl). apply list_elem_of_fmap in Hl as (a & -> & Ha).
      unfold conflictsOf in Hc.
      apply list_elem_of_fmap in Hc as ([pattern reason] & -> & Hres).
      apply list_elem_of_filter in Hres as [Hmatch Hres].
      exists a, pattern, reason. by repeat split.
    - intros (a & pattern & reason & Ha & Hres & Hmatch & ->).
      exists (conflictsOf pathMatchesReservation filePath a). split.
      + unfold conflictsOf. apply list_elem_of_fmap.
        exists (pattern, reason). split; [done|].
        by apply list_elem_of_filter.
      + apply list_elem_of_fmap. by exists a. }
  split; [done|]. split; [exact Hiff|].
  intros Hstale Hdir c Hc.
  apply Hiff in Hc as (a & pattern & reason & Ha & _ & _ & ->). simpl.
  unfold active in Ha. rewrite getActiveAgents_read in Ha by done.
  simpl in Ha. apply filterAgents_elem in Ha as (Ha & Hname & _).
  apply (readRegistry_spec isProcessAlive env) in Ha
    as (file & Hfile & Halive).
  eauto.
Qed.

(** ** Watcher retries *)

Lemma retryDelayMs_bounds (n : nat) :
  (1 ≤ n)%nat →
  1000 ≤ retryDelayMs n ≤ 30000
  ∧ ((n ≤ 5)%nat → retryDelayMs n = 1000 * 2 ^ (Z.of_nat n - 1))
  ∧ ((6 ≤ n)%nat → retryDelayMs n = 30000)
  ∧ retryDelayMs n ≤ retryDelayMs (S n).
Proof.
  intros Hn. unfold retryDelayMs.
  assert (∀ m : nat, (1 ≤ m)%nat → 1 ≤ 2 ^ (Z.of_nat m - 1)) as Hpos.
  { intros m Hm. apply (Z.pow_le_mono_r 2 0); lia. }
  assert (∀ m : nat, (6 ≤ m)%nat → 32 ≤ 2 ^ (Z.of_nat m - 1)) as Hbig.
  { intros m Hm. apply (Z.pow_le_mono_r 2 5); lia. }
  assert (2 ^ (Z.of_nat (S n) - 1) = 2 * 2 ^ (Z.of_nat n - 1)) as Hstep.
  { replace (Z.of_nat (S n) - 1) with (Z.succ (Z.of_nat n - 1)) by lia.
    apply Z.pow_succ_r. lia. }
  pose proof (Hpos n Hn) as H1.
  split; [lia|]. split; [|split].
  - intros H5. apply Z.min_l.
    assert (2 ^ (Z.of_nat n - 1) ≤ 2 ^ 4) by (apply Z.pow_le_mono_r; lia).
    change (2 ^ 4) with 16 in *. lia.
  - intros H6. apply Z.min_r. specialize (Hbig n H6). lia.
  - rewrite Hstep. lia.
Qed.

(** X22. The retry delay backs off exponentially with a cap. Each
    [scheduleRetry] counts one more retry; while the count stays below
    [MAX_WATCHER_RETRIES] it arms a timer of 1000 ms doubled once per
    earlier retry (1000, 2000, 4000, 8000, 16000) and of 30000 ms from
    the sixth retry on, never shorter than the one before; once the
    count reaches the maximum it arms nothing. *)
Theorem scheduleRetry_backoff (MAX_WATCHER_RETRIES : nat) (ws : WatcherState) :
  let ws' := scheduleRetry MAX_WATCHER_RETRIES ws in
  let n := S (ws_retries ws) in
  ws_retries ws' = n
  ∧ ws_watcher ws' = ws_watcher ws
  ∧ ws_debounceTimer ws' = ws_debounceTimer ws
  ∧ ((n < MAX_WATCHER_RETRIES)%nat →
     ws_retryTimer ws' = Some (retryDelayMs n)
     ∧ 1000 ≤ retryDelayMs n ≤ 30000
     ∧ ((n ≤ 5)%nat → retryDelayMs n = 1000 * 2 ^ (Z.of_nat n - 1))
     ∧ ((6 ≤ n)%nat → retryDelayMs n = 30000)
     ∧ retryDelayMs n ≤ retryDelayMs (S n))
  ∧ ((MAX_WATCHER_RETRIES ≤ n)%nat →
     ws_retryTimer ws' = ws_retryTimer ws).
Proof.
  simpl. unfold scheduleRetry.
  destruct (Nat.ltb_spec (S (ws_retries ws)) MAX_WATCHER_RETRIES)
    as [Hlt|Hge]; simpl.
  - split; [done|]. split; [done|]. split; [done|]. split; [|lia].
    intros _. split; [done|]. apply retryDelayMs_bounds. lia.
  - split; [done|]. split; [done|]. split; [done|]. split; [lia|done].
Qed.

(** ** Giving up *)

(** [n] starts in a row, each failing to set up the watch. *)
Fixpoint failedStarts (MAX_WATCHER_RETRIES : nat) (unlinkOk : string → bool)
    (deliverFn : DeliverFn) (n : nat) (w : World) (ws : WatcherState)
  : World * WatcherState :=
  match n with
  | O => (w, ws)
  | S n' =>
      let r := startWatcher MAX_WATCHER_RETRIES false unlinkOk deliverFn
                 w ws in
      failedStarts MAX_WATCHER_RETRIES unlinkOk deliverFn n' r.1.1 r.1.2
  end.

Section WatcherFacts.

Variable MAX_WATCHER_RETRIES : nat.
Variable unlinkOk : string → bool.
Variable deliverFn : DeliverFn.

Lemma startWatcher_state watchOk w ws :
  w_state (startWatcher MAX_WATCHER_RETRIES watchOk unlinkOk deliverFn
             w ws).1.1
  = w_state w.
Proof.
  unfold startWatcher.
  destruct (negb _); [done|]. destruct (ws_watcher ws); [done|].
  destruct (_ <=? _)%nat; [done|]. by destruct watchOk.
Qed.

Lemma startWatcher_exhausted watchOk w ws :
  (MAX_WATCHER_RETRIES ≤ ws_retries ws)%nat →
  startWatcher MAX_WATCHER_RETRIES watchOk unlinkOk deliverFn w ws
  = (w, ws, []).
Proof.
  intros Hmax. unfold startWatcher.
  destruct (negb _); [done|]. destruct (ws_watcher ws); [done|].
  by rewrite (proj2 (Nat.leb_le _ _) Hmax).
Qed.

Lemma startWatcher_failed w ws :
  registered (w_state w) = true →
  ws_watcher ws = false →
  (ws_retries ws < MAX_WATCHER_RETRIES)%nat →
  ∃ w', startWatcher MAX_WATCHER_RETRIES false unlinkOk deliverFn w ws
        = (w', scheduleRetry MAX_WATCHER_RETRIES ws,
           (processAllPendingMessages unlinkOk deliverFn (w_state w)
              (w_module w)
              (mkFS (fs_registry (w_fs w))
                    (ensureInbox (agentName (w_state w))
                       (fs_inbox (w_fs w))))).2)
        ∧ w_state w' = w_state w.
Proof.
  intros Hreg Hoff Hlt. unfold startWatcher.
  rewrite Hreg, Hoff. simpl. rewrite (proj2 (Nat.leb_gt _ _) Hlt).
  eexists. split; done.
Qed.

Lemma failedStarts_retries n w ws :
  registered (w_state w) = true →
  ws_watcher ws = false →
  let r := failedStarts MAX_WATCHER_RETRIES unlinkOk deliverFn n w ws in
  ws_retries r.2
  = (if (MAX_WATCHER_RETRIES <=? ws_retries ws)%nat then ws_retries ws
     else Nat.min (ws_retries ws + n) MAX_WATCHER_RETRIES)
  ∧ ws_watcher r.2 = false
  ∧ w_state r.1 = w_state w.
Proof.
  revert w ws. induction n as [|n IH]; intros w ws Hreg Hoff; simpl.
  { destruct (Nat.leb_spec MAX_WATCHER_RETRIES (ws_retries ws)); [done|].
    split; [lia|done]. }
  destruct (Nat.leb_spec MAX_WATCHER_RETRIES (ws_retries ws)) as [Hmax|Hlt].
  { rewrite startWatcher_exhausted by done. simpl.
    destruct (IH w ws Hreg Hoff) as (Hr & Hw & Hs).
    rewrite (proj2 (Nat.leb_le _ _) Hmax) in Hr. done. }
  destruct (startWatcher_failed w ws Hreg Hoff Hlt) as (w' & -> & Hstate).
  simpl.
  destruct (IH w' (scheduleRetry MAX_WATCHER_RETRIES ws))
    as (Hr & Hw & Hs);
    [by rewrite Hstate|by unfold scheduleRetry; destruct (_ <? _)%nat|].
  split; [|split; [done|by rewrite Hs]].
  assert (ws_retries (scheduleRetry MAX_WATCHER_RETRIES ws)
          = S (ws_retries ws)) as Hcount
    by (unfold scheduleRetry; by destruct (_ <? _)%nat).
  rewrite Hr, Hcount.
  destruct (Nat.leb_spec MAX_WATCHER_RETRIES (S (ws_retries ws))); lia.
Qed.

End WatcherFacts.

(** X23. The watcher gives up for good. From a registered agent with no
    watcher and no failed attempt on record, [n] starts in a row that
    fail to set up the watch leave the retry count at n, capped at
    [MAX_WATCHER_RETRIES]. Once the count has reached the maximum every
    further [startWatcher] returns at once: it sets up no watch and
    processes no message, even if [fs.watch] would now succeed, since
    only a successful start resets the count. *)
Theorem startWatcher_gives_up
    (MAX_WATCHER_RETRIES : nat) (unlinkOk : string → bool)
    (deliverFn : DeliverFn) (n : nat) (w : World) (ws : WatcherState) :
  registered (w_state w) = true →
  ws_watcher ws = false →
  ws_retries ws = 0%nat →
  let r := failedStarts MAX_WATCHER_RETRIES unlinkOk deliverFn n w ws in
  ws_retries r.2 = Nat.min n MAX_WATCHER_RETRIES
  ∧ ws_watcher r.2 = false
  ∧ ((MAX_WATCHER_RETRIES ≤ n)%nat →
     ∀ watchOk unlinkOk' deliverFn',
       startWatcher MAX_WATCHER_RETRIES watchOk unlinkOk' deliverFn' r.1 r.2
       = (r.1, r.2, [])).
Proof.
  intros Hreg Hoff Hzero r.
  destruct (failedStarts_retries MAX_WATCHER_RETRIES unlinkOk deliverFn
              n w ws Hreg Hoff) as (Hr & Hw & _).
  fold r in Hr, Hw. rewrite Hzero in Hr. simpl in Hr.
  assert (ws_retries r.2 = Nat.min n MAX_WATCHER_RETRIES) as Hcount.
  { rewrite Hr. destruct (Nat.leb_spec MAX_WATCHER_RETRIES 0); lia. }
  split; [done|]. split; [done|].
  intros Hmax watchOk unlinkOk' deliverFn'.
  apply startWatcher_exhausted. lia.
Qed.

Definition bobWorld : World := mkWorld idleModule bobState bobFS.

Lemma startWatcher_gives_up_witness :
  ws_retries (failedStarts 5 (λ _, true) (λ _, true) 7 bobWorld
                (mkWatcher false 0 None false)).2
  = 5%nat.
Proof.
  exact (proj1
    (startWatcher_gives_up 5 (λ _, true) (λ _, true) 7 bobWorld
       (mkWatcher false 0 None false) eq_refl eq_refl eq_refl)).
Defined.

(** X24. A start that sets up the watch processes the pending messages
    first, resets the retry count, and makes every further start a
    no-op: no second watch, no second pass. When the watcher later
    reports an error it is closed, both timers are cleared, and one
    retry is counted. *)
Theorem startWatcher_once
    (MAX_WATCHER_RETRIES : nat) (unlinkOk : string → bool)
    (deliverFn : DeliverFn) (w : World) (ws : WatcherState) :
  registered (w_state w) = true →
  ws_watcher ws = false →
  (ws_retries ws < MAX_WATCHER_RETRIES)%nat →
  let r := startWatcher MAX_WATCHER_RETRIES true unlinkOk deliverFn w ws in
  let pass := processAllPendingMessages unlinkOk deliverFn (w_state w)
                (w_module w)
                (mkFS (fs_registry (w_fs w))
                      (ensureInbox (agentName (w_state w))
                         (fs_inbox (w_fs w)))) in
  r.2 = pass.2
  ∧ w_fs r.1.1 = pass.1.2
  ∧ ws_watcher r.1.2 = true
  ∧ ws_retries r.1.2 = 0%nat
  ∧ (∀ watchOk unlinkOk' deliverFn',
       startWatcher MAX_WATCHER_RETRIES watchOk unlinkOk' deliverFn'
         r.1.1 r.1.2
       = (r.1.1, r.1.2, []))
  ∧ (let ws' := watcherError MAX_WATCHER_RETRIES r.1.2 in
     ws_watcher ws' = false ∧ ws_retries ws' = 1%nat
     ∧ ws_debounceTimer ws' = false
     ∧ ws_retryTimer ws'
       = if (1 <? MAX_WATCHER_RETRIES)%nat then Some 1000 else None).
Proof.
  intros Hreg Hoff Hlt. simpl. unfold startWatcher.
  rewrite Hreg, Hoff. simpl. rewrite (proj2 (Nat.leb_gt _ _) Hlt). simpl.
  rewrite Hreg. simpl. split; [done|]. split; [done|]. split; [done|].
  split; [done|]. split; [done|].
  unfold watcherError, scheduleRetry. simpl.
  by destruct (1 <? MAX_WATCHER_RETRIES)%nat.
Qed.

Lemma startWatcher_once_witness :
  ws_watcher (startWatcher 5 true (λ _, true) (λ _, true) bobWorld
                (mkWatcher false 3 None false)).1.2
  = true.
Proof.
  assert ((3 < 5)%nat) as Hlt by lia.
  exact (proj1 (proj2 (proj2
    (startWatcher_once 5 (λ _, true) (λ _, true) bobWorld
       (mkWatcher false 3 None false) eq_refl eq_refl Hlt)))).
Defined.

(** ** What a parsed review looks like *)

Lemma trimEnd_idemp s : trimEnd (trimEnd s) = trimEnd s.
Proof.
  induction s as [|c rest IH]; simpl; [done|].
  destruct (trimEnd rest) as [|d r2] eqn:Hrest.
  - destruct (isWhite c) eqn:Hc; simpl; [done|]. by rewrite Hc.
  - simpl in *. by rewrite IH.
Qed.

Lemma trimEnd_head c rest :
  isWhite c = false → ∃ r, trimEnd (String c rest) = String c r.
Proof.
  intros Hc. simpl. destruct (trimEnd rest); [rewrite Hc|]; eauto.
Qed.

Lemma trimStart_head s :
  trimStart s = EmptyString
  ∨ ∃ c r, trimStart s = String c r ∧ isWhite c = false.
Proof.
  induction s as [|c rest IH]; simpl; [by left|].
  destruct (isWhite c) eqn:Hc; [done|]. right. eauto.
Qed.

Lemma trim_idemp s : trim (trim s) = trim s.
Proof.
  unfold trim. destruct (trimStart_head s) as [->|(c & r & -> & Hc)].
  - done.
  - destruct (trimEnd_head c r Hc) as [r' Hr]. rewrite Hr. simpl.
    rewrite Hc. rewrite <- Hr. apply trimEnd_idemp.
Qed.

(** A trimmed text keeps the first code unit of the text when that is not
    white space. *)
Lemma trim_head c rest :
  isWhite c = false → ∃ r, trim (String c rest) = String c r.
Proof.
  intros Hc. unfold trim. simpl. rewrite Hc. by apply trimEnd_head.
Qed.

Lemma stripBullet_head line :
  stripBullet line = EmptyString
  ∨ ∃ c r, stripBullet line = String c r
           ∧ isWhite c = false ∧ c ≠ "-"%char ∧ c ≠ "*"%char.
Proof.
  induction line as [|c rest IH]; simpl; [by left|].
  destruct (isWhite c) eqn:Hw; simpl; [done|].
  destruct (Ascii.eqb_spec c "-"); simpl; [done|].
  destruct (Ascii.eqb_spec c "*"); simpl; [done|].
  right. eauto 10.
Qed.

Lemma startsWith_single (a c : ascii) (r : string) :
  startsWith (String a EmptyString) (String c r) = Ascii.eqb a c.
Proof. unfold startsWith. apply andb_true_r. Qed.

(** An item as a reader of the review expects it. *)
Definition tidyItem (item : string) : Prop :=
  item ≠ EmptyString
  ∧ trim item = item
  ∧ startsWith "-" item = false
  ∧ startsWith "*" item = false
  ∧ match item with
    | String c _ => isWhite c = false
    | EmptyString => True
    end.

Lemma bulletItems_tidy section : Forall tidyItem (bulletItems section).
Proof.
  unfold bulletItems. apply Forall_forall. intros item Hin.
  apply list_elem_of_In, filter_In in Hin as [Hin Hne].
  apply in_map_iff in Hin as (line & <- & _).
  split; [by destruct (trim (stripBullet line))|].
  split; [apply trim_idemp|].
  destruct (stripBullet_head line) as [->|(c & r & -> & Hw & Hd & Hs)].
  { done. }
  destruct (trim_head c r Hw) as [r' ->].
  rewrite !startsWith_single.
  rewrite (proj2 (Ascii.eqb_neq "-" c)) by congruence.
  rewrite (proj2 (Ascii.eqb_neq "*" c)) by congruence. done.
Qed.

(** X25. Whatever the input, [parseVerdict] returns a summary without
    leading or trailing white space, and issue and suggestion items that
    are non-empty, carry no leading or trailing white space and do not
    start with a bullet character: the markers [-] and [*] and the
    indentation of a bullet line never reach the lists, and a bullet
    without text gives no item. *)
Theorem parseVerdict_tidy (output : string) :
  let r := parseVerdict output in
  trim (summary r) = summary r
  ∧ Forall tidyItem (issues r)
  ∧ Forall tidyItem (suggestions r).
Proof.
  simpl. split; [|split].
  - destruct (search matchSummaryAt output); [apply trim_idemp|done].
  - destruct (search (matchSectionAt "Issue") output);
      [apply bulletItems_tidy|constructor].
  - destruct (search (matchSectionAt "Suggestion") output);
      [apply bulletItems_tidy|constructor].
Qed.

(** ** The per-spec views *)

(** X26. On a claims.json without ["__proto__"] keys and for a spec
    path that is not the name of a member of [Object.prototype],
    [getClaimsForSpec] returns an object that shows a task as claimed
    exactly when claims.json holds a claim for it that is not stale, so
    a spec whose claims are all stale, or that is missing from the file,
    reads as an empty object; and [getCompletionsForSpec] returns an
    object that shows every completion on record for the spec, an empty
    one for a spec missing from the file. Under the name of such a
    member, a spec without a bucket to show reads as that member and not
    as an empty object. *)
Theorem per_spec_views
    (isProcessAlive : Z → bool) (registry : Registry) (d : Disk)
    (specPath : string) :
  plainKeys (readClaimsSync d) →
  (ordinaryKey specPath = true →
   (∃ tasks,
      getClaimsForSpec isProcessAlive registry d specPath = ViewBucket tasks
      ∧ (∀ t c, tasks !! t = Some c
                ↔ lookup2 (readClaimsSync d) specPath t = Some c
                  ∧ isClaimStale isProcessAlive registry c = false)
      ∧ (tasks = ∅
         ↔ ∀ t c, lookup2 (readClaimsSync d) specPath t = Some c →
                  isClaimStale isProcessAlive registry c = true))
   ∧ (∃ completed,
        getCompletionsForSpec d specPath = ViewBucket completed
        ∧ (∀ t, completed !! t
                = lookup2 (readCompletionsSync d) specPath t)
        ∧ (readCompletionsSync d !! specPath = None → completed = ∅)))
  ∧ (ordinaryKey specPath = false →
     ((∀ t c, lookup2 (readClaimsSync d) specPath t = Some c →
              isClaimStale isProcessAlive registry c = true) →
      getClaimsForSpec isProcessAlive registry d specPath
      = ViewMember specPath)
     ∧ (readCompletionsSync d !! specPath = None →
        getCompletionsForSpec d specPath = ViewMember specPath)).
Proof.
  intros Hplain.
  assert (∀ t, lookup2 (getClaims isProcessAlive registry d) specPath t
               = lookup2 (purge isProcessAlive registry (readClaimsSync d))
                   specPath t) as Hview.
  { intros t. unfold getClaims. by rewrite filterStaleClaims_plain. }
  assert ((∀ t c, lookup2 (readClaimsSync d) specPath t = Some c →
                  isClaimStale isProcessAlive registry c = true) →
          getClaims isProcessAlive registry d !! specPath = None) as Hnone.
  { intros Hall. unfold getClaims. rewrite filterStaleClaims_plain by done.
    destruct (purge _ _ _ !! specPath) as [tasks|] eqn:Hp; [|done].
    exfalso. apply purge_bucket_nonempty in Hp as Hne.
    apply Hne, map_empty. intros t. apply eq_None_not_Some. intros [c Hc].
    assert (lookup2 (purge isProcessAlive registry (readClaimsSync d))
              specPath t = Some c) as Hl by (unfold lookup2; by rewrite Hp).
    apply lookup2_purge in Hl as [Hl Hs]. apply Hall in Hl. congruence. }
  split.
  - intros Hord. split.
    + unfold getClaimsForSpec, viewOf. rewrite Hord.
      exists (default ∅ (getClaims isProcessAlive registry d !! specPath)).
      split; [by destruct (getClaims _ _ _ !! specPath)|].
      assert (∀ t, default ∅ (getClaims isProcessAlive registry d
                                 !! specPath) !! t
                   = lookup2 (purge isProcessAlive registry
                                (readClaimsSync d)) specPath t) as Hdef.
      { intros t. rewrite <- Hview. unfold lookup2.
        destruct (getClaims _ _ _ !! specPath); simpl;
          [done|apply lookup_empty]. }
      split.
      * intros t c. rewrite Hdef. apply lookup2_purge.
      * split.
        -- intros Hempty t c Hc.
           destruct (isClaimStale isProcessAlive registry c) eqn:Hs;
             [done|].
           assert (default ∅ (getClaims isProcessAlive registry d
                                !! specPath) !! t = Some c) as Hin.
           { rewrite Hdef. apply lookup2_purge. tauto. }
           rewrite Hempty in Hin. by rewrite lookup_empty in Hin.
        -- intros Hall. by rewrite (Hnone Hall).
    + unfold getCompletionsForSpec, getCompletions, viewOf, lookup2.
      rewrite Hord.
      exists (default ∅ (readCompletionsSync d !! specPath)).
      split; [by destruct (readCompletionsSync d !! specPath)|].
      split; [|by intros ->].
      intros t. destruct (readCompletionsSync d !! specPath); simpl;
        [done|apply lookup_empty].
  - intros Hord. split.
    + intros Hall. unfold getClaimsForSpec, viewOf.
      by rewrite (Hnone Hall), Hord.
    + intros Hk. unfold getCompletionsForSpec, getCompletions, viewOf.
      by rewrite Hk, Hord.
Qed.

(** The tasks of spec.md in scenario S5. *)
Lemma per_spec_views_witness :
  ∃ tasks,
    getClaimsForSpec everyoneAlive twoAgents diskS5 "spec.md"
    = ViewBucket tasks
    ∧ tasks !! "T-7" = Some claimOfA.
Proof.
  destruct (proj1 (proj1
    (per_spec_views everyoneAlive twoAgents diskS5 "spec.md"
       plainKeys_diskS5) eq_refl)) as (tasks & Hv & Hin & _).
  exists tasks. split; [exact Hv|].
  apply Hin. split; vm_compute; reflexivity.
Defined.

(** ** The guards of the processing pass *)

(** X27. [processAllPendingMessages] does nothing for an agent that is
    not registered. Called while a pass is in progress it touches no file
    and delivers nothing: it only records itself as pending, replacing
    whatever was pending before, so of several calls made during one pass
    only the last callback is kept. A pending call found at the end of a
    pass is run once, after the pass, on what the pass left, and with the
    unlinks going through it finds no message to deliver. *)
Theorem processAllPendingMessages_guards
    (unlinkOk : string → bool) (deliverFn : DeliverFn)
    (st : MessengerState) (md : ModuleState) (fs : FS) :
  let r := processAllPendingMessages unlinkOk deliverFn st md fs in
  (registered st = false → r = (md, fs, []))
  ∧ (registered st = true → isProcessingMessages md = true →
     r = (mkModule true (Some deliverFn) (agentsCacheValid md), fs, []))
  ∧ (registered st = true → isProcessingMessages md = false →
     ∀ pending, pendingProcessArgs md = Some pending →
       let first := processAllPendingMessages unlinkOk deliverFn st
                      (mkModule false None (agentsCacheValid md)) fs in
       let second := processAllPendingMessages unlinkOk pending st
                       first.1.1 first.1.2 in
       r = (second.1.1, second.1.2, first.2 ++ second.2)
       ∧ pendingProcessArgs r.1.1 = None
       ∧ isProcessingMessages r.1.1 = false
       ∧ ((∀ f, unlinkOk f = true) → second.2 = [])).
Proof.
  simpl. unfold processAllPendingMessages. split; [|split].
  - by intros ->.
  - by intros -> ->.
  - intros Hreg Hidle pending Hpend. rewrite Hreg, Hidle, Hpend. simpl.
    split; [done|]. split; [done|]. split; [done|].
    intros Hok. unfold processingPass.
    destruct (fs_inbox fs !! agentName st) as [dir|] eqn:Hdir; simpl.
    + rewrite lookup_insert_eq.
      rewrite (processFiles_eq unlinkOk deliverFn) by apply listJson_NoDup.
      simpl. rewrite unlink_all_json by (intros; apply Hok).
      by rewrite listJson_nonJson.
    + by rewrite Hdir.
Qed.

(** ** A claims write that fails *)

Lemma withSwarmLock_result {S T} isProcessAlive obs (fn : M S T) s :
  (withSwarmLock isProcessAlive obs fn s).1 = fn s
  ∨ ∃ err, (withSwarmLock isProcessAlive obs fn s).1 = (s, Threw err).
Proof.
  unfold withSwarmLock.
  destruct (acquireLoop isProcessAlive obs 0 maxRetries).2 as [[]|err];
    simpl; [left; by destruct (fn s)|right; eauto].
Qed.

Section FailedWrite.

Variable isProcessAlive : Z → bool.
Variable registry : Registry.
Variable io : IoFaults.
Hypothesis Hio : claimsWriteOk io = false.

(** The conditional write of the purged claims: it throws when there is
    something to write, and otherwise lets the answer through. *)
Lemma purge_write_fails {A} (removed : nat) (claims : AllClaims) (r : A) d :
  bind (when (0 <? removed)%nat (writeClaimsSync io claims)) (λ _, ret r) d
  = (d, if (0 <? removed)%nat then Threw "writeClaimsSync failed"
        else Returned r).
Proof.
  unfold bind, when, writeClaimsSync, ret. rewrite Hio.
  by destruct (0 <? removed)%nat.
Qed.

Lemma write_fails {A} (claims : AllClaims) (r : A) d :
  bind (writeClaimsSync io claims) (λ _, ret r) d
  = (d, Threw "writeClaimsSync failed").
Proof. unfold bind, writeClaimsSync. by rewrite Hio. Qed.

Lemma claimTaskLocked_failed_write now s t a sid pid reason d :
  let r := claimTaskLocked isProcessAlive registry io now s t a sid pid
             reason d in
  r.1 = d
  ∧ (∀ at', r.2 ≠ Returned (ClaimSuccess at'))
  ∧ ((0 < (cleanupStaleClaims isProcessAlive registry
             (readClaimsSync d)).2)%nat →
     r.2 = Threw "writeClaimsSync failed").
Proof.
  simpl. rewrite claimTaskLocked_eq, cleanupStaleClaims_snd.
  assert (∀ r : ClaimResult,
            (∀ at', r ≠ ClaimSuccess at') →
            let res := bind (when (0 <? staleCount isProcessAlive registry
                                          (readClaimsSync d))%nat
                               (writeClaimsSync io
                                  (purge isProcessAlive registry
                                     (readClaimsSync d))))
                            (λ _, ret r) d in
            res.1 = d
            ∧ (∀ at', res.2 ≠ Returned (ClaimSuccess at'))
            ∧ ((0 < staleCount isProcessAlive registry (readClaimsSync d))%nat
               → res.2 = Threw "writeClaimsSync failed")) as Hrefused.
  { intros r Hr. simpl. rewrite purge_write_fails. simpl.
    split; [done|]. split.
    - intros at'. destruct (0 <? _)%nat; [done|]. intros [= ->].
      by apply (Hr at').
    - intros Hpos. by rewrite (proj2 (Nat.ltb_lt _ _) Hpos). }
  destruct (findAgentClaim _ a) as [e|]; [by apply Hrefused|].
  destruct (lookup2 _ s t) as [c|]; [by apply Hrefused|].
  rewrite write_fails. by repeat split.
Qed.

Lemma unclaimTaskLocked_failed_write s t a d :
  let r := unclaimTaskLocked isProcessAlive registry io s t a d in
  r.1 = d
  ∧ r.2 ≠ Returned UnclaimSuccess
  ∧ ((0 < (cleanupStaleClaims isProcessAlive registry
             (readClaimsSync d)).2)%nat →
     r.2 = Threw "writeClaimsSync failed").
Proof.
  simpl. rewrite unclaimTaskLocked_eq, cleanupStaleClaims_snd.
  assert (∀ r : UnclaimResult,
            r ≠ UnclaimSuccess →
            let res := bind (when (0 <? staleCount isProcessAlive registry
                                          (readClaimsSync d))%nat
                               (writeClaimsSync io
                                  (purge isProcessAlive registry
                                     (readClaimsSync d))))
                            (λ _, ret r) d in
            res.1 = d
            ∧ res.2 ≠ Returned UnclaimSuccess
            ∧ ((0 < staleCount isProcessAlive registry (readClaimsSync d))%nat
               → res.2 = Threw "writeClaimsSync failed")) as Hrefused.
  { intros r Hr. simpl. rewrite purge_write_fails. simpl.
    split; [done|]. split.
    - destruct (0 <? _)%nat; [done|]. by intros [= ->].
    - intros Hpos. by rewrite (proj2 (Nat.ltb_lt _ _) Hpos). }
  destruct (lookup2 _ s t) as [c|]; [|by apply Hrefused].
  destruct (negb _); [by apply Hrefused|].
  rewrite write_fails. by repeat split.
Qed.

End FailedWrite.

(** X28. When the write of claims.json fails, [claimTask] and
    [unclaimTask] leave both files exactly as they were, whether or not
    they got the lock, and neither reports success. With the lock held
    they throw whenever the purge had removed a stale entry, even where
    the call would otherwise only have been refused: a refusal is
    answered only when there was nothing to write. *)
Theorem failed_claims_write_changes_nothing
    (isProcessAlive : Z → bool) (registry : Registry) (obs : nat → LockObs)
    (io : IoFaults) (now specPath taskId agent sessionId : string) (pid : Z)
    (reason : option string) (d : Disk) :
  claimsWriteOk io = false →
  let c := claimTask isProcessAlive registry obs io now specPath taskId
             agent sessionId pid reason d in
  let u := unclaimTask isProcessAlive registry obs io specPath taskId
             agent d in
  let removed := (cleanupStaleClaims isProcessAlive registry
                    (readClaimsSync d)).2 in
  c.1 = d ∧ u.1 = d
  ∧ (∀ at', c.2 ≠ Returned (ClaimSuccess at'))
  ∧ u.2 ≠ Returned UnclaimSuccess
  ∧ (acquired isProcessAlive obs → (0 < removed)%nat →
     c.2 = Threw "writeClaimsSync failed"
     ∧ u.2 = Threw "writeClaimsSync failed").
Proof.
  intros Hio c u removed.
  destruct (claimTaskLocked_failed_write isProcessAlive registry io Hio now
              specPath taskId agent sessionId pid reason d)
    as (Hc1 & Hc2 & Hc3).
  destruct (unclaimTaskLocked_failed_write isProcessAlive registry io Hio
              specPath taskId agent d) as (Hu1 & Hu2 & Hu3).
  assert (c.1 = d ∧ ∀ at', c.2 ≠ Returned (ClaimSuccess at')) as [Hcd Hcs].
  { unfold c, claimTask.
    destruct (withSwarmLock_result isProcessAlive obs
                (claimTaskLocked isProcessAlive registry io now specPath
                   taskId agent sessionId pid reason) d) as [->|[err ->]];
      [done|]. by split. }
  assert (u.1 = d ∧ u.2 ≠ Returned UnclaimSuccess) as [Hud Hus].
  { unfold u, unclaimTask.
    destruct (withSwarmLock_result isProcessAlive obs
                (unclaimTaskLocked isProcessAlive registry io specPath
                   taskId agent) d) as [->|[err ->]];
      [done|]. by split. }
  split; [done|]. split; [done|]. split; [done|]. split; [done|].
  intros Hacq Hpos. unfold c, u, claimTask, unclaimTask.
  rewrite !withSwarmLock_acquired by done. auto.
Qed.

(** A's claim in [diskS5] is stale once A is gone from the registry: B's
    claim of another task throws instead of succeeding. *)
Lemma failed_claims_write_changes_nothing_witness :
  (claimTask everyoneAlive {[ "B" := RegOk (regOf "B" 101 "s2") ]} lockFree
     (mkIo false true) "t2" "spec.md" "T-2" "B" "s2" 101 None diskS5).1
  = diskS5.
Proof.
  exact (proj1
    (failed_claims_write_changes_nothing everyoneAlive
       {[ "B" := RegOk (regOf "B" 101 "s2") ]} lockFree (mkIo false true)
       "t2" "spec.md" "T-2" "B" "s2" 101 None diskS5 eq_refl)).
Defined.

(** ** Two messages under one file name *)


